(** * x-image-downloader (package [xid]): a shallow embedding and its properties

    The development follows the package layout:
    - [downloader.py]: [download_image], [extract_filename_from_url];
    - [utils.py]: [save_tweet_content_v2], [create_tweet_folder];
    - [twitter.py]: [validate_credentials], [get_tweets_with_images].

    Python strings are [string]s, dictionaries are [gmap]s, the file system
    is a finite map from paths to nodes, and the two remote services (the
    timeline API and the image host) are functions threading an abstract
    world state. *)

From Stdlib Require Import String Ascii List Arith Lia Bool ZArith DecimalString.
From stdpp Require Import gmap strings list fin_maps.

(* ===================================================================== *)
(** * Python string primitives used by the package *)
(* ===================================================================== *)

Module PyStr.

(** [c in s] for a one-character needle. *)
Fixpoint contains (c : ascii) (s : string) : bool :=
  match s with
  | EmptyString => false
  | String a rest => Ascii.eqb a c || contains c rest
  end.

(** [s.split(sep)] for a one-character separator: the pieces between
    occurrences of [sep]; never an empty list. *)
Fixpoint split (sep : ascii) (s : string) : list string :=
  match s with
  | EmptyString => [EmptyString]
  | String a rest =>
      if Ascii.eqb a sep then EmptyString :: split sep rest
      else match split sep rest with
           | [] => [String a EmptyString]
           | piece :: pieces => String a piece :: pieces
           end
  end.

(** [l[0]] and [l[-1]] on the result of a split (which is never empty). *)
Definition first (l : list string) : string := hd EmptyString l.
Definition final (l : list string) : string := List.last l EmptyString.

(** [s.endswith(suffix)]. *)
Definition endswith (s suffix : string) : bool :=
  Nat.leb (String.length suffix) (String.length s) &&
  String.eqb
    (substring (String.length s - String.length suffix) (String.length suffix) s)
    suffix.

(** [s[:-n]] for [n > 0]: all but the last [n] characters (the empty
    string when [s] is shorter than [n]). *)
Definition drop_tail (n : nat) (s : string) : string :=
  substring 0 (String.length s - n) s.

(** [s.startswith(c)] for a one-character prefix. *)
Definition startswith_char (c : ascii) (s : string) : bool :=
  match s with
  | String a _ => Ascii.eqb a c
  | EmptyString => false
  end.

(** Descriptions of the two split idioms that do not go through the list
    of pieces: the text before the first [c], and the text after the
    last [c]. *)
Fixpoint before_first (c : ascii) (s : string) : string :=
  match s with
  | EmptyString => EmptyString
  | String a rest => if Ascii.eqb a c then EmptyString else String a (before_first c rest)
  end.

Fixpoint after_last (c : ascii) (s : string) : string :=
  match s with
  | EmptyString => EmptyString
  | String a rest => if contains c s then after_last c rest else s
  end.

End PyStr.

(* ===================================================================== *)
(** * downloader.py: URL cleaning *)
(* ===================================================================== *)

(** [size_suffixes = [':large', ':medium', ':small', ':thumb']] *)
Definition size_suffixes : list string := [":large"; ":medium"; ":small"; ":thumb"].

(** The [for suffix in size_suffixes] loop of [download_image]:
    on the first suffix that [original_url] ends with, cut it and [break]. *)
Fixpoint strip_size_suffix (suffixes : list string) (original_url : string) : string :=
  match suffixes with
  | [] => original_url
  | suffix :: rest =>
      if PyStr.endswith original_url suffix
      then PyStr.drop_tail (String.length suffix) original_url
      else strip_size_suffix rest original_url
  end.

(** The value of [original_url] that [download_image] requests:
    [image_url.split('?')[0]], then the suffix loop. *)
Definition original_url (image_url : string) : string :=
  strip_size_suffix size_suffixes (PyStr.first (PyStr.split "?" image_url)).

(** The [for suffix in size_suffixes] loop of [extract_filename_from_url]:
    on the first suffix that [image_filename] ends with, keep [name_part]
    if it has a dot, and [break] either way. *)
Fixpoint clean_size_suffix (suffixes : list string) (image_filename : string) : string :=
  match suffixes with
  | [] => image_filename
  | suffix :: rest =>
      if PyStr.endswith image_filename suffix
      then let name_part := PyStr.drop_tail (String.length suffix) image_filename in
           if PyStr.contains "." name_part then name_part else image_filename
      else clean_size_suffix rest image_filename
  end.

Definition extract_filename_from_url (url : string) : string :=
  let url_path := PyStr.first (PyStr.split "?" url) in
  let image_filename := PyStr.final (PyStr.split "/" url_path) in
  clean_size_suffix size_suffixes image_filename.

(** ** The same two rules, written after the specification's wording *)

(** "ends with one of the reserved size suffixes, checked in that priority
    order, first match wins". *)
Definition reserved_suffix_of (s : string) : option string :=
  List.find (PyStr.endswith s) size_suffixes.

(** Filename Normalizer, steps 1 to 3 of the specification. *)
Definition normalize_filename (url : string) : string :=
  let no_query := PyStr.before_first "?" url in
  let segment := PyStr.after_last "/" no_query in
  match reserved_suffix_of segment with
  | Some suffix =>
      let truncated := PyStr.drop_tail (String.length suffix) segment in
      if PyStr.contains "." truncated then truncated else segment
  | None => segment
  end.

(** Image Fetcher, step 1 of the specification. *)
Definition full_quality_url (url : string) : string :=
  let no_query := PyStr.before_first "?" url in
  match reserved_suffix_of no_query with
  | Some suffix => PyStr.drop_tail (String.length suffix) no_query
  | None => no_query
  end.

(* ===================================================================== *)
(** * Values of the Python runtime and of the libraries the package calls *)
(* ===================================================================== *)

(** ** Exceptions and results *)

Inductive Exn : Type :=
  | FileNotFoundError
  | FileExistsError
  | NotADirectoryError
  | IsADirectoryError
  | TweepyException
  | OtherException.

(** A call either returns a value or raises. *)
Inductive result (A : Type) : Type :=
  | Ok (a : A)
  | Raise (e : Exn).
Arguments Ok {A} a.
Arguments Raise {A} e.

(** ** [str(n)] for integers *)

Definition str_nat (n : nat) : string := NilZero.string_of_uint (Nat.to_uint n).
Definition str_int (z : Z) : string := NilZero.string_of_int (Z.to_int z).

(** The newline character of the ["\n"] escapes. *)
Definition nl : string := String (ascii_of_nat 10) EmptyString.

(** ** [datetime] *)

Record datetime : Type := mkDatetime {
  year : nat; month : nat; day : nat;
  hour : nat; minute : nat; second : nat
}.

(** The ranges a [datetime] object guarantees. *)
Definition datetime_valid (d : datetime) : Prop :=
  1 <= year d < 100 * 100 /\ 1 <= month d <= 12 /\ 1 <= day d <= 31 /\
  hour d < 24 /\ minute d < 60 /\ second d < 60.

(** Decimal digits. *)
Definition is_digit (c : ascii) : bool :=
  Nat.leb 48 (nat_of_ascii c) && Nat.leb (nat_of_ascii c) 57.

Fixpoint all_digits (s : string) : bool :=
  match s with
  | EmptyString => true
  | String c rest => is_digit c && all_digits rest
  end.

(** The text [YYYYMMDD_HHMMSS]: six fields of digits of widths 4, 2, 2, 2,
    2, 2, with an underscore between the date and the time. *)
Definition is_YYYYMMDD_HHMMSS (s : string) : Prop :=
  exists Y m d H M S : string,
    s = Y +:+ m +:+ d +:+ "_" +:+ H +:+ M +:+ S /\
    Forall (fun field => all_digits field = true) [Y; m; d; H; M; S] /\
    map String.length [Y; m; d; H; M; S] = [4; 2; 2; 2; 2; 2].

(** [n] zeros. *)
Fixpoint zeros (n : nat) : string :=
  match n with
  | 0 => EmptyString
  | S k => String "0" (zeros k)
  end.

(** [str(n).zfill(width)] *)
Definition zfill (width n : nat) : string :=
  let digits := str_nat n in
  zeros (width - String.length digits) +:+ digits.

(** One [strftime] directive: [%Y] is the year on four digits, [%m %d %H
    %M %S] are two-digit fields; other directives are not used by the
    package and are copied through. *)
Definition strftime_directive (d : ascii) (t : datetime) : string :=
  if Ascii.eqb d "Y" then zfill 4 (year t)
  else if Ascii.eqb d "m" then zfill 2 (month t)
  else if Ascii.eqb d "d" then zfill 2 (day t)
  else if Ascii.eqb d "H" then zfill 2 (hour t)
  else if Ascii.eqb d "M" then zfill 2 (minute t)
  else if Ascii.eqb d "S" then zfill 2 (second t)
  else String "%" (String d EmptyString).

(** [t.strftime(fmt)] *)
Fixpoint strftime (fmt : string) (t : datetime) : string :=
  match fmt with
  | EmptyString => EmptyString
  | String c rest =>
      if Ascii.eqb c "%" then
        match rest with
        | String d rest' => strftime_directive d t +:+ strftime rest' t
        | EmptyString => String c EmptyString
        end
      else String c (strftime rest t)
  end.

(** [str(t)] for the timezone-aware UTC timestamps the API client builds:
    [YYYY-MM-DD HH:MM:SS+00:00]. *)
Definition str_datetime (t : datetime) : string :=
  zfill 4 (year t) +:+ "-" +:+ zfill 2 (month t) +:+ "-" +:+ zfill 2 (day t) +:+ " " +:+
  zfill 2 (hour t) +:+ ":" +:+ zfill 2 (minute t) +:+ ":" +:+ zfill 2 (second t) +:+ "+00:00".

(** ** [pathlib.Path] (POSIX flavour) *)

(** A path is its list of segments, anchored at the root or relative to
    the working directory. *)
Record Path : Type := mkPath { anchored : bool; parts : list string }.

#[global] Instance Path_eq_dec : EqDecision Path.
Proof. solve_decision. Defined.

#[global] Instance Path_countable : Countable Path :=
  inj_countable' (fun p => (anchored p, parts p)) (fun t => mkPath (fst t) (snd t))
                 (fun p => match p with mkPath _ _ => eq_refl end).

(** Parsing a string into segments drops empty segments and ["."]. *)
Definition kept_segment (x : string) : bool :=
  negb (String.eqb x EmptyString) && negb (String.eqb x ".").

Definition path_segments (s : string) : list string :=
  List.filter kept_segment (PyStr.split "/" s).

(** [Path(s)] *)
Definition Path_of (s : string) : Path :=
  {| anchored := PyStr.startswith_char "/" s; parts := path_segments s |}.

(** [p / key]: an absolute [key] replaces [p]; otherwise its segments are
    appended. *)
Definition truediv (p : Path) (key : string) : Path :=
  if PyStr.startswith_char "/" key then Path_of key
  else {| anchored := anchored p; parts := parts p ++ path_segments key |}.

(** [p.parent] *)
Definition parent (p : Path) : Path :=
  {| anchored := anchored p; parts := removelast (parts p) |}.

(** [p] lies directly inside [folder]: the segments of [folder] followed by
    exactly one more, which names an entry of the folder. The segment [..]
    does not: [folder / ".."] is kept as written by [pathlib] and denotes
    the directory above [folder]. *)
Definition direct_child_of (p folder : Path) : Prop :=
  anchored p = anchored folder /\
  exists name, name <> ".." /\ parts p = parts folder ++ [name].

(** ** The file system *)

Inductive Node : Type :=
  | Dir
  | File (content : string).

Abbreviation FS := (gmap Path Node).

(** What a path denotes, read from its last segment upwards. The root and
    the working directory always exist; a final [..] denotes the directory
    above the one the rest of the path denotes, which must be a directory;
    any other path is looked up by name. *)
Fixpoint resolve (fs : FS) (is_anchored : bool) (reversed : list string) : option Node :=
  match reversed with
  | [] => Some Dir
  | segment :: above =>
      if String.eqb segment ".." then
        match resolve fs is_anchored above with
        | Some Dir => Some Dir
        | Some (File _) | None => None
        end
      else fs !! {| anchored := is_anchored; parts := rev reversed |}
  end.

Definition node_at (fs : FS) (p : Path) : option Node :=
  resolve fs (anchored p) (rev (parts p)).

(** [p.mkdir(exist_ok=True)]: an existing directory is accepted, an existing
    file is not; the parent must be a directory. *)
Definition mkdir_exist_ok (p : Path) (fs : FS) : result FS :=
  match node_at fs p with
  | Some Dir => Ok fs
  | Some (File _) => Raise FileExistsError
  | None =>
      match node_at fs (parent p) with
      | Some Dir => Ok (<[p := Dir]> fs)
      | Some (File _) => Raise NotADirectoryError
      | None => Raise FileNotFoundError
      end
  end.

(** [open(p, 'w')] and [open(p, 'wb')]: create or truncate the file. *)
Definition open_for_write (p : Path) (fs : FS) : result FS :=
  match node_at fs p with
  | Some Dir => Raise IsADirectoryError
  | Some (File _) | None =>
      match node_at fs (parent p) with
      | Some Dir => Ok (<[p := File EmptyString]> fs)
      | Some (File _) => Raise NotADirectoryError
      | None => Raise FileNotFoundError
      end
  end.

(** [f.write(data)] on the file opened at [p]. *)
Definition write (p : Path) (data : string) (fs : FS) : FS :=
  match fs !! p with
  | Some (File content) => <[p := File (content +:+ data)]> fs
  | _ => fs
  end.

(** ** Objects returned by the timeline API client *)

Record Media : Type := mkMedia {
  media_key : string;
  type : string;
  url : option string        (* [None]: the attribute is absent or null *)
}.

Record Tweet : Type := mkTweet {
  id : Z;
  created_at : datetime;
  text : string;
  attachments : option (gmap string (list string))
}.

(** [data] is [None] or a list; [includes] and [meta] are dictionaries (of
    which only the ['media'] and ['next_token'] entries are read). *)
Record Response : Type := mkResponse {
  data : option (list Tweet);
  includes : gmap string (list Media);
  meta : gmap string string
}.

(** The keyword arguments of [client.get_users_tweets]. *)
Record RequestParams : Type := mkRequestParams {
  req_id : Z;
  max_results : nat;
  exclude : list string;
  tweet_fields : list string;
  media_fields : list string;
  expansions : list string;
  pagination_token : option string;
  start_time : option string
}.

(** What [requests.get(url, stream=True)] followed by [raise_for_status()]
    and the iteration over [iter_content] can do: fail before any body is
    read, or yield chunks and then either finish or fail. *)
Inductive HttpResponse : Type :=
  | RequestFailed
  | Stream (chunks : list string) (complete : bool).

(** The remote services, threading an abstract world [W]. *)
Record Services (W : Type) : Type := mkServices {
  get_user : string -> W -> result (option Z) * W;
  get_users_tweets : RequestParams -> W -> result Response * W;
  requests_get : string -> W -> HttpResponse * W
}.
Arguments get_user {W} _ _ _.
Arguments get_users_tweets {W} _ _ _.
Arguments requests_get {W} _ _ _.

(* ===================================================================== *)
(** * utils.py *)
(* ===================================================================== *)

(** [enumerate(l, start)] *)
Fixpoint enumerate {A : Type} (start : nat) (l : list A) : list (nat * A) :=
  match l with
  | [] => []
  | x :: rest => (start, x) :: enumerate (S start) rest
  end.

(** The successive [f.write] calls of [save_tweet_content_v2] after the file
    has been opened. *)
Definition write_tweet_lines (txt_path : Path) (tweet : Tweet) (username : string)
    (image_urls : option (list string)) (fs : FS) : FS :=
  let fs := write txt_path ("Tweet ID: " +:+ str_int (id tweet) +:+ nl) fs in
  let fs := write txt_path ("Created at: " +:+ str_datetime (created_at tweet) +:+ nl) fs in
  let fs := write txt_path ("Author: @" +:+ username +:+ nl) fs in
  let fs := write txt_path ("Text:" +:+ nl +:+ text tweet +:+ nl) fs in
  match image_urls with
  | Some ((_ :: _) as urls) =>
      let fs := write txt_path (nl +:+ "Image URLs:" +:+ nl) fs in
      fold_left
        (fun fs '(idx, url) => write txt_path ("  " +:+ str_nat idx +:+ ". " +:+ url +:+ nl) fs)
        (enumerate 1 urls) fs
  | Some [] | None => fs
  end.

Definition save_tweet_content_v2 (tweet : Tweet) (folder_path : Path) (username : string)
    (image_urls : option (list string)) (fs : FS) : result FS :=
  let txt_path := truediv folder_path "tweet.txt" in
  match open_for_write txt_path fs with
  | Raise e => Raise e
  | Ok fs => Ok (write_tweet_lines txt_path tweet username image_urls fs)
  end.

Definition create_tweet_folder (output_path : Path) (tweet_created_at : datetime) (fs : FS)
    : result (Path * FS) :=
  let folder_name := strftime "%Y%m%d_%H%M%S" tweet_created_at in
  let tweet_folder := truediv output_path folder_name in
  match mkdir_exist_ok tweet_folder fs with
  | Raise e => Raise e
  | Ok fs => Ok (tweet_folder, fs)
  end.

(** The folder [create_tweet_folder] computes for a post. *)
Definition folder_of (output_path : Path) (tweet : Tweet) : Path :=
  truediv output_path (strftime "%Y%m%d_%H%M%S" (created_at tweet)).

(** ** The layout of [tweet.txt], written after the specification's wording *)

(** "each URL as a 1-indexed list item" *)
Definition numbered_item (idx : nat) (u : string) : string :=
  "  " +:+ str_nat idx +:+ ". " +:+ u +:+ nl.

Fixpoint numbered_items (idx : nat) (urls : list string) : string :=
  match urls with
  | [] => EmptyString
  | u :: rest => numbered_item idx u +:+ numbered_items (S idx) rest
  end.

(** "post identifier, creation timestamp, author handle prefixed with [@],
    a literal [Text:] line followed by the post body text" *)
Definition metadata_header (tweet : Tweet) (author : string) : string :=
  "Tweet ID: " +:+ str_int (id tweet) +:+ nl +:+
  "Created at: " +:+ str_datetime (created_at tweet) +:+ nl +:+
  "Author: @" +:+ author +:+ nl +:+
  "Text:" +:+ nl +:+ text tweet +:+ nl.

(** "then, only if [image_urls] is non-empty, a blank line, an [Image URLs:]
    header, and each URL as a 1-indexed list item" *)
Definition metadata_text (tweet : Tweet) (author : string) (image_urls : list string) : string :=
  metadata_header tweet author +:+
  match image_urls with
  | [] => EmptyString
  | _ :: _ => nl +:+ "Image URLs:" +:+ nl +:+ numbered_items 1 image_urls
  end.

(* ===================================================================== *)
(** * The run: state, observable actions, downloader.py and twitter.py *)
(* ===================================================================== *)

(** The actions of a run, in the order they happen. Each action carries the
    arguments of the call; a download also carries what the image host
    answered and the boolean [download_image] returned. *)
Inductive Event : Type :=
  | EvGetUser (username : string)
  | EvFetchPage (request_params : RequestParams)
  | EvTweet (tweet : Tweet)                 (* [tweets_processed += 1] for this post *)
  | EvMkdir (folder : Path)
  | EvDownload (image_url : string) (save_path : Path) (response : HttpResponse) (ok : bool)
  | EvSaveTweet (tweet : Tweet) (folder_path : Path) (username : string)
                (image_urls : list string).

(** The body of the [try] block of [download_image] once the host has
    answered: open the destination, write the chunks, report success. *)
Definition store_response (response : HttpResponse) (save_path : Path) (fs : FS) : bool * FS :=
  match response with
  | RequestFailed => (false, fs)
  | Stream chunks complete =>
      match open_for_write save_path fs with
      | Raise _ => (false, fs)
      | Ok fs => (complete, fold_left (fun fs chunk => write save_path chunk fs) chunks fs)
      end
  end.

(** What an action does to the disk. *)
Definition effect (fs : FS) (ev : Event) : FS :=
  match ev with
  | EvMkdir folder =>
      match mkdir_exist_ok folder fs with Ok fs' => fs' | Raise _ => fs end
  | EvDownload _ save_path response _ => snd (store_response response save_path fs)
  | EvSaveTweet tweet folder_path username image_urls =>
      match save_tweet_content_v2 tweet folder_path username (Some image_urls) fs with
      | Ok fs' => fs'
      | Raise _ => fs
      end
  | EvGetUser _ | EvFetchPage _ | EvTweet _ => fs
  end.

(** The disk after a sequence of actions. *)
Definition replay (fs : FS) (evs : list Event) : FS := fold_left effect evs fs.

(** How a block of statements ends: it falls through, it executes the
    [return] of the fail-fast branch, or an exception propagates. *)
Inductive Flow (A : Type) : Type :=
  | Normal (a : A)
  | Return
  | Raised (e : Exn).
Arguments Normal {A} a.
Arguments Return {A}.
Arguments Raised {A} e.

Definition is_failed_download (ev : Event) : bool :=
  match ev with
  | EvDownload _ _ _ false => true
  | _ => false
  end.

(** The download of [image_url] into [folder], with the given result. *)
Definition download_of (folder : Path) (ok : bool) (image_url : string) (ev : Event) : Prop :=
  exists response,
    ev = EvDownload image_url (truediv folder (extract_filename_from_url image_url)) response ok.

(** No download failed among [evs]. *)
Definition quiet (evs : list Event) : Prop :=
  Forall (fun ev => is_failed_download ev = false) evs.

(** The actions of a run stopped by a failed download end with the post
    being processed: its counting, its folder, the downloads that succeeded
    and the one that failed. *)
Definition stopped_on_failure (evs : list Event) : Prop :=
  exists before tweet folder urls downloads failed ev,
    evs = before ++ EvTweet tweet :: EvMkdir folder :: downloads ++ [ev] /\
    quiet before /\
    Forall2 (download_of folder true) urls downloads /\
    download_of folder false failed ev.

(** What the actions of a block look like, by the way the block ends. *)
Definition flow_shape {A : Type} (r : Flow A) (evs : list Event) : Prop :=
  match r with
  | Return => stopped_on_failure evs
  | Normal _ | Raised _ => quiet evs
  end.

(** The posts whose processing started, in order. *)
Definition tweet_events (evs : list Event) : list Tweet :=
  flat_map (fun ev => match ev with EvTweet tweet => [tweet] | _ => [] end) evs.

(** How a call of [get_tweets_with_images] ends. *)
Inductive Ending : Type :=
  | MissingCredentials        (* [validate_credentials()] is false *)
  | Uncaught (e : Exn)        (* [output_path.mkdir] raised, outside the [try] *)
  | UserNotFound
  | DownloadFailed            (* "Failed to download image. Stopping." *)
  | Done                      (* the summary is printed *)
  | FetchError                (* [except tweepy.TweepyException] *)
  | UnexpectedError (e : Exn) (* [except Exception] *)
  | OutOfFuel.                (* the unrolling bound of the loop was too small *)

(** [max_tweets = 200] *)
Definition max_tweets : nat := 200.

(** [not bearer_token] is true for [None] and for the empty string. *)
Definition validate_credentials (bearer_token : option string) : bool :=
  match bearer_token with
  | None => false
  | Some token => negb (String.eqb token EmptyString)
  end.

(** [hasattr(photo, 'url') and photo.url]: the URL when it is present and
    not empty. *)
Definition photo_url (photo : Media) : option string :=
  match url photo with
  | Some u => if String.eqb u EmptyString then None else Some u
  | None => None
  end.

(** The URLs of the photos that have one, in photo order. *)
Fixpoint present_urls (photos : list Media) : list string :=
  match photos with
  | [] => []
  | photo :: rest =>
      match photo_url photo with
      | Some image_url => image_url :: present_urls rest
      | None => present_urls rest
      end
  end.

(** [media_dict[media.media_key] = media] for every included media, when
    [response.includes] has a ['media'] entry (a dictionary with that entry is
    not empty, so the truth test on [response.includes] adds nothing). *)
Definition build_media_dict (response : Response) : gmap string Media :=
  match includes response !! "media" with
  | Some medias => fold_left (fun d media => <[media_key media := media]> d) medias ∅
  | None => ∅
  end.

(** [[media_dict[key] for key in media_keys
      if key in media_dict and media_dict[key].type == 'photo']] *)
Definition select_photos (media_dict : gmap string Media) (media_keys : list string) : list Media :=
  flat_map (fun key =>
              match media_dict !! key with
              | Some media => if String.eqb (type media) "photo" then [media] else []
              | None => []
              end) media_keys.

(** ** The media join, written after the specification's wording *)

(** The attachment keys of a post. *)
Definition attachment_keys (tweet : Tweet) : list string :=
  match attachments tweet with
  | Some att => default [] (att !! "media_keys")
  | None => []
  end.

(** The page's included media list. *)
Definition included_media (response : Response) : list Media :=
  default [] (includes response !! "media").

(** Resolving a key in a page: the attachment of the page's media list that
    carries this key (the last one, should a key be repeated). *)
Definition resolve_media (medias : list Media) (key : string) : option Media :=
  List.find (fun media => String.eqb (media_key media) key) (rev medias).

(** "resolve each key, keep only attachments resolving to a photo type,
    silently drop keys that don't resolve or aren't photos". *)
Fixpoint kept_photos (medias : list Media) (keys : list string) : list Media :=
  match keys with
  | [] => []
  | key :: rest =>
      match resolve_media medias key with
      | Some media =>
          if String.eqb (type media) "photo"
          then media :: kept_photos medias rest
          else kept_photos medias rest
      | None => kept_photos medias rest
      end
  end.

(** The photos of one post: the [if hasattr(tweet, 'attachments') and
    tweet.attachments] test, then the comprehension. *)
Definition photos_of (media_dict : gmap string Media) (tweet : Tweet) : list Media :=
  match attachments tweet with
  | Some att =>
      if decide (att = ∅) then []
      else select_photos media_dict (default [] (att !! "media_keys"))
  | None => []
  end.

Section Run.

Context {W : Type}.
Variable services : Services W.

Record State : Type := mkState {
  world : W;
  fs : FS;
  tweets_processed : nat;
  tweets_with_images : nat;
  trace : list Event
}.

(** Recording an action in the trace. *)
Definition record (ev : Event) (st : State) : State :=
  {| world := world st; fs := fs st;
     tweets_processed := tweets_processed st;
     tweets_with_images := tweets_with_images st;
     trace := trace st ++ [ev] |}.

Definition set_world (w : W) (st : State) : State :=
  {| world := w; fs := fs st;
     tweets_processed := tweets_processed st;
     tweets_with_images := tweets_with_images st;
     trace := trace st |}.

Definition set_fs (fs' : FS) (st : State) : State :=
  {| world := world st; fs := fs';
     tweets_processed := tweets_processed st;
     tweets_with_images := tweets_with_images st;
     trace := trace st |}.

Definition count_processed (st : State) : State :=
  {| world := world st; fs := fs st;
     tweets_processed := S (tweets_processed st);
     tweets_with_images := tweets_with_images st;
     trace := trace st |}.

Definition count_with_images (st : State) : State :=
  {| world := world st; fs := fs st;
     tweets_processed := tweets_processed st;
     tweets_with_images := S (tweets_with_images st);
     trace := trace st |}.

(** [st'] is [st] after the actions [evs]: the trace grew by [evs] and
    the disk is the one [evs] produce. *)
Definition advances (st : State) (evs : list Event) (st' : State) : Prop :=
  trace st' = trace st ++ evs /\ fs st' = replay (fs st) evs.

(** A file-system call made by the run: on success the disk is replaced by
    the one the call produced, on an exception it is left as it was; the
    action is recorded either way. *)
Definition on_disk {A : Type} (ev : Event) (call : FS -> result (A * FS)) (st : State)
    : result A * State :=
  match call (fs st) with
  | Ok (a, fs') => (Ok a, record ev (set_fs fs' st))
  | Raise e => (Raise e, record ev st)
  end.

(** downloader.py, [download_image]: derive the URL to request, ask the
    host, store the body; any exception is caught and turned into
    [False]. *)
Definition download_image (image_url : string) (save_path : Path) (st : State)
    : bool * State :=
  let (response, w) := requests_get services (original_url image_url) (world st) in
  let (ok, fs') := store_response response save_path (fs st) in
  (ok, record (EvDownload image_url save_path response ok) (set_fs fs' (set_world w st))).

(** The [for idx, photo in enumerate(photos, 1)] loop ([idx] is only
    printed). *)
Fixpoint download_photos (tweet_folder : Path) (photos : list Media)
    (image_urls : list string) (st : State) : Flow (list string) * State :=
  match photos with
  | [] => (Normal image_urls, st)
  | photo :: rest =>
      match photo_url photo with
      | None => download_photos tweet_folder rest image_urls st      (* continue *)
      | Some image_url =>
          let image_urls := image_urls ++ [image_url] in
          let image_filename := extract_filename_from_url image_url in
          let image_path := truediv tweet_folder image_filename in
          let (ok, st) := download_image image_url image_path st in
          if ok then download_photos tweet_folder rest image_urls st
          else (Return, st)
      end
  end.

(** The body of [for tweet in response.data]. *)
Definition process_tweet (output_path : Path) (username : string)
    (media_dict : gmap string Media) (tweet : Tweet) (st : State) : Flow unit * State :=
  let st := count_processed (record (EvTweet tweet) st) in
  match photos_of media_dict tweet with
  | [] => (Normal tt, st)
  | (_ :: _) as photos =>
      let st := count_with_images st in
      match on_disk (EvMkdir (folder_of output_path tweet))
              (create_tweet_folder output_path (created_at tweet)) st with
      | (Raise e, st) => (Raised e, st)
      | (Ok tweet_folder, st) =>
          match download_photos tweet_folder photos [] st with
          | (Normal image_urls, st) =>
              match on_disk (EvSaveTweet tweet tweet_folder username image_urls)
                      (fun fs =>
                         match save_tweet_content_v2 tweet tweet_folder username
                                 (Some image_urls) fs with
                         | Ok fs' => Ok (tt, fs')
                         | Raise e => Raise e
                         end) st with
              | (Raise e, st) => (Raised e, st)
              | (Ok _, st) => (Normal tt, st)
              end
          | (Return, st) => (Return, st)
          | (Raised e, st) => (Raised e, st)
          end
      end
  end.

Fixpoint process_tweets (output_path : Path) (username : string)
    (media_dict : gmap string Media) (tweets : list Tweet) (st : State) : Flow unit * State :=
  match tweets with
  | [] => (Normal tt, st)
  | tweet :: rest =>
      match process_tweet output_path username media_dict tweet st with
      | (Normal _, st) => process_tweets output_path username media_dict rest st
      | stop => stop
      end
  end.

(** One fetched page: the fresh [media_dict], then the loop over the posts. *)
Definition process_page (output_path : Path) (username : string) (response : Response)
    (tweets : list Tweet) (st : State) : Flow unit * State :=
  let media_dict := build_media_dict response in
  process_tweets output_path username media_dict tweets st.

Definition make_request_params (user_id : Z) (pagination_token : option string)
    (start_date : option string) : RequestParams :=
  {| req_id := user_id;
     max_results := 100;
     exclude := ["retweets"; "replies"];
     tweet_fields := ["created_at"; "attachments"];
     media_fields := ["type"; "url"; "width"; "height"];
     expansions := ["attachments.media_keys"];
     pagination_token := pagination_token;
     start_time :=
       match start_date with
       | Some d => if String.eqb d EmptyString then None else Some (d +:+ "T00:00:00Z")
       | None => None
       end |}.

(** [while tweets_processed < max_tweets: ...], unrolled at most [fuel]
    times; [None] when the bound is reached. *)
Fixpoint walk (fuel : nat) (user_id : Z) (output_path : Path) (username : string)
    (start_date : option string) (pagination_token : option string) (st : State)
    : option (Flow unit * State) :=
  match fuel with
  | 0 => None
  | S fuel =>
      if tweets_processed st <? max_tweets then
        let request_params := make_request_params user_id pagination_token start_date in
        let st := record (EvFetchPage request_params) st in
        let (response, w) := get_users_tweets services request_params (world st) in
        let st := set_world w st in
        match response with
        | Raise e => Some (Raised e, st)
        | Ok response =>
            match data response with
            | None | Some [] => Some (Normal tt, st)                 (* break *)
            | Some ((_ :: _) as tweets) =>
                match process_page output_path username response tweets st with
                | (Normal _, st) =>
                    match meta response !! "next_token" with
                    | Some next_token =>
                        if tweets_processed st <? max_tweets
                        then walk fuel user_id output_path username start_date
                                  (Some next_token) st
                        else Some (Normal tt, st)                    (* break *)
                    | None => Some (Normal tt, st)                   (* break *)
                    end
                | stop => Some stop
                end
            end
        end
      else Some (Normal tt, st)
  end.

(** The [except] clauses at the end of [get_tweets_with_images]. *)
Definition handler (e : Exn) : Ending :=
  match e with
  | TweepyException => FetchError
  | _ => UnexpectedError e
  end.

(** The state a call starts from: both counters at zero. *)
Definition initial_state (w : W) (disk : FS) : State :=
  {| world := w; fs := disk; tweets_processed := 0; tweets_with_images := 0; trace := [] |}.

Definition get_tweets_with_images (bearer_token : option string) (username : string)
    (output_dir : string) (start_date : option string) (w : W) (disk : FS)
    : Ending * State :=
  let st := initial_state w disk in
  if negb (validate_credentials bearer_token) then (MissingCredentials, st)
  else
    let output_path := Path_of output_dir in
    match on_disk (EvMkdir output_path)
            (fun fs => match mkdir_exist_ok output_path fs with
                       | Ok fs' => Ok (tt, fs')
                       | Raise e => Raise e
                       end) st with
    | (Raise e, st) => (Uncaught e, st)
    | (Ok _, st) =>
        let st := record (EvGetUser username) st in
        let (user, w) := get_user services username (world st) in
        let st := set_world w st in
        match user with
        | Raise e => (handler e, st)
        | Ok None => (UserNotFound, st)
        | Ok (Some user_id) =>
            match walk (S max_tweets) user_id output_path username start_date None st with
            | None => (OutOfFuel, st)
            | Some (Normal _, st) => (Done, st)
            | Some (Return, st) => (DownloadFailed, st)
            | Some (Raised e, st) => (handler e, st)
            end
        end
    end.

End Run.

Arguments mkState {W} _ _ _ _ _.

(* ===================================================================== *)
(** * Sample timelines *)
(* ===================================================================== *)

Module Samples.

Definition morning : datetime := mkDatetime 2025 1 15 9 5 3.

Definition with_media (keys : list string) : option (gmap string (list string)) :=
  Some {[ "media_keys" := keys ]}.

Definition photo (key image_url : string) : Media :=
  {| media_key := key; type := "photo"; url := Some image_url |}.

Definition page (tweets : list Tweet) (medias : list Media) (next_token : option string)
    : Response :=
  {| data := Some tweets;
     includes := {[ "media" := medias ]};
     meta := match next_token with
             | Some token => {[ "next_token" := token ]}
             | None => ∅
             end |}.

(** A timeline served as one page, by a host that answers every image
    request by looking the URL up in [host]. *)
Definition one_page (response : Response) (host : string -> HttpResponse) : Services unit :=
  {| get_user := fun _ w => (Ok (Some 7%Z), w);
     get_users_tweets := fun _ w => (Ok response, w);
     requests_get := fun image_url w => (host image_url, w) |}.

(** ** Two posts of the same second with an image of the same name; the
    second body breaks off after its first chunk. *)

Definition first_post : Tweet :=
  {| id := 41; created_at := morning; text := "first"; attachments := with_media ["k1"] |}.
Definition second_post : Tweet :=
  {| id := 42; created_at := morning; text := "second"; attachments := with_media ["k2"] |}.

Definition same_second : Response :=
  page [first_post; second_post]
       [photo "k1" "https://pbs.twimg.com/media/x.jpg";
        photo "k2" "https://mirror.example/media/x.jpg"] None.

Definition breaking_host (image_url : string) : HttpResponse :=
  if String.eqb image_url "https://pbs.twimg.com/media/x.jpg"
  then Stream ["JPEG"; "DATA"] true
  else Stream ["JP"] false.

Definition same_second_services : Services unit := one_page same_second breaking_host.

(** ** Three pages of 99 posts without attachments *)

Definition plain_post : Tweet :=
  {| id := 1; created_at := morning; text := "plain"; attachments := None |}.

Definition short_page (next_token : option string) : Response :=
  page (repeat plain_post 99) [] next_token.

Definition short_pages_services : Services unit :=
  {| get_user := fun _ w => (Ok (Some 7%Z), w);
     get_users_tweets := fun request_params w =>
       (Ok (match pagination_token request_params with
            | None => short_page (Some "page2")
            | Some token =>
                if String.eqb token "page2" then short_page (Some "page3")
                else short_page None
            end), w);
     requests_get := fun _ w => (RequestFailed, w) |}.

(** ** One post, two photos, the second without URL *)

Definition hello_post : Tweet :=
  {| id := 42; created_at := morning; text := "hello"; attachments := with_media ["k1"; "k2"] |}.

Definition hello_page : Response :=
  page [hello_post]
       [photo "k1" "https://pbs.twimg.com/media/ABC.jpg:large?x=1";
        {| media_key := "k2"; type := "photo"; url := None |}] None.

Definition good_host (image_url : string) : HttpResponse := Stream ["JPEG"] true.

Definition hello_services : Services unit := one_page hello_page good_host.

(** ** One post whose photos all lack a URL *)

Definition silent_post : Tweet :=
  {| id := 43; created_at := morning; text := "no links"; attachments := with_media ["k3"] |}.

Definition silent_page : Response :=
  page [silent_post] [{| media_key := "k3"; type := "photo"; url := None |}] None.

Definition silent_services : Services unit := one_page silent_page good_host.

(** The state of a run that has created its output directory. *)
Definition started : @State unit :=
  {| world := tt; fs := {[ Path_of "downloads" := Dir ]};
     tweets_processed := 0; tweets_with_images := 0; trace := [] |}.

End Samples.

(* ===================================================================== *)
(** * cli.py *)
(* ===================================================================== *)

(** How [main] ends: [sys.exit(code)], or the call of
    [get_tweets_with_images] has returned. *)
Inductive MainResult (W : Type) : Type :=
  | SystemExit (code : nat)
  | Returned (ending : Ending) (st : @State W).
Arguments SystemExit {W} code.
Arguments Returned {W} ending st.

(** [main], on [sys.argv]; the bearer token is what the environment holds. *)
Definition main {W : Type} (services : Services W) (bearer_token : option string)
    (argv : list string) (w : W) (disk : FS) : MainResult W :=
  if length argv <? 2 then SystemExit 1
  else
    let username := nth 1 argv EmptyString in
    let output_dir := if 2 <? length argv then nth 2 argv EmptyString else "downloads" in
    let start_date := if 3 <? length argv then Some (nth 3 argv EmptyString) else None in
    let (ending, st) :=
      get_tweets_with_images services bearer_token username output_dir start_date w disk in
    Returned ending st.

(* ===================================================================== *)
(** * __init__.py: the single-module version of the package *)
(* ===================================================================== *)

(** The package's [__init__.py] still holds the program as one module:
    [download_image], the two writers of [tweet.txt], and a
    [get_tweets_with_images] with the folder creation and the file-name
    cleaning written inline. *)
Module Legacy.

(** A post as API v1.1 returns it; [None] for a counter: the attribute is
    absent. *)
Record Status : Type := mkStatus {
  status_id : Z;
  status_created_at : datetime;
  screen_name : string;              (* [tweet.user.screen_name] *)
  status_text : string;
  favorite_count : option Z;
  retweet_count : option Z
}.

(** [save_tweet_content] (API v1.1 format) *)
Definition save_tweet_content (tweet : Status) (folder_path : Path) (fs : FS) : result FS :=
  let txt_path := truediv folder_path "tweet.txt" in
  match open_for_write txt_path fs with
  | Raise e => Raise e
  | Ok fs =>
      let fs := write txt_path ("Tweet ID: " +:+ str_int (status_id tweet) +:+ nl) fs in
      let fs := write txt_path
                  ("Created at: " +:+ str_datetime (status_created_at tweet) +:+ nl) fs in
      let fs := write txt_path ("Author: @" +:+ screen_name tweet +:+ nl) fs in
      let fs := write txt_path ("Text:" +:+ nl +:+ status_text tweet +:+ nl) fs in
      let fs := match favorite_count tweet with
                | Some likes => write txt_path (nl +:+ "Likes: " +:+ str_int likes +:+ nl) fs
                | None => fs
                end in
      let fs := match retweet_count tweet with
                | Some retweets =>
                    write txt_path ("Retweets: " +:+ str_int retweets +:+ nl) fs
                | None => fs
                end in
      Ok fs
  end.

(** [save_tweet_content_v2]: the same statements as in [utils.py]. *)
Definition save_tweet_content_v2 (tweet : Tweet) (folder_path : Path) (username : string)
    (image_urls : option (list string)) (fs : FS) : result FS :=
  let txt_path := truediv folder_path "tweet.txt" in
  match open_for_write txt_path fs with
  | Raise e => Raise e
  | Ok fs => Ok (write_tweet_lines txt_path tweet username image_urls fs)
  end.

Section LegacyRun.

Context {W : Type}.
Variable services : Services W.

Definition download_image (image_url : string) (save_path : Path) (st : @State W)
    : bool * @State W :=
  let original_url := PyStr.first (PyStr.split "?" image_url) in
  let original_url := strip_size_suffix size_suffixes original_url in
  let (response, w) := requests_get services original_url (world st) in
  let (ok, fs') := store_response response save_path (fs st) in
  (ok, record (EvDownload image_url save_path response ok) (set_fs fs' (set_world w st))).

(** The [for idx, photo in enumerate(photos, 1)] loop, with the file name
    computed inline. *)
Fixpoint download_photos (tweet_folder : Path) (photos : list Media)
    (image_urls : list string) (st : @State W) : Flow (list string) * @State W :=
  match photos with
  | [] => (Normal image_urls, st)
  | photo :: rest =>
      match photo_url photo with
      | Some image_url =>
          let image_urls := image_urls ++ [image_url] in
          let url_path := PyStr.first (PyStr.split "?" image_url) in
          let image_filename := PyStr.final (PyStr.split "/" url_path) in
          let image_filename := clean_size_suffix size_suffixes image_filename in
          let image_path := truediv tweet_folder image_filename in
          let (ok, st) := download_image image_url image_path st in
          if ok then download_photos tweet_folder rest image_urls st
          else (Return, st)
      | None => download_photos tweet_folder rest image_urls st      (* continue *)
      end
  end.

(** The body of [for tweet in response.data], with the folder created
    inline. *)
Definition process_tweet (output_path : Path) (username : string)
    (media_dict : gmap string Media) (tweet : Tweet) (st : @State W)
    : Flow unit * @State W :=
  let st := count_processed (record (EvTweet tweet) st) in
  match photos_of media_dict tweet with
  | [] => (Normal tt, st)
  | (_ :: _) as photos =>
      let st := count_with_images st in
      let folder_name := strftime "%Y%m%d_%H%M%S" (created_at tweet) in
      let tweet_folder := truediv output_path folder_name in
      match on_disk (EvMkdir tweet_folder)
              (fun fs => match mkdir_exist_ok tweet_folder fs with
                         | Ok fs' => Ok (tt, fs')
                         | Raise e => Raise e
                         end) st with
      | (Raise e, st) => (Raised e, st)
      | (Ok _, st) =>
          match download_photos tweet_folder photos [] st with
          | (Normal image_urls, st) =>
              match on_disk (EvSaveTweet tweet tweet_folder username image_urls)
                      (fun fs =>
                         match save_tweet_content_v2 tweet tweet_folder username
                                 (Some image_urls) fs with
                         | Ok fs' => Ok (tt, fs')
                         | Raise e => Raise e
                         end) st with
              | (Raise e, st) => (Raised e, st)
              | (Ok _, st) => (Normal tt, st)
              end
          | (Return, st) => (Return, st)
          | (Raised e, st) => (Raised e, st)
          end
      end
  end.

Fixpoint process_tweets (output_path : Path) (username : string)
    (media_dict : gmap string Media) (tweets : list Tweet) (st : @State W)
    : Flow unit * @State W :=
  match tweets with
  | [] => (Normal tt, st)
  | tweet :: rest =>
      match process_tweet output_path username media_dict tweet st with
      | (Normal _, st) => process_tweets output_path username media_dict rest st
      | stop => stop
      end
  end.

(** [while tweets_processed < max_tweets: ...], unrolled at most [fuel]
    times. *)
Fixpoint walk (fuel : nat) (user_id : Z) (output_path : Path) (username : string)
    (start_date : option string) (pagination_token : option string) (st : @State W)
    : option (Flow unit * @State W) :=
  match fuel with
  | 0 => None
  | S fuel =>
      if tweets_processed st <? max_tweets then
        let request_params := make_request_params user_id pagination_token start_date in
        let st := record (EvFetchPage request_params) st in
        let (response, w) := get_users_tweets services request_params (world st) in
        let st := set_world w st in
        match response with
        | Raise e => Some (Raised e, st)
        | Ok response =>
            match data response with
            | None | Some [] => Some (Normal tt, st)                 (* break *)
            | Some ((_ :: _) as tweets) =>
                let media_dict := build_media_dict response in
                match process_tweets output_path username media_dict tweets st with
                | (Normal _, st) =>
                    match meta response !! "next_token" with
                    | Some next_token =>
                        if tweets_processed st <? max_tweets
                        then walk fuel user_id output_path username start_date
                                  (Some next_token) st
                        else Some (Normal tt, st)                    (* break *)
                    | None => Some (Normal tt, st)                   (* break *)
                    end
                | stop => Some stop
                end
            end
        end
      else Some (Normal tt, st)
  end.

Definition get_tweets_with_images (bearer_token : option string) (username : string)
    (output_dir : string) (start_date : option string) (w : W) (disk : FS)
    : Ending * @State W :=
  let st := initial_state w disk in
  let missing := match bearer_token with          (* [not bearer_token] *)
                 | None => true
                 | Some token => String.eqb token EmptyString
                 end in
  if missing then (MissingCredentials, st)
  else
    let output_path := Path_of output_dir in
    match on_disk (EvMkdir output_path)
            (fun fs => match mkdir_exist_ok output_path fs with
                       | Ok fs' => Ok (tt, fs')
                       | Raise e => Raise e
                       end) st with
    | (Raise e, st) => (Uncaught e, st)
    | (Ok _, st) =>
        let st := record (EvGetUser username) st in
        let (user, w) := get_user services username (world st) in
        let st := set_world w st in
        match user with
        | Raise e => (handler e, st)
        | Ok None => (UserNotFound, st)
        | Ok (Some user_id) =>
            match walk (S max_tweets) user_id output_path username start_date None st with
            | None => (OutOfFuel, st)
            | Some (Normal _, st) => (Done, st)
            | Some (Return, st) => (DownloadFailed, st)
            | Some (Raised e, st) => (handler e, st)
            end
        end
    end.

Definition main (bearer_token : option string) (argv : list string) (w : W) (disk : FS)
    : MainResult W :=
  if length argv <? 2 then SystemExit 1
  else
    let username := nth 1 argv EmptyString in
    let output_dir := if 2 <? length argv then nth 2 argv EmptyString else "downloads" in
    let start_date := if 3 <? length argv then Some (nth 3 argv EmptyString) else None in
    let (ending, st) :=
      get_tweets_with_images bearer_token username output_dir start_date w disk in
    Returned ending st.

End LegacyRun.

End Legacy.

(* ===================================================================== *)
(** * Notions used to state further properties of the run *)
(* ===================================================================== *)

(** The page requests of a trace, in order. *)
Definition fetch_requests (evs : list Event) : list RequestParams :=
  flat_map (fun ev => match ev with EvFetchPage request_params => [request_params] | _ => [] end)
           evs.

(** A sequence of page requests that starts with [token] and in which every
    later request carries the [next_token] of the page the request before
    it was answered with. *)
Fixpoint fetch_chain {W : Type} (services : Services W) (user_id : Z)
    (start_date : option string) (token : option string)
    (requests : list RequestParams) : Prop :=
  match requests with
  | [] => True
  | request_params :: rest =>
      request_params = make_request_params user_id token start_date /\
      (rest = [] \/
       exists w response w' next_token,
         get_users_tweets services request_params w = (Ok response, w') /\
         meta response !! "next_token" = Some next_token /\
         fetch_chain services user_id start_date (Some next_token) rest)
  end.

(** The path an action may create or modify. *)
Definition touched (ev : Event) : option Path :=
  match ev with
  | EvMkdir folder => Some folder
  | EvDownload _ save_path _ _ => Some save_path
  | EvSaveTweet _ folder_path _ _ => Some (truediv folder_path "tweet.txt")
  | EvGetUser _ | EvFetchPage _ | EvTweet _ => None
  end.

(** The forms the actions of a run take, for a given output directory and
    user name. *)
Definition run_action (output_path : Path) (username : string) (ev : Event) : Prop :=
  match ev with
  | EvGetUser u => u = username
  | EvFetchPage _ | EvTweet _ => True
  | EvMkdir folder =>
      folder = output_path \/ exists tweet, folder = folder_of output_path tweet
  | EvDownload image_url save_path _ _ =>
      exists tweet,
        save_path = truediv (folder_of output_path tweet) (extract_filename_from_url image_url)
  | EvSaveTweet tweet folder_path user _ =>
      folder_path = folder_of output_path tweet /\ user = username
  end.

(** Whether a node is a directory. *)
Definition is_dir (node : Node) : bool :=
  match node with
  | Dir => true
  | File _ => false
  end.

(** [p] is the output directory, or lies at most two segments below it. *)
Definition inside (output_path p : Path) : Prop :=
  anchored p = anchored output_path /\
  exists extra, parts p = parts output_path ++ extra /\ length extra <= 2.

(** What a block of the run adds to a state: actions of the forms above,
    one counting action per post processed, and no more posts with images
    than posts processed. *)
Definition block_adds {W : Type} (output_path : Path) (username : string)
    (st : @State W) (evs : list Event) (st' : @State W) : Prop :=
  trace st' = trace st ++ evs /\
  Forall (run_action output_path username) evs /\
  tweets_processed st' = tweets_processed st + length (tweet_events evs) /\
  tweets_with_images st <= tweets_with_images st' /\
  tweets_with_images st' <= tweets_with_images st + length (tweet_events evs).

(* ===================================================================== *)
(** * More sample timelines *)
(* ===================================================================== *)

Module Timelines.

(** An endless timeline of full pages: every request is answered by 100
    posts without attachments and a [next_token]. *)
Definition full_page : Response :=
  Samples.page (repeat Samples.plain_post 100) [] (Some "more").

Definition full_pages_services : Services unit :=
  {| get_user := fun _ w => (Ok (Some 7%Z), w);
     get_users_tweets := fun _ w => (Ok full_page, w);
     requests_get := fun _ w => (RequestFailed, w) |}.

End Timelines.

(* ===================================================================== *)
(** * Proof tactics *)
(* ===================================================================== *)

(** [String.append] does not unfold under [simpl]: its two equations are
    rewritten explicitly. *)
Ltac str_simpl :=
  repeat (change (String.append EmptyString ?t) with t in * ||
          change (String.append (String ?a ?s) ?t) with (String a (String.append s t)) in * );
  simpl in *.

(* ===================================================================== *)
(** * Facts about the string primitives *)
(* ===================================================================== *)

Section StringFacts.

Import PyStr.

Lemma append_nil (t : string) : EmptyString +:+ t = t.
Proof. reflexivity. Qed.

Lemma append_cons (a : ascii) (s t : string) : String a s +:+ t = String a (s +:+ t).
Proof. reflexivity. Qed.

Lemma append_empty_r (s : string) : s +:+ EmptyString = s.
Proof. induction s as [|a s IH]; str_simpl; [reflexivity | congruence]. Qed.

Lemma append_assoc (a b c : string) : (a +:+ b) +:+ c = a +:+ (b +:+ c).
Proof. induction a as [|x a IH]; str_simpl; [reflexivity | congruence]. Qed.

Lemma length_append (a b : string) :
  String.length (a +:+ b) = String.length a + String.length b.
Proof. induction a as [|x a IH]; str_simpl; [reflexivity | congruence]. Qed.

Lemma append_inv_tail (a b c : string) : a +:+ c = b +:+ c -> a = b.
Proof.
  revert b. induction a as [|x a IH]; intros [|y b] H; str_simpl.
  - reflexivity.
  - apply (f_equal String.length) in H. simpl in H. rewrite length_append in H. lia.
  - apply (f_equal String.length) in H. simpl in H. rewrite length_append in H. lia.
  - injection H as -> H. f_equal. now apply IH.
Qed.

Lemma contains_app (c : ascii) (a b : string) :
  contains c (a +:+ b) = contains c a || contains c b.
Proof.
  induction a as [|x a IH]; str_simpl; [reflexivity|].
  rewrite IH. now rewrite orb_assoc.
Qed.

(** *** Slices *)

Lemma substring_prefix_app (p q : string) : substring 0 (String.length p) (p +:+ q) = p.
Proof.
  induction p as [|x p IH]; str_simpl.
  - now destruct q.
  - now rewrite IH.
Qed.

Lemma substring_whole (s : string) : substring 0 (String.length s) s = s.
Proof. induction s as [|x s IH]; simpl; [reflexivity | now rewrite IH]. Qed.

Lemma substring_suffix_app (p q : string) :
  substring (String.length p) (String.length q) (p +:+ q) = q.
Proof.
  induction p as [|x p IH]; str_simpl.
  - apply substring_whole.
  - exact IH.
Qed.

Lemma substring_split (n : nat) (s : string) :
  n <= String.length s ->
  s = substring 0 n s +:+ substring n (String.length s - n) s.
Proof.
  revert n. induction s as [|x s IH]; intros [|n] Hn; simpl in *.
  - reflexivity.
  - lia.
  - str_simpl. now rewrite substring_whole.
  - str_simpl. f_equal. apply IH. lia.
Qed.

Lemma drop_tail_app (p suffix : string) :
  drop_tail (String.length suffix) (p +:+ suffix) = p.
Proof.
  unfold drop_tail. rewrite length_append.
  replace (String.length p + String.length suffix - String.length suffix)
    with (String.length p) by lia.
  apply substring_prefix_app.
Qed.

Lemma endswith_app (p suffix : string) : endswith (p +:+ suffix) suffix = true.
Proof.
  unfold endswith. rewrite length_append.
  replace (String.length p + String.length suffix - String.length suffix)
    with (String.length p) by lia.
  rewrite substring_suffix_app, String.eqb_refl, andb_true_r.
  apply Nat.leb_le. lia.
Qed.

Lemma endswith_inv (s suffix : string) :
  endswith s suffix = true -> s = drop_tail (String.length suffix) s +:+ suffix.
Proof.
  unfold endswith, drop_tail. intros H.
  apply andb_true_iff in H as [Hlen Heq].
  apply Nat.leb_le in Hlen. apply String.eqb_eq in Heq.
  pose proof (substring_split (String.length s - String.length suffix) s) as Hs.
  replace (String.length s - (String.length s - String.length suffix))
    with (String.length suffix) in Hs by lia.
  rewrite Heq in Hs. apply Hs. lia.
Qed.

Lemma endswith_iff (s suffix : string) :
  endswith s suffix = true <-> exists p, s = p +:+ suffix.
Proof.
  split.
  - intros H. eexists. now apply endswith_inv.
  - intros [p ->]. apply endswith_app.
Qed.

(** *** Splitting *)

Lemma split_not_nil (sep : ascii) (s : string) : split sep s <> [].
Proof.
  destruct s as [|a s]; simpl; [discriminate|].
  destruct (Ascii.eqb a sep); [discriminate|].
  destruct (split sep s); discriminate.
Qed.

Lemma first_split (sep : ascii) (s : string) :
  first (split sep s) = before_first sep s.
Proof.
  induction s as [|a s IH]; simpl; [reflexivity|].
  destruct (Ascii.eqb a sep); [reflexivity|].
  destruct (split sep s) as [|piece pieces] eqn:E.
  - now destruct (split_not_nil sep s).
  - simpl in *. now rewrite IH.
Qed.

Lemma split_without_sep (sep : ascii) (s : string) :
  contains sep s = false -> split sep s = [s].
Proof.
  induction s as [|a s IH]; simpl; [reflexivity|].
  intros H. apply orb_false_iff in H as [Ha Hs].
  rewrite Ha, (IH Hs). reflexivity.
Qed.

Lemma split_with_sep (sep : ascii) (s : string) :
  contains sep s = true -> exists piece other pieces, split sep s = piece :: other :: pieces.
Proof.
  induction s as [|a s IH]; simpl; [discriminate|].
  destruct (Ascii.eqb a sep) eqn:Ha; simpl.
  - intros _. destruct (split sep s) as [|x l] eqn:E.
    + now destruct (split_not_nil sep s).
    + eauto.
  - intros H. destruct (IH H) as (piece & other & pieces & ->). eauto.
Qed.

Lemma after_last_cons (c a : ascii) (s : string) :
  after_last c (String a s) =
  if contains c (String a s) then after_last c s else String a s.
Proof. reflexivity. Qed.

Lemma final_split (sep : ascii) (s : string) :
  final (split sep s) = after_last sep s.
Proof.
  unfold final. induction s as [|a s IH]; [reflexivity|].
  rewrite after_last_cons.
  simpl. destruct (Ascii.eqb a sep) eqn:Ha; simpl.
  - destruct (split sep s) as [|x l] eqn:E.
    + now destruct (split_not_nil sep s).
    + exact IH.
  - destruct (contains sep s) eqn:Hs.
    + destruct (split_with_sep sep s Hs) as (piece & other & pieces & E).
      rewrite E in *. exact IH.
    + rewrite (split_without_sep sep s Hs). reflexivity.
Qed.

Lemma before_first_clean (c : ascii) (s : string) :
  contains c (before_first c s) = false.
Proof.
  induction s as [|a s IH]; simpl; [reflexivity|].
  destruct (Ascii.eqb a c) eqn:Ha; simpl; [reflexivity|].
  now rewrite Ha, IH.
Qed.

(** The text before the first [c] is the longest prefix without [c]. *)
Lemma before_first_prefix (c : ascii) (s : string) :
  exists rest, s = before_first c s +:+ rest /\
               (rest = EmptyString \/ startswith_char c rest = true).
Proof.
  induction s as [|a s (rest & IH & Hrest)]; simpl.
  - exists EmptyString. auto.
  - destruct (Ascii.eqb a c) eqn:Ha.
    + exists (String a s). simpl. auto.
    + exists rest. str_simpl. split; [now rewrite <- IH | exact Hrest].
Qed.

Lemma before_first_id (c : ascii) (s : string) :
  contains c s = false -> before_first c s = s.
Proof.
  induction s as [|a s IH]; simpl; [reflexivity|].
  intros H. apply orb_false_iff in H as [Ha Hs]. now rewrite Ha, IH.
Qed.

Lemma before_first_app (c : ascii) (a b : string) :
  contains c a = false -> before_first c (a +:+ String c b) = a.
Proof.
  induction a as [|x a IH]; str_simpl.
  - now rewrite Ascii.eqb_refl.
  - intros H. apply orb_false_iff in H as [Hx Ha]. now rewrite Hx, IH.
Qed.

Lemma after_last_id (c : ascii) (s : string) :
  contains c s = false -> after_last c s = s.
Proof. destruct s as [|a s]; [reflexivity|]. intros H. rewrite after_last_cons. now rewrite H. Qed.

Lemma after_last_clean (c : ascii) (s : string) :
  contains c (after_last c s) = false.
Proof.
  induction s as [|a s IH]; [reflexivity|].
  rewrite after_last_cons.
  destruct (contains c (String a s)) eqn:E; [exact IH | exact E].
Qed.

Lemma after_last_app (c : ascii) (a b : string) :
  contains c b = false -> after_last c (a +:+ b) = after_last c a +:+ b.
Proof.
  intros Hb. induction a as [|x a IH].
  - now apply after_last_id.
  - rewrite append_cons, !after_last_cons.
    replace (contains c (String x (a +:+ b))) with (contains c (String x a)).
    + destruct (contains c (String x a)); [exact IH | reflexivity].
    + simpl. now rewrite contains_app, Hb, orb_false_r.
Qed.

(** The text after the last [c] is a suffix of the string, preceded by
    nothing or by a prefix that ends with [c]. *)
Lemma after_last_suffix (c : ascii) (s : string) :
  exists pre, s = pre +:+ after_last c s /\
              (pre = EmptyString \/ endswith pre (String c EmptyString) = true).
Proof.
  induction s as [|a s (pre & IH & Hpre)].
  - exists EmptyString. auto.
  - rewrite after_last_cons.
    destruct (contains c (String a s)) eqn:E.
    + exists (String a pre). split; [rewrite append_cons; now rewrite <- IH|].
      right. destruct Hpre as [-> | Hpre].
      * rewrite append_nil in IH.
        assert (Hs : contains c s = false) by (rewrite IH; apply after_last_clean).
        simpl in E. rewrite Hs, orb_false_r in E.
        apply Ascii.eqb_eq in E as ->.
        apply (endswith_app EmptyString (String c EmptyString)).
      * apply endswith_iff in Hpre as [q ->].
        rewrite <- append_cons. apply endswith_app.
    + exists EmptyString. auto.
Qed.

End StringFacts.

(* ===================================================================== *)
(** * downloader.py: the URL-cleaning rules *)
(* ===================================================================== *)

Section UrlCleaning.

Import PyStr.

Lemma after_last_sep (c : ascii) (p q : string) :
  after_last c (p +:+ String c q) = after_last c q.
Proof.
  induction p as [|x p IH].
  - rewrite append_nil, after_last_cons. simpl. now rewrite Ascii.eqb_refl.
  - rewrite append_cons, after_last_cons. simpl.
    rewrite contains_app. simpl. rewrite Ascii.eqb_refl.
    now rewrite orb_true_r, orb_true_r.
Qed.

Lemma endswith_after_last (c : ascii) (u suffix : string) :
  contains c suffix = false ->
  endswith (after_last c u) suffix = endswith u suffix.
Proof.
  intros Hc.
  destruct (endswith u suffix) eqn:Hu.
  - apply endswith_iff in Hu as [q ->].
    rewrite after_last_app by exact Hc. apply endswith_app.
  - destruct (endswith (after_last c u) suffix) eqn:Ha; [|reflexivity].
    apply endswith_iff in Ha as [p Hp].
    destruct (after_last_suffix c u) as (pre & Hpre & _).
    rewrite Hp, <- append_assoc in Hpre.
    rewrite Hpre, endswith_app in Hu. discriminate.
Qed.

(** The loop of [download_image] finds the first suffix the URL ends with
    and cuts it. *)
Lemma strip_size_suffix_find (suffixes : list string) (u : string) :
  strip_size_suffix suffixes u =
  match List.find (endswith u) suffixes with
  | Some suffix => drop_tail (String.length suffix) u
  | None => u
  end.
Proof.
  induction suffixes as [|suffix rest IH]; simpl; [reflexivity|].
  destruct (endswith u suffix); [reflexivity | exact IH].
Qed.

(** The loop of [extract_filename_from_url] finds the first suffix the
    segment ends with and cuts it if a dot remains. *)
Lemma clean_size_suffix_find (suffixes : list string) (f : string) :
  clean_size_suffix suffixes f =
  match List.find (endswith f) suffixes with
  | Some suffix =>
      if contains "." (drop_tail (String.length suffix) f)
      then drop_tail (String.length suffix) f else f
  | None => f
  end.
Proof.
  induction suffixes as [|suffix rest IH]; simpl; [reflexivity|].
  destruct (endswith f suffix); [reflexivity | exact IH].
Qed.

(** The result of either loop is the input, or the input without one of
    the suffixes. *)
Lemma strip_size_suffix_cases (suffixes : list string) (u : string) :
  (strip_size_suffix suffixes u = u /\
   forall suffix, In suffix suffixes -> endswith u suffix = false) \/
  (exists suffix, In suffix suffixes /\ u = strip_size_suffix suffixes u +:+ suffix).
Proof.
  induction suffixes as [|suffix rest IH]; simpl.
  - left. split; [reflexivity | intros ? []].
  - destruct (endswith u suffix) eqn:E.
    + right. exists suffix. split; [now left | now apply endswith_inv].
    + destruct IH as [[Heq Hno] | (s & Hin & Hs)].
      * left. split; [exact Heq|]. intros s [<- | Hin]; [exact E | now apply Hno].
      * right. exists s. split; [now right | exact Hs].
Qed.

Lemma clean_size_suffix_cases (suffixes : list string) (f : string) :
  clean_size_suffix suffixes f = f \/
  (exists suffix, In suffix suffixes /\ f = clean_size_suffix suffixes f +:+ suffix).
Proof.
  induction suffixes as [|suffix rest IH]; simpl.
  - now left.
  - destruct (endswith f suffix) eqn:E.
    + destruct (contains "." (drop_tail (String.length suffix) f)); [|now left].
      right. exists suffix. split; [now left | now apply endswith_inv].
    + destruct IH as [Heq | (s & Hin & Hs)]; [now left|].
      right. exists s. split; [now right | exact Hs].
Qed.

Lemma clean_size_suffix_keeps_clean (c : ascii) (suffixes : list string) (f : string) :
  contains c f = false -> contains c (clean_size_suffix suffixes f) = false.
Proof.
  intros Hf. destruct (clean_size_suffix_cases suffixes f) as [-> | (s & _ & Hs)].
  - exact Hf.
  - rewrite Hs, contains_app in Hf. now apply orb_false_iff in Hf as [H _].
Qed.

Lemma original_url_full_quality (image_url : string) :
  original_url image_url = full_quality_url image_url.
Proof.
  unfold original_url, full_quality_url, reserved_suffix_of.
  now rewrite first_split, strip_size_suffix_find.
Qed.

Lemma extract_filename_normalize (url : string) :
  extract_filename_from_url url = normalize_filename url.
Proof.
  unfold extract_filename_from_url, normalize_filename, reserved_suffix_of.
  now rewrite first_split, final_split, clean_size_suffix_find.
Qed.

Lemma extract_filename_without (c : ascii) (url : string) :
  c = "?"%char \/ c = "/"%char ->
  contains c (extract_filename_from_url url) = false.
Proof.
  intros Hc. unfold extract_filename_from_url.
  rewrite first_split, final_split.
  apply clean_size_suffix_keeps_clean.
  destruct Hc as [-> | ->].
  - destruct (after_last_suffix "/" (before_first "?" url)) as (pre & Hpre & _).
    pose proof (before_first_clean "?" url) as Hq.
    rewrite Hpre, contains_app in Hq. now apply orb_false_iff in Hq as [_ H].
  - apply after_last_clean.
Qed.

(** Both loops agree once the segment keeps a dot. *)
Lemma clean_strip_agree (suffixes : list string) (u : string) :
  (forall suffix, In suffix suffixes ->
     contains "/" suffix = false /\ contains "." suffix = false) ->
  contains "." (clean_size_suffix suffixes (after_last "/" u)) = true ->
  clean_size_suffix suffixes (after_last "/" u) =
  after_last "/" (strip_size_suffix suffixes u).
Proof.
  induction suffixes as [|suffix rest IH]; intros Hsuf Hdot; simpl in *; [reflexivity|].
  destruct (Hsuf suffix (or_introl eq_refl)) as [Hslash Hnodot].
  rewrite endswith_after_last in * by exact Hslash.
  destruct (endswith u suffix) eqn:E.
  - apply endswith_inv in E.
    set (q := drop_tail (String.length suffix) u) in *.
    assert (Hf : after_last "/" u = after_last "/" q +:+ suffix).
    { rewrite E at 1. now apply after_last_app. }
    rewrite Hf, drop_tail_app in *.
    destruct (contains "." (after_last "/" q)) eqn:Hq; [reflexivity|].
    rewrite contains_app, Hq, Hnodot in Hdot. discriminate.
  - apply IH; [|exact Hdot]. intros s Hs. apply Hsuf. now right.
Qed.

Lemma size_suffixes_plain (suffix : string) :
  In suffix size_suffixes -> contains "/" suffix = false /\ contains "." suffix = false.
Proof.
  unfold size_suffixes. simpl.
  intros [<- | [<- | [<- | [<- | []]]]]; split; reflexivity.
Qed.

End UrlCleaning.

(** C3. [extract_filename_from_url] strips everything from the first [?],
    takes the text after the last [/], and removes a trailing size suffix
    (first match in the order [:large], [:medium], [:small], [:thumb]) only
    when the remaining text still contains a dot. Consequently the result
    never contains [?]; a URL ending in [/foo.jpg:large?x=1] yields
    [foo.jpg]; a URL ending in [/foo:large] yields [foo:large] unchanged. *)
Theorem extract_filename_from_url_normalizes :
  forall url : string,
    extract_filename_from_url url = normalize_filename url /\
    PyStr.contains "?" (extract_filename_from_url url) = false /\
    (forall path_prefix : string,
        PyStr.contains "?" path_prefix = false ->
        extract_filename_from_url (path_prefix +:+ "/foo.jpg:large?x=1") = "foo.jpg") /\
    (forall path_prefix : string,
        PyStr.contains "?" path_prefix = false ->
        extract_filename_from_url (path_prefix +:+ "/foo:large") = "foo:large").
Proof.
  intros url. split; [apply extract_filename_normalize|].
  split; [apply extract_filename_without; now left|].
  split; intros p Hp; unfold extract_filename_from_url;
    rewrite first_split, final_split.
  - change (p +:+ "/foo.jpg:large?x=1") with (p +:+ ("/foo.jpg:large" +:+ String "?" "x=1")).
    rewrite <- append_assoc, before_first_app.
    + now rewrite after_last_sep.
    + now rewrite contains_app, Hp.
  - rewrite before_first_id by (now rewrite contains_app, Hp).
    now rewrite after_last_sep.
Qed.

Lemma extract_filename_from_url_normalizes_witness :
  extract_filename_from_url ("https://pbs.twimg.com/media" +:+ "/foo.jpg:large?x=1")
    = "foo.jpg".
Proof.
  apply (proj1 (proj2 (proj2
    (extract_filename_from_url_normalizes "https://pbs.twimg.com/media/foo.jpg")))).
  reflexivity.
Defined.

(** C6. The URL [download_image] requests is the input with everything from
    the first [?] removed and then at most one trailing size suffix removed
    (the first of [:large], [:medium], [:small], [:thumb] it ends with);
    [https://pbs.twimg.com/media/ABC.jpg:small] derives to
    [https://pbs.twimg.com/media/ABC.jpg]; a URL without such a suffix
    derives to itself minus its query string; and the outcome of
    [download_image] depends on the image host only through its answer for
    the derived URL. *)
Theorem download_image_requests_full_quality_url :
  forall image_url : string,
    original_url image_url = full_quality_url image_url /\
    (exists removed : string,
        (removed = EmptyString \/ In removed size_suffixes) /\
        PyStr.before_first "?" image_url = original_url image_url +:+ removed) /\
    ((forall suffix, In suffix size_suffixes ->
         PyStr.endswith (PyStr.before_first "?" image_url) suffix = false) ->
     original_url image_url = PyStr.before_first "?" image_url) /\
    original_url "https://pbs.twimg.com/media/ABC.jpg:small"
      = "https://pbs.twimg.com/media/ABC.jpg" /\
    (forall (W : Type) (services services' : Services W) (save_path : Path) (st : @State W),
        requests_get services (original_url image_url) (world st)
          = requests_get services' (original_url image_url) (world st) ->
        download_image services image_url save_path st
          = download_image services' image_url save_path st).
Proof.
  intros image_url. split; [apply original_url_full_quality|].
  assert (Hhost : forall (W : Type) (services services' : Services W) (save_path : Path)
                         (st : @State W),
             requests_get services (original_url image_url) (world st)
               = requests_get services' (original_url image_url) (world st) ->
             download_image services image_url save_path st
               = download_image services' image_url save_path st).
  { intros W services services' save_path st Hsame. unfold download_image.
    now rewrite Hsame. }
  unfold original_url in *. rewrite first_split in *.
  destruct (strip_size_suffix_cases size_suffixes (PyStr.before_first "?" image_url))
    as [[Heq Hno] | (suffix & Hin & Hs)].
  - split; [exists EmptyString; split; [now left | now rewrite Heq, append_empty_r]|].
    split; [intros _; exact Heq|]. split; [reflexivity | exact Hhost].
  - split; [exists suffix; split; [now right | exact Hs]|].
    split; [|split; [reflexivity | exact Hhost]].
    intros Hno. rewrite strip_size_suffix_find.
    destruct (find _ size_suffixes) as [s|] eqn:Hfind; [|reflexivity].
    apply find_some in Hfind as [Hin' Hends]. rewrite (Hno s Hin') in Hends. discriminate.
Qed.

Lemma download_image_requests_full_quality_url_witness :
  original_url "https://pbs.twimg.com/media/ABC.jpg?name=orig"
    = "https://pbs.twimg.com/media/ABC.jpg".
Proof.
  refine (proj1 (proj2 (proj2
    (download_image_requests_full_quality_url
       "https://pbs.twimg.com/media/ABC.jpg?name=orig"))) _).
  intros suffix Hin. simpl in Hin.
  destruct Hin as [<- | [<- | [<- | [<- | []]]]]; reflexivity.
Defined.

(** C7. The two copies of the URL-cleaning rule agree: whenever the file
    name returned by [extract_filename_from_url] contains a dot, it is the
    text after the last [/] of the URL [download_image] requests. *)
Theorem url_cleaning_rules_agree :
  forall url : string,
    PyStr.contains "." (extract_filename_from_url url) = true ->
    extract_filename_from_url url = PyStr.final (PyStr.split "/" (original_url url)).
Proof.
  intros url Hdot. unfold extract_filename_from_url, original_url in *.
  rewrite first_split, final_split in *. rewrite final_split.
  apply clean_strip_agree; [apply size_suffixes_plain | exact Hdot].
Qed.

Lemma url_cleaning_rules_agree_witness :
  extract_filename_from_url "https://pbs.twimg.com/media/foo.jpg:large?x=1"
    = PyStr.final (PyStr.split "/"
        (original_url "https://pbs.twimg.com/media/foo.jpg:large?x=1")).
Proof.
  apply (url_cleaning_rules_agree "https://pbs.twimg.com/media/foo.jpg:large?x=1").
  reflexivity.
Defined.

(* ===================================================================== *)
(** * Destination paths *)
(* ===================================================================== *)

Section Destinations.

Import PyStr.

Lemma startswith_char_contains (c : ascii) (s : string) :
  contains c s = false -> startswith_char c s = false.
Proof.
  destruct s as [|a s]; simpl; [reflexivity|].
  intros H. now apply orb_false_iff in H as [H _].
Qed.

(** Joining a name without separator appends it as one segment, unless it
    is empty or ["."], in which case the path is unchanged. *)
Lemma truediv_plain (folder : Path) (name : string) :
  contains "/" name = false ->
  truediv folder name =
  {| anchored := anchored folder;
     parts := parts folder ++ (if kept_segment name then [name] else []) |}.
Proof.
  intros H. unfold truediv, path_segments.
  rewrite (startswith_char_contains _ _ H), (split_without_sep _ _ H). simpl.
  now destruct (kept_segment name).
Qed.

Lemma kept_segment_false (name : string) :
  kept_segment name = false <-> name = EmptyString \/ name = ".".
Proof.
  unfold kept_segment. rewrite andb_false_iff, !negb_false_iff, !String.eqb_eq.
  reflexivity.
Qed.

Lemma path_same_parts (folder : Path) (extra : list string) :
  {| anchored := anchored folder; parts := parts folder ++ extra |} = folder -> extra = [].
Proof.
  destruct folder as [a ps]. simpl. intros [= H].
  apply (f_equal (@length string)) in H. rewrite length_app in H.
  destruct extra; [reflexivity | simpl in H; lia].
Qed.

End Destinations.

(* ===================================================================== *)
(** * The file system and utils.py *)
(* ===================================================================== *)

Section DiskFacts.

Implicit Types (fs : FS) (p q : Path).

(** *** What a path denotes *)

Lemma path_eta p : {| anchored := anchored p; parts := parts p |} = p.
Proof. now destruct p. Qed.

Lemma path_cases p : parts p = [] \/ exists above name, parts p = above ++ [name].
Proof.
  destruct (parts p) as [|x l] using rev_ind; [now left|].
  right. now exists l, x.
Qed.

Lemma node_at_root fs p : parts p = [] -> node_at fs p = Some Dir.
Proof. intros H. unfold node_at. now rewrite H. Qed.

(** A path whose last segment is a name is looked up as it is written. *)
Lemma node_at_named fs p (above : list string) (name : string) :
  parts p = above ++ [name] -> name <> ".." -> node_at fs p = fs !! p.
Proof.
  intros H Hname. unfold node_at. rewrite H, rev_app_distr. simpl.
  destruct (String.eqb_spec name ".."); [contradiction|].
  now rewrite rev_involutive, <- H, path_eta.
Qed.

(** A path that ends with [..] denotes a directory, provided the path
    before the [..] does. *)
Lemma node_at_dotdot fs p (above : list string) :
  parts p = above ++ [".."] ->
  node_at fs p = match node_at fs (parent p) with
                 | Some Dir => Some Dir
                 | Some (File _) | None => None
                 end.
Proof.
  intros H. unfold node_at, parent. simpl. rewrite H, removelast_last, rev_app_distr.
  reflexivity.
Qed.

Lemma node_at_file fs p (c : string) :
  node_at fs p = Some (File c) -> fs !! p = Some (File c).
Proof.
  destruct (path_cases p) as [H | (above & name & H)].
  - rewrite (node_at_root fs p H). discriminate.
  - destruct (String.eqb_spec name "..") as [->|Hname].
    + rewrite (node_at_dotdot fs p above H).
      destruct (node_at fs (parent p)) as [[|c']|]; discriminate.
    + now rewrite (node_at_named fs p above name H Hname).
Qed.

(** A path that denotes nothing in an existing directory is a free name:
    an entry stored under it is what the path denotes afterwards. *)
Lemma node_at_new fs p :
  node_at fs p = None -> node_at fs (parent p) = Some Dir ->
  fs !! p = None /\ forall node, node_at (<[p := node]> fs) p = Some node.
Proof.
  intros Hp Hparent.
  destruct (path_cases p) as [H | (above & name & H)].
  - rewrite (node_at_root fs p H) in Hp. discriminate.
  - destruct (String.eqb_spec name "..") as [->|Hname].
    + rewrite (node_at_dotdot fs p above H), Hparent in Hp. discriminate.
    + rewrite (node_at_named fs p above name H Hname) in Hp. split; [exact Hp|].
      intros node. rewrite (node_at_named _ p above name H Hname).
      apply lookup_insert_eq.
Qed.

(** What a path denotes depends only on entries that are not longer than
    the path. *)
Lemma resolve_insert_shorter fs q (node : Node) (is_anchored : bool)
    (reversed : list string) :
  length reversed < length (parts q) ->
  resolve (<[q := node]> fs) is_anchored reversed = resolve fs is_anchored reversed.
Proof.
  induction reversed as [|segment above IH]; intros Hlen; simpl; [reflexivity|].
  simpl in Hlen. rewrite IH by lia.
  destruct (String.eqb segment ".."); [reflexivity|].
  apply lookup_insert_ne. intros Heq.
  apply (f_equal (fun r => length (parts r))) in Heq. simpl in Heq.
  rewrite length_app, length_rev in Heq. simpl in Heq. lia.
Qed.

Lemma node_at_insert_shorter fs p q (node : Node) :
  length (parts p) < length (parts q) ->
  node_at (<[q := node]> fs) p = node_at fs p.
Proof.
  intros Hlen. unfold node_at. apply resolve_insert_shorter. now rewrite length_rev.
Qed.

(** Directories that stay directories keep every path that denotes a
    directory doing so. *)
Lemma node_at_directory_kept fs fs' p :
  (forall q, fs !! q = Some Dir -> fs' !! q = Some Dir) ->
  node_at fs p = Some Dir -> node_at fs' p = Some Dir.
Proof.
  intros Hkept. unfold node_at. generalize (anchored p) as a, (rev (parts p)) as reversed.
  intros a reversed. induction reversed as [|segment above IH]; simpl; [reflexivity|].
  destruct (String.eqb segment "..").
  - destruct (resolve fs a above) as [[|c]|]; try discriminate.
    now rewrite IH.
  - apply Hkept.
Qed.

(** *** Opening, writing and creating *)

Lemma open_for_write_ok p fs fs' :
  open_for_write p fs = Ok fs' -> fs' = <[p := File EmptyString]> fs.
Proof.
  unfold open_for_write. intros H.
  destruct (node_at fs p) as [[|c]|]; try discriminate;
    destruct (node_at fs (parent p)) as [[|c']|]; congruence.
Qed.

Lemma write_insert p (c d : string) fs :
  write p d (<[p := File c]> fs) = <[p := File (c +:+ d)]> fs.
Proof. unfold write. rewrite lookup_insert_eq. apply insert_insert_eq. Qed.

Lemma write_other p q (d : string) fs : q <> p -> write p d fs !! q = fs !! q.
Proof.
  intros Hq. unfold write. destruct (fs !! p) as [[|c]|]; try reflexivity.
  now rewrite lookup_insert_ne.
Qed.

Lemma write_chunks_insert p (chunks : list string) (c : string) fs :
  fold_left (fun fs chunk => write p chunk fs) chunks (<[p := File c]> fs) =
  <[p := File (c +:+ String.concat EmptyString chunks)]> fs.
Proof.
  revert c. induction chunks as [|chunk rest IH]; intros c; simpl.
  - now rewrite append_empty_r.
  - rewrite write_insert, IH. destruct rest; simpl.
    + now rewrite append_empty_r.
    + now rewrite append_assoc.
Qed.

(** What [store_response] leaves on disk: nothing new when the request or
    the opening fails, otherwise the chunks received, whether or not the
    body was complete. *)
Lemma store_response_disk (response : HttpResponse) p fs :
  snd (store_response response p fs) =
  match response with
  | RequestFailed => fs
  | Stream chunks _ =>
      match open_for_write p fs with
      | Ok _ => <[p := File (String.concat EmptyString chunks)]> fs
      | Raise _ => fs
      end
  end.
Proof.
  destruct response as [|chunks complete]; simpl; [reflexivity|].
  destruct (open_for_write p fs) as [fs'|e] eqn:E; simpl; [|reflexivity].
  apply open_for_write_ok in E as ->.
  now rewrite write_chunks_insert.
Qed.

(** A download touches at most its own destination. *)
Lemma store_response_other (response : HttpResponse) p q fs :
  q <> p -> snd (store_response response p fs) !! q = fs !! q.
Proof.
  intros Hq. rewrite store_response_disk.
  destruct response as [|chunks complete]; [reflexivity|].
  destruct (open_for_write p fs); [|reflexivity].
  now rewrite lookup_insert_ne.
Qed.

Lemma write_items_insert p (urls : list string) (k : nat) (c : string) fs :
  fold_left
    (fun fs '(idx, url) => write p ("  " +:+ str_nat idx +:+ ". " +:+ url +:+ nl) fs)
    (enumerate k urls) (<[p := File c]> fs) =
  <[p := File (c +:+ numbered_items k urls)]> fs.
Proof.
  revert k c. induction urls as [|u rest IH]; intros k c; simpl.
  - now rewrite append_empty_r.
  - rewrite write_insert, IH. unfold numbered_item.
    now rewrite !append_assoc.
Qed.

Lemma write_tweet_lines_insert p (tweet : Tweet) (username : string)
    (image_urls : option (list string)) fs :
  write_tweet_lines p tweet username image_urls (<[p := File EmptyString]> fs) =
  <[p := File (metadata_text tweet username (default [] image_urls))]> fs.
Proof.
  unfold write_tweet_lines, metadata_text, metadata_header.
  destruct image_urls as [[|u rest]|]; cbv beta iota zeta; simpl default;
    rewrite !write_insert.
  - now rewrite append_empty_r, !append_assoc.
  - rewrite write_items_insert. now rewrite !append_assoc.
  - now rewrite append_empty_r, !append_assoc.
Qed.

(** [save_tweet_content_v2] either raises while opening [tweet.txt] and
    leaves the disk as it was, or leaves in [tweet.txt] exactly the layout
    of the specification. *)
Lemma save_tweet_content_v2_disk (tweet : Tweet) (folder_path : Path) (username : string)
    (image_urls : option (list string)) fs fs' :
  save_tweet_content_v2 tweet folder_path username image_urls fs = Ok fs' ->
  fs' = <[truediv folder_path "tweet.txt" :=
            File (metadata_text tweet username (default [] image_urls))]> fs.
Proof.
  unfold save_tweet_content_v2.
  destruct (open_for_write _ fs) as [fs1|e] eqn:E; [|discriminate].
  intros [= <-]. apply open_for_write_ok in E as ->.
  apply write_tweet_lines_insert.
Qed.

Lemma mkdir_exist_ok_disk p fs fs' :
  mkdir_exist_ok p fs = Ok fs' ->
  node_at fs' p = Some Dir /\ (fs' = fs \/ (node_at fs p = None /\ fs' = <[p := Dir]> fs)).
Proof.
  unfold mkdir_exist_ok.
  destruct (node_at fs p) as [[|c]|] eqn:E; try discriminate.
  - intros [= <-]. auto.
  - destruct (node_at fs (parent p)) as [[|c]|] eqn:Eparent; try discriminate.
    intros [= <-]. split; [|auto].
    now apply node_at_new.
Qed.

(** A destination that denotes a directory cannot be opened for writing:
    whatever the host answers, nothing is stored and the download fails. *)
Lemma store_response_at_directory (response : HttpResponse) p fs :
  node_at fs p = Some Dir -> store_response response p fs = (false, fs).
Proof.
  intros Hdir. destruct response as [|chunks complete]; [reflexivity|].
  unfold store_response, open_for_write. now rewrite Hdir.
Qed.

(** [folder / ".."] denotes a directory when [folder] does. *)
Lemma node_at_above folder fs :
  node_at fs folder = Some Dir ->
  node_at fs {| anchored := anchored folder; parts := parts folder ++ [".."] |} = Some Dir.
Proof.
  intros Hfolder.
  rewrite (node_at_dotdot fs _ (parts folder)) by reflexivity.
  unfold parent. cbn [anchored parts]. now rewrite removelast_last, path_eta, Hfolder.
Qed.

End DiskFacts.

(* ===================================================================== *)
(** * The destination of a download *)
(* ===================================================================== *)

(** C10, as the code has it. [extract_filename_from_url] returns, for every
    input, a string without [/]; the destination built from it therefore
    adds at most one segment to the post's folder. It is a direct child of
    the folder, named by the file name, unless the file name is empty or
    ["."], in which case the destination is the folder itself, or [".."],
    in which case the destination is the folder followed by [..], which
    denotes the directory above the folder. In these three cases the
    destination denotes a directory whenever the post's folder is one, so
    that nothing is stored there and the download fails. *)
Theorem extract_filename_from_url_no_separator :
  forall (url : string) (tweet_folder : Path),
    let image_filename := extract_filename_from_url url in
    let image_path := truediv tweet_folder image_filename in
    PyStr.contains "/" image_filename = false /\
    (image_path = tweet_folder <-> image_filename = EmptyString \/ image_filename = ".") /\
    (image_path <> tweet_folder ->
     anchored image_path = anchored tweet_folder /\
     parts image_path = parts tweet_folder ++ [image_filename] /\
     (direct_child_of image_path tweet_folder <-> image_filename <> "..")) /\
    (image_filename = EmptyString \/ image_filename = "." \/ image_filename = ".." ->
     forall (disk : FS) (response : HttpResponse),
       node_at disk tweet_folder = Some Dir ->
       node_at disk image_path = Some Dir /\
       store_response response image_path disk = (false, disk)).
Proof.
  intros url tweet_folder image_filename image_path.
  assert (Hplain : PyStr.contains "/" image_filename = false)
    by (apply extract_filename_without; now right).
  split; [exact Hplain|].
  assert (Hpath : image_path =
                  {| anchored := anchored tweet_folder;
                     parts := parts tweet_folder ++
                              (if kept_segment image_filename then [image_filename] else []) |})
    by (subst image_path; now apply truediv_plain).
  assert (Hsame : image_path = tweet_folder <->
                  image_filename = EmptyString \/ image_filename = ".").
  { rewrite Hpath. destruct (kept_segment image_filename) eqn:Hkept.
    - split.
      + intros H. apply path_same_parts in H. discriminate.
      + intros H. apply kept_segment_false in H. congruence.
    - split; [intros _; now apply kept_segment_false|].
      intros _. rewrite app_nil_r. apply path_eta. }
  split; [exact Hsame|].
  split.
  - intros Hne.
    destruct (kept_segment image_filename) eqn:Hkept.
    2:{ destruct Hne. apply Hsame. now apply kept_segment_false. }
    rewrite Hpath. cbn [anchored parts].
    split; [reflexivity|]. split; [reflexivity|].
    split.
    + intros [_ (name & Hname & Hparts)]. cbn [parts] in Hparts.
      apply app_inv_head in Hparts. congruence.
    + intros Hname. split; [reflexivity|]. now exists image_filename.
  - intros Hspecial disk response Hfolder.
    assert (Hdir : node_at disk image_path = Some Dir).
    { destruct Hspecial as [H | [H | H]].
      - now rewrite (proj2 Hsame (or_introl H)).
      - now rewrite (proj2 Hsame (or_intror H)).
      - rewrite Hpath, H. cbn [kept_segment String.eqb Ascii.eqb Bool.eqb negb andb].
        now apply node_at_above. }
    split; [exact Hdir | now apply store_response_at_directory].
Qed.

Lemma extract_filename_from_url_no_separator_witness :
  direct_child_of
    (truediv (Path_of "downloads/20250115_090503")
       (extract_filename_from_url "https://pbs.twimg.com/media/foo.jpg:large?x=1"))
    (Path_of "downloads/20250115_090503").
Proof.
  refine (proj2 (proj2 (proj2 (proj1 (proj2 (proj2
    (extract_filename_from_url_no_separator
       "https://pbs.twimg.com/media/foo.jpg:large?x=1"
       (Path_of "downloads/20250115_090503")))) _))) _).
  - vm_compute. discriminate.
  - vm_compute. discriminate.
Defined.

(** C10, as stated, fails for a URL that ends with [/]: the file name is
    empty and the destination is the post's folder itself, not a child of
    it. *)
Lemma empty_filename_is_not_a_child :
  let tweet_folder := Path_of "downloads/20250115_090503" in
  let image_filename := extract_filename_from_url "https://pbs.twimg.com/media/" in
  image_filename = EmptyString /\
  truediv tweet_folder image_filename = tweet_folder /\
  ~ direct_child_of (truediv tweet_folder image_filename) tweet_folder.
Proof.
  split; [reflexivity|]. split; [reflexivity|].
  intros [_ (name & _ & Hname)]. vm_compute in Hname. discriminate.
Qed.

(** It also fails for a URL that ends with [/..]: the file name is [..],
    the destination is the post's folder followed by [..], which is the
    output directory, and a run that meets such a URL stops on the failed
    download without writing anything there. *)
Lemma dotdot_filename_is_not_a_child :
  let tweet_folder := Path_of "downloads/20250115_090503" in
  let image_filename := extract_filename_from_url "https://pbs.twimg.com/media/.." in
  image_filename = ".." /\
  parts (truediv tweet_folder image_filename) = ["downloads"; "20250115_090503"; ".."] /\
  ~ direct_child_of (truediv tweet_folder image_filename) tweet_folder /\
  forall (disk : FS) (response : HttpResponse),
    node_at disk tweet_folder = Some Dir ->
    store_response response (truediv tweet_folder image_filename) disk = (false, disk).
Proof.
  split; [reflexivity|]. split; [reflexivity|]. split.
  - intros [_ (name & Hname & Hparts)]. vm_compute in Hparts.
    injection Hparts as Hparts. now destruct Hname.
  - intros disk response Hfolder.
    apply store_response_at_directory.
    exact (node_at_above (Path_of "downloads/20250115_090503") disk Hfolder).
Qed.

(* ===================================================================== *)
(** * The folder of a post *)
(* ===================================================================== *)

Section FolderName.

Import PyStr.

Lemma all_digits_app (a b : string) :
  all_digits (a +:+ b) = all_digits a && all_digits b.
Proof.
  induction a as [|x a IH]; str_simpl; [reflexivity|].
  now rewrite IH, andb_assoc.
Qed.

Lemma digits_of_uint (d : Decimal.uint) : all_digits (NilEmpty.string_of_uint d) = true.
Proof. induction d; simpl; auto. Qed.

Lemma str_nat_digits (n : nat) : all_digits (str_nat n) = true.
Proof.
  unfold str_nat, NilZero.string_of_uint.
  destruct (Nat.to_uint n) eqn:E; try reflexivity; rewrite <- E; apply digits_of_uint.
Qed.

Lemma zeros_digits (k : nat) : all_digits (zeros k) = true.
Proof. induction k; simpl; auto. Qed.

Lemma zeros_length (k : nat) : String.length (zeros k) = k.
Proof. induction k; simpl; auto. Qed.

Lemma zfill_digits (width n : nat) : all_digits (zfill width n) = true.
Proof. unfold zfill. now rewrite all_digits_app, zeros_digits, str_nat_digits. Qed.

Lemma zfill_length (width n : nat) :
  String.length (str_nat n) <= width -> String.length (zfill width n) = width.
Proof. intros H. unfold zfill. rewrite length_append, zeros_length. lia. Qed.

(** The decimal text of a number below [10^2] (below [10^4]) has at most
    two (four) characters: checked on every such number. *)
Lemma str_nat_short (width bound n : nat) :
  forallb (fun k => Nat.leb (String.length (str_nat k)) width) (seq 0 bound) = true ->
  n < bound -> String.length (str_nat n) <= width.
Proof.
  intros Hall Hn. rewrite forallb_forall in Hall.
  apply Nat.leb_le, Hall, in_seq. lia.
Qed.

Lemma two_digits (n : nat) : n < 100 -> String.length (zfill 2 n) = 2.
Proof.
  intros Hn. apply zfill_length. apply (str_nat_short 2 100); [|exact Hn].
  vm_compute. reflexivity.
Qed.

Lemma four_digits (n : nat) : n < 100 * 100 -> String.length (zfill 4 n) = 4.
Proof.
  intros Hn. apply zfill_length. apply (str_nat_short 4 (100 * 100)); [|exact Hn].
  vm_compute. reflexivity.
Qed.

Lemma digits_without (c : ascii) (s : string) :
  is_digit c = false -> all_digits s = true -> contains c s = false.
Proof.
  intros Hc. induction s as [|a s IH]; simpl; [reflexivity|].
  intros H. apply andb_true_iff in H as [Ha Hs]. rewrite (IH Hs), orb_false_r.
  destruct (Ascii.eqb_spec a c) as [->|]; [congruence | reflexivity].
Qed.

(** The format [%Y%m%d_%H%M%S]. *)
Lemma strftime_folder_name (t : datetime) :
  strftime "%Y%m%d_%H%M%S" t =
  zfill 4 (year t) +:+ zfill 2 (month t) +:+ zfill 2 (day t) +:+ "_" +:+
  zfill 2 (hour t) +:+ zfill 2 (minute t) +:+ zfill 2 (second t).
Proof.
  simpl. unfold strftime_directive. simpl. now rewrite append_empty_r.
Qed.

Lemma folder_name_shape (t : datetime) :
  datetime_valid t -> is_YYYYMMDD_HHMMSS (strftime "%Y%m%d_%H%M%S" t).
Proof.
  intros (Hy & Hm & Hd & HH & HM & HS). rewrite strftime_folder_name.
  exists (zfill 4 (year t)), (zfill 2 (month t)), (zfill 2 (day t)),
         (zfill 2 (hour t)), (zfill 2 (minute t)), (zfill 2 (second t)).
  split; [reflexivity|]. split.
  - repeat constructor; apply zfill_digits.
  - simpl. rewrite four_digits by lia. rewrite !two_digits by lia. reflexivity.
Qed.

Lemma folder_name_plain (t : datetime) :
  contains "/" (strftime "%Y%m%d_%H%M%S" t) = false /\
  kept_segment (strftime "%Y%m%d_%H%M%S" t) = true.
Proof.
  rewrite strftime_folder_name. split.
  - rewrite !contains_app.
    rewrite !(digits_without "/" (zfill _ _)) by (reflexivity || apply zfill_digits).
    reflexivity.
  - assert (Hu : contains "_" (zfill 4 (year t) +:+ zfill 2 (month t) +:+ zfill 2 (day t)
                                +:+ "_" +:+ zfill 2 (hour t) +:+ zfill 2 (minute t)
                                +:+ zfill 2 (second t)) = true).
    { rewrite !contains_app. simpl. now rewrite !orb_true_r. }
    destruct (kept_segment _) eqn:Hk; [reflexivity|].
    apply kept_segment_false in Hk as [Hk | Hk]; rewrite Hk in Hu; discriminate.
Qed.

(** The folder of a post is the output directory followed by one segment,
    the formatted timestamp. *)
Lemma folder_is_child (output_path : Path) (t : datetime) :
  truediv output_path (strftime "%Y%m%d_%H%M%S" t) =
  {| anchored := anchored output_path;
     parts := parts output_path ++ [strftime "%Y%m%d_%H%M%S" t] |}.
Proof.
  destruct (folder_name_plain t) as [Hplain Hkept].
  now rewrite (truediv_plain _ _ Hplain), Hkept.
Qed.

Lemma folder_parent (output_path : Path) (t : datetime) :
  parent (truediv output_path (strftime "%Y%m%d_%H%M%S" t)) = output_path.
Proof.
  rewrite folder_is_child. unfold parent. simpl.
  rewrite removelast_last. now destruct output_path.
Qed.

Lemma folder_name_not_dotdot (t : datetime) : strftime "%Y%m%d_%H%M%S" t <> "..".
Proof.
  rewrite strftime_folder_name. intros H.
  apply (f_equal (contains "_")) in H. rewrite !contains_app in H. simpl in H.
  rewrite !orb_true_r in H. discriminate.
Qed.

(** The folder of a post is looked up by its name. *)
Lemma folder_not_root (output_path : Path) (t : datetime) (disk : FS) :
  node_at disk (truediv output_path (strftime "%Y%m%d_%H%M%S" t)) =
  disk !! truediv output_path (strftime "%Y%m%d_%H%M%S" t).
Proof.
  rewrite folder_is_child.
  apply (node_at_named _ _ (parts output_path) (strftime "%Y%m%d_%H%M%S" t));
    [reflexivity | apply folder_name_not_dotdot].
Qed.

End FolderName.

(** C8. For every base path and timestamp, the path [create_tweet_folder]
    returns is the base path joined with the timestamp formatted as
    [YYYYMMDD_HHMMSS]; it creates the folder when it is absent and the base
    is a directory; called when the folder already exists, and in particular
    called a second time with the same arguments, it raises no error,
    returns the same path, and leaves the whole disk, hence the contents of
    the folder, as it was. *)
Theorem create_tweet_folder_idempotent :
  forall (output_path : Path) (tweet_created_at : datetime) (disk : FS),
    let folder_name := strftime "%Y%m%d_%H%M%S" tweet_created_at in
    let tweet_folder :=
      {| anchored := anchored output_path; parts := parts output_path ++ [folder_name] |} in
    folder_name =
      zfill 4 (year tweet_created_at) +:+ zfill 2 (month tweet_created_at) +:+
      zfill 2 (day tweet_created_at) +:+ "_" +:+ zfill 2 (hour tweet_created_at) +:+
      zfill 2 (minute tweet_created_at) +:+ zfill 2 (second tweet_created_at) /\
    (datetime_valid tweet_created_at -> is_YYYYMMDD_HHMMSS folder_name) /\
    strftime "%Y%m%d_%H%M%S" Samples.morning = "20250115_090503" /\
    (forall p disk',
        create_tweet_folder output_path tweet_created_at disk = Ok (p, disk') ->
        p = tweet_folder /\ disk' !! tweet_folder = Some Dir) /\
    (disk !! tweet_folder = Some Dir ->
     create_tweet_folder output_path tweet_created_at disk = Ok (tweet_folder, disk)) /\
    (forall p disk',
        create_tweet_folder output_path tweet_created_at disk = Ok (p, disk') ->
        create_tweet_folder output_path tweet_created_at disk' = Ok (p, disk')) /\
    (disk !! tweet_folder = None -> node_at disk output_path = Some Dir ->
     create_tweet_folder output_path tweet_created_at disk
       = Ok (tweet_folder, <[tweet_folder := Dir]> disk)).
Proof.
  intros output_path t disk folder_name tweet_folder.
  assert (Hfolder : truediv output_path folder_name = tweet_folder)
    by apply folder_is_child.
  assert (Hnode : forall d : FS, node_at d (truediv output_path folder_name) = d !! tweet_folder).
  { intros d. subst folder_name. rewrite folder_not_root. now rewrite Hfolder. }
  assert (Hparent : parent (truediv output_path folder_name) = output_path)
    by apply folder_parent.
  assert (Hexists : forall d : FS,
             d !! tweet_folder = Some Dir ->
             create_tweet_folder output_path t d = Ok (tweet_folder, d)).
  { intros d Hd. unfold create_tweet_folder, mkdir_exist_ok. fold folder_name.
    now rewrite Hnode, Hd, Hfolder. }
  assert (Hreturns : forall p d d',
             create_tweet_folder output_path t d = Ok (p, d') ->
             p = tweet_folder /\ d' !! tweet_folder = Some Dir).
  { intros p d d'. unfold create_tweet_folder. fold folder_name.
    destruct (mkdir_exist_ok (truediv output_path folder_name) d) as [d1|e] eqn:Hmk;
      [|discriminate].
    intros [= <- <-]. split; [exact Hfolder|].
    apply mkdir_exist_ok_disk in Hmk as [Hdir _]. now rewrite Hnode in Hdir. }
  split; [apply strftime_folder_name|].
  split; [apply folder_name_shape|].
  split; [reflexivity|].
  split; [intros p disk'; apply Hreturns|].
  split; [apply Hexists|].
  split.
  - intros p disk' H. destruct (Hreturns _ _ _ H) as [-> Hdir]. now apply Hexists.
  - intros Habsent Hbase. unfold create_tweet_folder, mkdir_exist_ok. fold folder_name.
    now rewrite Hnode, Habsent, Hparent, Hbase, Hfolder.
Qed.

Lemma create_tweet_folder_idempotent_witness :
  create_tweet_folder (Path_of "downloads") Samples.morning
    (<[{| anchored := anchored (Path_of "downloads");
          parts := parts (Path_of "downloads") ++ [strftime "%Y%m%d_%H%M%S" Samples.morning] |}
       := Dir]> (fs Samples.started))
  = Ok ({| anchored := anchored (Path_of "downloads");
           parts := parts (Path_of "downloads") ++ [strftime "%Y%m%d_%H%M%S" Samples.morning] |},
        <[{| anchored := anchored (Path_of "downloads");
             parts := parts (Path_of "downloads") ++ [strftime "%Y%m%d_%H%M%S" Samples.morning] |}
          := Dir]> (fs Samples.started)).
Proof.
  apply (proj1 (proj2 (proj2 (proj2 (proj2 (proj2
    (create_tweet_folder_idempotent (Path_of "downloads") Samples.morning
       (fs Samples.started)))))))
    _ _).
  apply (proj2 (proj2 (proj2 (proj2 (proj2 (proj2
    (create_tweet_folder_idempotent (Path_of "downloads") Samples.morning
       (fs Samples.started)))))))).
  - vm_compute. reflexivity.
  - vm_compute. reflexivity.
Defined.

(* ===================================================================== *)
(** * The run: traces, counters and the disk *)
(* ===================================================================== *)

Section RunFacts.

Context {W : Type}.
Variable services : Services W.

Implicit Types (st : @State W) (evs : list Event).

Lemma replay_app (disk : FS) evs1 evs2 :
  replay disk (evs1 ++ evs2) = replay (replay disk evs1) evs2.
Proof. unfold replay. apply fold_left_app. Qed.

Lemma advances_refl st : advances st [] st.
Proof. split; simpl; [now rewrite app_nil_r | reflexivity]. Qed.

Lemma advances_trans st1 st2 st3 evs1 evs2 :
  advances st1 evs1 st2 -> advances st2 evs2 st3 -> advances st1 (evs1 ++ evs2) st3.
Proof.
  intros [T1 D1] [T2 D2]. split.
  - now rewrite T2, T1, app_assoc.
  - now rewrite D2, D1, replay_app.
Qed.

Lemma advances_record (ev : Event) st :
  effect (fs st) ev = fs st -> advances st [ev] (record ev st).
Proof. intros H. split; simpl; [reflexivity | now rewrite H]. Qed.

Lemma quiet_app evs1 evs2 : quiet evs1 -> quiet evs2 -> quiet (evs1 ++ evs2).
Proof. apply Forall_app_2. Qed.

Lemma downloads_quiet (folder : Path) (urls : list string) evs :
  Forall2 (download_of folder true) urls evs -> quiet evs.
Proof.
  induction 1 as [|u ev urls evs [response ->] _ IH]; constructor; [reflexivity | exact IH].
Qed.

(** ** [download_image] *)

Lemma download_image_spec (image_url : string) (p : Path) st ok st' :
  download_image services image_url p st = (ok, st') ->
  exists response,
    advances st [EvDownload image_url p response ok] st' /\
    ok = fst (store_response response p (fs st)) /\
    tweets_processed st' = tweets_processed st /\
    tweets_with_images st' = tweets_with_images st.
Proof.
  unfold download_image.
  destruct (requests_get services (original_url image_url) (world st)) as [response w].
  destruct (store_response response p (fs st)) as [ok' fs'] eqn:E.
  intros [= <- <-]. exists response.
  split; [split|]; [reflexivity | | now rewrite E].
  unfold replay. cbn [fold_left effect fs record set_fs set_world]. now rewrite E.
Qed.

(** ** The loop over the photos of a post *)

Lemma download_photos_spec (folder : Path) (photos : list Media) (urls : list string)
    st r st' :
  download_photos services folder photos urls st = (r, st') ->
  tweets_processed st' = tweets_processed st /\
  tweets_with_images st' = tweets_with_images st /\
  exists evs,
    advances st evs st' /\
    match r with
    | Normal urls' =>
        urls' = urls ++ present_urls photos /\
        Forall2 (download_of folder true) (present_urls photos) evs
    | Return =>
        exists done failed later downloads ev,
          present_urls photos = done ++ failed :: later /\
          evs = downloads ++ [ev] /\
          Forall2 (download_of folder true) done downloads /\
          download_of folder false failed ev
    | Raised _ => False
    end.
Proof.
  revert urls st. induction photos as [|photo rest IH]; intros urls st; simpl.
  - intros [= <- <-]. do 2 (split; [reflexivity|]).
    exists []. split; [apply advances_refl|].
    split; [now rewrite app_nil_r | constructor].
  - destruct (photo_url photo) as [image_url|] eqn:Hurl; [|apply IH].
    destruct (download_image services image_url _ st) as [ok st1] eqn:Hdl.
    apply download_image_spec in Hdl as (response & Hadv & Hok & Hp & Hi).
    destruct ok.
    + intros H. apply IH in H as (Hp' & Hi' & evs & Hadv' & Hr).
      split; [congruence|]. split; [congruence|].
      exists ([EvDownload image_url
                 (truediv folder (extract_filename_from_url image_url)) response true] ++ evs).
      split; [eapply advances_trans; eassumption|].
      destruct r as [urls'| |e]; [| |exact Hr].
      * destruct Hr as [-> Hall]. split; [now rewrite <- app_assoc|].
        constructor; [now exists response | exact Hall].
      * destruct Hr as (done & failed & later & downloads & ev & Hsplit & -> & Hdone & Hev).
        exists (image_url :: done), failed, later,
          (EvDownload image_url
             (truediv folder (extract_filename_from_url image_url)) response true :: downloads),
          ev.
        split; [now rewrite Hsplit|]. split; [reflexivity|].
        split; [|exact Hev]. constructor; [now exists response | exact Hdone].
    + intros [= <- <-]. split; [exact Hp|]. split; [exact Hi|].
      eexists. split; [exact Hadv|].
      exists [], image_url, (present_urls rest), [].
      eexists. split; [reflexivity|]. split; [reflexivity|].
      split; [constructor | now exists response].
Qed.

(** ** One post *)

Lemma process_tweet_spec (output_path : Path) (username : string)
    (media_dict : gmap string Media) (tweet : Tweet) st r st' :
  process_tweet services output_path username media_dict tweet st = (r, st') ->
  let photos := photos_of media_dict tweet in
  let folder := folder_of output_path tweet in
  let urls := present_urls photos in
  tweets_processed st' = S (tweets_processed st) /\
  exists evs,
    advances st (EvTweet tweet :: evs) st' /\
    ((photos = [] /\ evs = [] /\ r = Normal tt /\
      tweets_with_images st' = tweets_with_images st) \/
     (photos <> [] /\ tweets_with_images st' = S (tweets_with_images st) /\
      ((exists e, mkdir_exist_ok folder (fs st) = Raise e /\
                  evs = [EvMkdir folder] /\ r = Raised e) \/
       (exists fs1, mkdir_exist_ok folder (fs st) = Ok fs1 /\
          ((exists done failed later downloads ev,
               urls = done ++ failed :: later /\
               evs = EvMkdir folder :: downloads ++ [ev] /\
               Forall2 (download_of folder true) done downloads /\
               download_of folder false failed ev /\
               r = Return) \/
           (exists downloads,
               Forall2 (download_of folder true) urls downloads /\
               evs = EvMkdir folder :: downloads ++
                       [EvSaveTweet tweet folder username urls] /\
               match save_tweet_content_v2 tweet folder username (Some urls)
                       (replay (fs st) (EvMkdir folder :: downloads)) with
               | Ok fs3 => r = Normal tt /\ fs st' = fs3
               | Raise e => r = Raised e
               end)))))).
Proof.
  intros H photos folder urls. subst photos folder urls.
  unfold process_tweet in H.
  remember (photos_of media_dict tweet) as photos eqn:Hphotos.
  remember (folder_of output_path tweet) as folder eqn:Hfolder.
  destruct photos as [|photo rest].
  { injection H as <- <-. split; [reflexivity|]. exists []. split.
    - split; reflexivity.
    - left. repeat split; reflexivity. }
  set (photos := photo :: rest) in *.
  set (urls := present_urls photos) in *.
  assert (Hne : photos <> []) by discriminate.
  unfold on_disk, create_tweet_folder in H. fold (folder_of output_path tweet) in H.
  rewrite <- Hfolder in H. simpl fs in H.
  destruct (mkdir_exist_ok folder (fs st)) as [fs1|e] eqn:Hmk.
  2:{ injection H as <- <-. split; [reflexivity|].
      exists [EvMkdir folder]. split.
      - split; [simpl; now rewrite <- app_assoc|].
        unfold replay. simpl. now rewrite Hmk.
      - right. split; [exact Hne|]. split; [reflexivity|]. left. eauto. }
  match type of H with
  | context [download_photos _ _ _ _ ?s] => set (st1 := s) in *
  end.
  assert (Hadv1 : advances st [EvTweet tweet; EvMkdir folder] st1).
  { split; [simpl; now rewrite <- app_assoc|]. unfold replay. simpl. now rewrite Hmk. }
  destruct (download_photos services folder photos [] st1) as [r2 st2] eqn:Hdl.
  apply download_photos_spec in Hdl as (Hp & Hi & dls & Hadv2 & Hr).
  destruct r2 as [image_urls| |e].
  - destruct Hr as [-> Hall]. rewrite app_nil_l in H. fold urls in H, Hall.
    assert (Hfs2 : fs st2 = replay (fs st) (EvMkdir folder :: dls)).
    { destruct Hadv2 as [_ ->]. destruct Hadv1 as [_ ->]. now rewrite <- replay_app. }
    destruct (save_tweet_content_v2 tweet folder username (Some urls) (fs st2))
      as [fs3|e] eqn:Hsave; cbv beta iota in H; injection H as <- <-.
    + split; [simpl; rewrite Hp; reflexivity|].
      exists (EvMkdir folder :: dls ++ [EvSaveTweet tweet folder username urls]).
      split.
      * change (EvTweet tweet :: EvMkdir folder :: dls ++ [EvSaveTweet tweet folder username urls])
          with ([EvTweet tweet; EvMkdir folder] ++ dls ++ [EvSaveTweet tweet folder username urls]).
        eapply advances_trans; [exact Hadv1|].
        eapply advances_trans; [exact Hadv2|].
        split; [reflexivity|]. unfold replay. simpl. now rewrite Hsave.
      * right. split; [exact Hne|]. split; [simpl; rewrite Hi; reflexivity|].
        right. exists fs1. split; [reflexivity|]. right. exists dls.
        split; [exact Hall|]. split; [reflexivity|].
        rewrite <- Hfs2, Hsave. split; reflexivity.
    + split; [simpl; rewrite Hp; reflexivity|].
      exists (EvMkdir folder :: dls ++ [EvSaveTweet tweet folder username urls]).
      split.
      * change (EvTweet tweet :: EvMkdir folder :: dls ++ [EvSaveTweet tweet folder username urls])
          with ([EvTweet tweet; EvMkdir folder] ++ dls ++ [EvSaveTweet tweet folder username urls]).
        eapply advances_trans; [exact Hadv1|].
        eapply advances_trans; [exact Hadv2|].
        split; [reflexivity|]. unfold replay. simpl. now rewrite Hsave.
      * right. split; [exact Hne|]. split; [simpl; rewrite Hi; reflexivity|].
        right. exists fs1. split; [reflexivity|]. right. exists dls.
        split; [exact Hall|]. split; [reflexivity|].
        rewrite <- Hfs2, Hsave. reflexivity.
  - injection H as <- <-.
    destruct Hr as (done & failed & later & downloads & ev & Hsplit & -> & Hdone & Hev).
    split; [rewrite Hp; reflexivity|].
    exists (EvMkdir folder :: downloads ++ [ev]). split.
    + change (EvTweet tweet :: EvMkdir folder :: downloads ++ [ev])
        with ([EvTweet tweet; EvMkdir folder] ++ downloads ++ [ev]).
      eapply advances_trans; eassumption.
    + right. split; [exact Hne|]. split; [rewrite Hi; reflexivity|].
      right. exists fs1. split; [reflexivity|]. left.
      exists done, failed, later, downloads, ev. auto.
  - destruct Hr.
Qed.

Lemma downloads_no_tweet (folder : Path) (ok : bool) (urls : list string) evs :
  Forall2 (download_of folder ok) urls evs -> tweet_events evs = [].
Proof.
  induction 1 as [|u ev urls evs [response ->] _ IH]; [reflexivity | exact IH].
Qed.

Lemma tweet_events_app evs1 evs2 :
  tweet_events (evs1 ++ evs2) = tweet_events evs1 ++ tweet_events evs2.
Proof. unfold tweet_events. apply flat_map_app. Qed.

Lemma shape_prepend {A : Type} (r : Flow A) evs1 evs2 :
  quiet evs1 -> flow_shape r evs2 -> flow_shape r (evs1 ++ evs2).
Proof.
  intros Hq. destruct r as [a| |e]; simpl; try (now apply quiet_app).
  intros (before & tweet & folder & urls & downloads & failed & ev & -> & Hb & Hd & Hev).
  exists (evs1 ++ before), tweet, folder, urls, downloads, failed, ev.
  split; [now rewrite <- app_assoc|]. split; [now apply quiet_app|]. auto.
Qed.

(** The actions of one post: its counting first, then a shape decided by
    the way the block ends. *)
Lemma process_tweet_shape (output_path : Path) (username : string)
    (media_dict : gmap string Media) (tweet : Tweet) st r st' :
  process_tweet services output_path username media_dict tweet st = (r, st') ->
  tweets_processed st' = S (tweets_processed st) /\
  tweets_with_images st <= tweets_with_images st' /\
  exists evs,
    advances st evs st' /\ flow_shape r evs /\ tweet_events evs = [tweet].
Proof.
  intros H. apply process_tweet_spec in H as (Hp & evs & Hadv & Hcases).
  split; [exact Hp|].
  destruct Hcases as [(_ & -> & -> & Hi) | (_ & Hi & Hcases)].
  { split; [lia|]. eexists. split; [exact Hadv|].
    split; [repeat constructor | reflexivity]. }
  split; [lia|]. eexists. split; [exact Hadv|].
  destruct Hcases as [(e & _ & -> & ->) | (fs1 & _ & Hcases)].
  { split; [repeat constructor | reflexivity]. }
  destruct Hcases as
    [(done & failed & later & downloads & ev & _ & -> & Hdone & Hev & ->) |
     (downloads & Hall & -> & Hsave)].
  - split.
    + exists [], tweet, (folder_of output_path tweet), done, downloads, failed, ev.
      split; [reflexivity|]. split; [constructor|]. auto.
    + simpl. rewrite tweet_events_app, (downloads_no_tweet _ _ _ _ Hdone).
      destruct Hev as [response ->]. reflexivity.
  - split.
    + assert (Hq : quiet (EvTweet tweet :: EvMkdir (folder_of output_path tweet) ::
                            downloads ++ [EvSaveTweet tweet (folder_of output_path tweet)
                                            username
                                            (present_urls (photos_of media_dict tweet))])).
      { do 2 (constructor; [reflexivity|]).
        apply quiet_app; [eapply downloads_quiet; eassumption | repeat constructor]. }
      destruct (save_tweet_content_v2 _ _ _ _ _); [destruct Hsave as [-> _] | subst r];
        exact Hq.
    + simpl. rewrite tweet_events_app, (downloads_no_tweet _ _ _ _ Hall). reflexivity.
Qed.

(** ** The posts of a page *)

Lemma process_tweets_spec (output_path : Path) (username : string)
    (media_dict : gmap string Media) (tweets : list Tweet) st r st' :
  process_tweets services output_path username media_dict tweets st = (r, st') ->
  tweets_processed st <= tweets_processed st' <= tweets_processed st + length tweets /\
  tweets_with_images st <= tweets_with_images st' /\
  (r = Normal tt -> tweets_processed st' = tweets_processed st + length tweets) /\
  exists evs,
    advances st evs st' /\ flow_shape r evs /\
    exists rest, tweets = tweet_events evs ++ rest /\ (r = Normal tt -> rest = []).
Proof.
  revert st. induction tweets as [|tweet rest IH]; intros st; simpl.
  - intros [= <- <-]. split; [lia|]. split; [lia|]. split; [intros _; lia|].
    exists []. split; [apply advances_refl|]. split; [constructor|].
    exists []. auto.
  - destruct (process_tweet services output_path username media_dict tweet st)
      as [r1 st1] eqn:H1.
    apply process_tweet_shape in H1 as (Hp1 & Hi1 & evs1 & Hadv1 & Hshape1 & Hev1).
    destruct r1 as [[]| |e].
    + intros H. apply IH in H as (Hp & Hi & Hn & evs & Hadv & Hshape & rest' & Hrest & Hnil).
      split; [lia|]. split; [lia|]. split; [intros Hr; specialize (Hn Hr); lia|].
      exists (evs1 ++ evs). split; [eapply advances_trans; eassumption|].
      split; [now apply shape_prepend|].
      exists rest'. rewrite tweet_events_app, Hev1. simpl.
      split; [now rewrite <- Hrest | exact Hnil].
    + intros [= <- <-]. split; [lia|]. split; [lia|]. split; [discriminate|].
      exists evs1. split; [exact Hadv1|]. split; [exact Hshape1|].
      exists rest. rewrite Hev1. split; [reflexivity | discriminate].
    + intros [= <- <-]. split; [lia|]. split; [lia|]. split; [discriminate|].
      exists evs1. split; [exact Hadv1|]. split; [exact Hshape1|].
      exists rest. rewrite Hev1. split; [reflexivity | discriminate].
Qed.

(** ** The paginated loop *)

Lemma walk_spec (fuel : nat) (user_id : Z) (output_path : Path) (username : string)
    (start_date pagination_token : option string) st r st' :
  walk services fuel user_id output_path username start_date pagination_token st
    = Some (r, st') ->
  tweets_processed st <= tweets_processed st' /\
  tweets_with_images st <= tweets_with_images st' /\
  exists evs, advances st evs st' /\ flow_shape r evs.
Proof.
  revert pagination_token st.
  induction fuel as [|fuel IH]; intros pagination_token st; simpl; [discriminate|].
  destruct (tweets_processed st <? max_tweets).
  2:{ intros [= <- <-]. split; [lia|]. split; [lia|].
      exists []. split; [apply advances_refl | constructor]. }
  set (params := make_request_params user_id pagination_token start_date).
  set (st0 := record (EvFetchPage params) st).
  assert (Hadv0 : advances st [EvFetchPage params] st0) by now apply advances_record.
  assert (Hq0 : quiet [EvFetchPage params]) by (repeat constructor).
  destruct (get_users_tweets services params (world st)) as [response w].
  set (st1 := set_world w st0).
  assert (Hadv1 : advances st [EvFetchPage params] st1) by exact Hadv0.
  destruct response as [response|e].
  2:{ intros [= <- <-]. split; [simpl; lia|]. split; [simpl; lia|]. eauto. }
  destruct (data response) as [[|tweet tweets]|].
  1,3: intros [= <- <-]; (split; [simpl; lia|]); (split; [simpl; lia|]); eauto.
  unfold process_page.
  destruct (process_tweets services output_path username (build_media_dict response)
              (tweet :: tweets) st1) as [r2 st2] eqn:H2.
  apply process_tweets_spec in H2 as (Hp2 & Hi2 & _ & evs2 & Hadv2 & Hshape2 & _).
  assert (Hadv12 : advances st ([EvFetchPage params] ++ evs2) st2)
    by (eapply advances_trans; eassumption).
  simpl tweets_processed in Hp2. simpl tweets_with_images in Hi2.
  destruct r2 as [[]| |e].
  - destruct (meta response !! "next_token") as [next_token|].
    2:{ intros [= <- <-]. split; [lia|]. split; [lia|].
        eexists. split; [exact Hadv12 | now apply shape_prepend]. }
    destruct (tweets_processed st2 <? max_tweets).
    2:{ intros [= <- <-]. split; [lia|]. split; [lia|].
        eexists. split; [exact Hadv12 | now apply shape_prepend]. }
    intros H. apply IH in H as (Hp & Hi & evs & Hadv & Hshape).
    split; [lia|]. split; [lia|].
    exists (([EvFetchPage params] ++ evs2) ++ evs).
    split; [eapply advances_trans; eassumption|].
    apply shape_prepend; [now apply quiet_app | exact Hshape].
  - intros [= <- <-]. split; [lia|]. split; [lia|].
    eexists. split; [exact Hadv12 | now apply (shape_prepend Return)].
  - intros [= <- <-]. split; [lia|]. split; [lia|].
    eexists. split; [exact Hadv12 | now apply (shape_prepend (Raised e))].
Qed.

(** ** The whole call *)

Lemma quiet_no_failure evs1 (ev : Event) evs2 :
  quiet (evs1 ++ ev :: evs2) -> is_failed_download ev = false.
Proof.
  intros H. apply Forall_app in H as [_ H]. now apply Forall_cons in H as [H _].
Qed.

(** In a trace whose only failed download is its last action, a failed
    download can only be found at the end. *)
Lemma failure_is_last evs (ev : Event) pre (x : Event) post :
  quiet evs -> evs ++ [ev] = pre ++ x :: post -> is_failed_download x = true ->
  pre = evs /\ x = ev /\ post = [].
Proof.
  intros Hq. revert pre. induction evs as [|a evs IH]; intros pre Heq Hx.
  - destruct pre as [|y pre]; simpl in Heq.
    + injection Heq as <- <-. auto.
    + injection Heq as _ Heq. now destruct pre.
  - apply Forall_cons in Hq as [Ha Hq].
    destruct pre as [|y pre]; simpl in Heq.
    + injection Heq as <- _. congruence.
    + injection Heq as <- Heq. destruct (IH Hq pre Heq Hx) as (-> & -> & ->). auto.
Qed.

Lemma handler_not_download_failed (e : Exn) : handler e <> DownloadFailed.
Proof. now destruct e. Qed.

Lemma handler_not_out_of_fuel (e : Exn) : handler e <> OutOfFuel.
Proof. now destruct e. Qed.

(** The disk at the end of a call is the initial disk after the recorded
    actions; a failed download appears in the trace exactly when the call
    ends by the fail-fast [return], and then as the last action. *)
Lemma get_tweets_with_images_spec (bearer_token : option string) (username output_dir : string)
    (start_date : option string) (w : W) (disk : FS) (ending : Ending) st :
  get_tweets_with_images services bearer_token username output_dir start_date w disk
    = (ending, st) ->
  fs st = replay disk (trace st) /\
  (ending = DownloadFailed -> stopped_on_failure (trace st)) /\
  (ending <> DownloadFailed -> quiet (trace st)).
Proof.
  unfold get_tweets_with_images.
  destruct (negb (validate_credentials bearer_token)).
  { intros [= <- <-]. split; [reflexivity|]. split; [discriminate | constructor]. }
  unfold on_disk. simpl fs.
  set (output_path := Path_of output_dir).
  destruct (mkdir_exist_ok output_path disk) as [disk1|e] eqn:Hmk.
  2:{ intros [= <- <-]. simpl. unfold replay. simpl. rewrite Hmk.
      split; [reflexivity|]. split; [discriminate | repeat constructor]. }
  match goal with
  | |- context [get_user services username (world ?s)] => set (st1 := s)
  end.
  assert (Hadv1 : advances (initial_state w disk) [EvMkdir output_path; EvGetUser username] st1).
  { split; [reflexivity|]. unfold replay. simpl. now rewrite Hmk. }
  assert (Hq1 : quiet [EvMkdir output_path; EvGetUser username]) by (repeat constructor).
  destruct (get_user services username (world st1)) as [user w1].
  assert (Hadv2 : advances (initial_state w disk) [EvMkdir output_path; EvGetUser username]
                    (set_world w1 st1)) by exact Hadv1.
  assert (Hbase : forall ending',
             ending' <> DownloadFailed ->
             fs (set_world w1 st1) = replay disk (trace (set_world w1 st1)) /\
             (ending' = DownloadFailed -> stopped_on_failure (trace (set_world w1 st1))) /\
             (ending' <> DownloadFailed -> quiet (trace (set_world w1 st1)))).
  { intros ending' Hne. destruct Hadv2 as [Ht Hf]. rewrite Ht.
    split; [exact Hf|]. split; [congruence | intros _; exact Hq1]. }
  destruct user as [[user_id|]|e].
  2:{ intros [= <- <-]. now apply Hbase. }
  2:{ intros [= <- <-]. apply Hbase. apply handler_not_download_failed. }
  destruct (walk services (S max_tweets) user_id output_path username start_date None
              (set_world w1 st1)) as [[r st2]|] eqn:Hwalk.
  2:{ intros [= <- <-]. now apply Hbase. }
  apply walk_spec in Hwalk as (_ & _ & evs & Hadv3 & Hshape).
  pose proof (advances_trans _ _ _ _ _ Hadv2 Hadv3) as [Ht Hf].
  pose proof (shape_prepend r _ evs Hq1 Hshape) as Hshape'.
  destruct r as [[]| |e]; intros [= <- <-]; rewrite Ht;
    (split; [exact Hf|]); split; try congruence; try (intros _; exact Hshape').
  intros H. now destruct (handler_not_download_failed e).
Qed.

(** ** Termination of the loop and the bound on processed posts *)

Lemma walk_total (fuel : nat) (user_id : Z) (output_path : Path) (username : string)
    (start_date pagination_token : option string) st :
  max_tweets - tweets_processed st < fuel ->
  walk services fuel user_id output_path username start_date pagination_token st <> None.
Proof.
  revert pagination_token st.
  induction fuel as [|fuel IH]; intros pagination_token st Hfuel; [lia|]. simpl.
  destruct (tweets_processed st <? max_tweets) eqn:Hlt; [|discriminate].
  destruct (get_users_tweets services _ (world st)) as [[response|e] w]; [|discriminate].
  destruct (data response) as [[|tweet tweets]|]; try discriminate.
  unfold process_page.
  destruct (process_tweets services output_path username (build_media_dict response)
              (tweet :: tweets) _) as [r2 st2] eqn:H2.
  apply process_tweets_spec in H2 as (_ & _ & Hn & _).
  destruct r2 as [[]| |e]; try discriminate.
  specialize (Hn eq_refl). simpl in Hn.
  destruct (meta response !! "next_token"); [|discriminate].
  destruct (tweets_processed st2 <? max_tweets) eqn:Hlt2; [|discriminate].
  apply IH. apply Nat.ltb_lt in Hlt, Hlt2. lia.
Qed.

Lemma get_tweets_with_images_terminates (bearer_token : option string)
    (username output_dir : string) (start_date : option string) (w : W) (disk : FS) :
  fst (get_tweets_with_images services bearer_token username output_dir start_date w disk)
    <> OutOfFuel.
Proof.
  unfold get_tweets_with_images.
  destruct (negb (validate_credentials bearer_token)); [discriminate|].
  unfold on_disk. simpl fs.
  destruct (mkdir_exist_ok (Path_of output_dir) disk); [|discriminate].
  match goal with
  | |- context [get_user services username ?x] =>
      destruct (get_user services username x) as [[[user_id|]|e] w1]
  end; cbv beta iota; [| discriminate | apply handler_not_out_of_fuel].
  match goal with
  | |- context [walk services ?f ?u ?o ?n ?d ?t ?s] =>
      pose proof (walk_total f u o n d t s) as Htotal;
      destruct (walk services f u o n d t s) as [[[[]| |e] st2]|]
  end; cbv beta iota; cbn [fst]; try discriminate; [apply handler_not_out_of_fuel|].
  exfalso. apply Htotal; [|reflexivity]. cbn [tweets_processed set_world record set_fs initial_state].
  unfold max_tweets. lia.
Qed.

(** When no page carries more than [bound] posts, the counter stays below
    [max_tweets - 1 + bound]: the cap is only tested between pages. *)
Lemma walk_processed_bound (bound : nat) (fuel : nat) (user_id : Z) (output_path : Path)
    (username : string) (start_date pagination_token : option string) st r st' :
  (forall request_params w response w' tweets,
      get_users_tweets services request_params w = (Ok response, w') ->
      data response = Some tweets -> length tweets <= bound) ->
  walk services fuel user_id output_path username start_date pagination_token st
    = Some (r, st') ->
  tweets_processed st' <= Nat.max (tweets_processed st) (max_tweets - 1 + bound).
Proof.
  intros Hpages. revert pagination_token st.
  induction fuel as [|fuel IH]; intros pagination_token st; simpl; [discriminate|].
  destruct (tweets_processed st <? max_tweets) eqn:Hlt.
  2:{ intros [= <- <-]. apply Nat.le_max_l. }
  apply Nat.ltb_lt in Hlt.
  destruct (get_users_tweets services _ (world st)) as [[response|e] w] eqn:Hget.
  2:{ intros [= <- <-]. apply Nat.le_max_l. }
  destruct (data response) as [[|tweet tweets]|] eqn:Hdata.
  1,3: intros [= <- <-]; apply Nat.le_max_l.
  pose proof (Hpages _ _ _ _ _ Hget Hdata) as Hlen.
  unfold process_page.
  destruct (process_tweets services output_path username (build_media_dict response)
              (tweet :: tweets) _) as [r2 st2] eqn:H2.
  apply process_tweets_spec in H2 as (Hp2 & _). simpl in Hp2, Hlen.
  assert (Hb : tweets_processed st2 <= max_tweets - 1 + bound) by lia.
  assert (Hmax : tweets_processed st2
                 <= Nat.max (tweets_processed st) (max_tweets - 1 + bound)).
  { etransitivity; [exact Hb | apply Nat.le_max_r]. }
  destruct r2 as [[]| |e]; try (intros [= <- <-]; exact Hmax).
  destruct (meta response !! "next_token"); [|intros [= <- <-]; exact Hmax].
  destruct (tweets_processed st2 <? max_tweets); [|intros [= <- <-]; exact Hmax].
  intros H. apply IH in H. etransitivity; [exact H|].
  apply Nat.max_lub; [exact Hmax | apply Nat.le_max_r].
Qed.

Lemma get_tweets_with_images_processed_bound (bound : nat) (bearer_token : option string)
    (username output_dir : string) (start_date : option string) (w : W) (disk : FS) :
  (forall request_params w response w' tweets,
      get_users_tweets services request_params w = (Ok response, w') ->
      data response = Some tweets -> length tweets <= bound) ->
  tweets_processed
    (snd (get_tweets_with_images services bearer_token username output_dir start_date w disk))
    <= max_tweets - 1 + bound.
Proof.
  intros Hpages. unfold get_tweets_with_images.
  destruct (negb (validate_credentials bearer_token)); [simpl; lia|].
  unfold on_disk. simpl fs.
  destruct (mkdir_exist_ok (Path_of output_dir) disk); [|simpl; lia].
  match goal with
  | |- context [get_user services username ?x] =>
      destruct (get_user services username x) as [[[user_id|]|e] w1]
  end; cbv beta iota; try (simpl; lia).
  match goal with
  | |- context [walk services ?f ?u ?o ?n ?d ?t ?s] =>
      pose proof (walk_processed_bound bound f u o n d t s) as Hbound;
      destruct (walk services f u o n d t s) as [[r st2]|]
  end; [|simpl; lia].
  specialize (Hbound r st2 Hpages eq_refl). simpl in Hbound.
  destruct r as [[]| |e]; exact Hbound.
Qed.

End RunFacts.

(* ===================================================================== *)
(** * Fail-fast on a failed download *)
(* ===================================================================== *)

(** C1, as the code has it. When the download of an image fails, the run
    ends at that point with the fail-fast [return]: the failed download is
    the last action of the run, so no later image of the post is attempted,
    no later post is processed, and [tweet.txt] of that post is not written
    (the actions of the post are its counting, its folder, and downloads
    that succeeded). On disk, every path other than the destination of the
    failed image is as it was before the failed attempt; the destination
    itself holds whatever part of the body was received. *)
Theorem failed_download_stops_run :
  forall (W : Type) (services : Services W) (bearer_token : option string)
         (username output_dir : string) (start_date : option string) (w : W) (disk : FS)
         (ending : Ending) (st : @State W) (pre post : list Event)
         (image_url : string) (save_path : Path) (response : HttpResponse),
    get_tweets_with_images services bearer_token username output_dir start_date w disk
      = (ending, st) ->
    trace st = pre ++ EvDownload image_url save_path response false :: post ->
    post = [] /\
    ending = DownloadFailed /\
    (exists before tweet folder urls downloads,
        pre = before ++ EvTweet tweet :: EvMkdir folder :: downloads /\
        Forall2 (download_of folder true) urls downloads /\
        save_path = truediv folder (extract_filename_from_url image_url)) /\
    fs st = effect (replay disk pre) (EvDownload image_url save_path response false) /\
    (forall p : Path, p <> save_path -> fs st !! p = replay disk pre !! p).
Proof.
  intros W services bearer_token username output_dir start_date w disk ending st pre post
         image_url save_path response Hrun Htrace.
  apply get_tweets_with_images_spec in Hrun as (Hfs & Hfail & Hquiet).
  assert (Hending : ending = DownloadFailed).
  { destruct ending; try reflexivity;
      (assert (Hq : quiet (trace st)) by (apply Hquiet; discriminate));
      rewrite Htrace in Hq; apply quiet_no_failure in Hq; discriminate. }
  destruct (Hfail Hending)
    as (before & tweet & folder & urls & downloads & failed & ev & Hshape & Hbefore & Hdl & Hev).
  assert (Hq : quiet (before ++ EvTweet tweet :: EvMkdir folder :: downloads)).
  { apply quiet_app; [exact Hbefore|]. do 2 (constructor; [reflexivity|]).
    eapply downloads_quiet; exact Hdl. }
  rewrite Htrace in Hshape.
  replace (before ++ EvTweet tweet :: EvMkdir folder :: downloads ++ [ev])
    with ((before ++ EvTweet tweet :: EvMkdir folder :: downloads) ++ [ev]) in Hshape
    by (now rewrite <- app_assoc).
  symmetry in Hshape.
  destruct (failure_is_last _ _ _ _ _ Hq Hshape eq_refl) as (Hpre & Hsame & Hpost).
  subst post. split; [reflexivity|]. split; [exact Hending|].
  destruct Hev as [response' Hev]. rewrite Hev in Hsame. injection Hsame as -> -> ->.
  split; [exists before, tweet, folder, urls, downloads; auto|].
  assert (Hdisk : fs st = effect (replay disk pre)
                            (EvDownload failed
                               (truediv folder (extract_filename_from_url failed))
                               response' false)).
  { rewrite Hfs, Htrace, replay_app. reflexivity. }
  split; [exact Hdisk|].
  intros p Hp. rewrite Hdisk. simpl. now apply store_response_other.
Qed.

Lemma failed_download_stops_run_witness :
  fst (get_tweets_with_images Samples.same_second_services (Some "token") "alice"
         "downloads" None tt ∅) = DownloadFailed.
Proof.
  set (run := get_tweets_with_images Samples.same_second_services (Some "token") "alice"
                "downloads" None tt ∅).
  refine (proj1 (proj2
    (failed_download_stops_run unit Samples.same_second_services (Some "token") "alice"
       "downloads" None tt ∅ (fst run) (snd run) (removelast (trace (snd run))) []
       "https://mirror.example/media/x.jpg" (Path_of "downloads/20250115_090503/x.jpg")
       (Stream ["JP"] false) _ _))).
  - apply surjective_pairing.
  - vm_compute. reflexivity.
Defined.

(** C1, as stated, fails on a timeline with two posts of the same second
    whose images have the same file name: the body of the second image
    breaks off after its first chunk, the run stops, and the image file the
    first post had written is no longer what it was. *)
Lemma partial_download_overwrites_earlier_post :
  let run := get_tweets_with_images Samples.same_second_services (Some "token") "alice"
               "downloads" None tt ∅ in
  let folder := Path_of "downloads/20250115_090503" in
  let image := Path_of "downloads/20250115_090503/x.jpg" in
  let pre := removelast (trace (snd run)) in
  fst run = DownloadFailed /\
  trace (snd run) =
    pre ++ [EvDownload "https://mirror.example/media/x.jpg" image (Stream ["JP"] false) false] /\
  nth_error pre 6 =
    Some (EvSaveTweet Samples.first_post folder "alice" ["https://pbs.twimg.com/media/x.jpg"]) /\
  replay ∅ pre !! image = Some (File "JPEGDATA") /\
  fs (snd run) !! image = Some (File "JP").
Proof. vm_compute. repeat split. Qed.

(* ===================================================================== *)
(** * The cap on processed posts *)
(* ===================================================================== *)

(** C2. The counter of processed posts is compared with [max_tweets] only
    before a page is fetched and after a page is finished, not inside the
    loop over the posts of a page: on three pages of 99 posts the run
    processes 297 posts, more than the cap of 200. *)
Theorem short_pages_exceed_cap :
  let run := get_tweets_with_images Samples.short_pages_services (Some "token") "alice"
               "downloads" None tt ∅ in
  fst run = Done /\
  tweets_processed (snd run) = 297 /\
  (max_tweets <? tweets_processed (snd run)) = true.
Proof. vm_compute. repeat split. Qed.

(* ===================================================================== *)
(** * The media join *)
(* ===================================================================== *)

Section MediaJoin.

Lemma find_app_first {A : Type} (f : A -> bool) (l1 l2 : list A) :
  List.find f (l1 ++ l2) =
  match List.find f l1 with
  | Some x => Some x
  | None => List.find f l2
  end.
Proof.
  induction l1 as [|a l1 IH]; simpl; [reflexivity|].
  destruct (f a); [reflexivity | exact IH].
Qed.

(** After the insertions of the page's media list, a key maps to the last
    media of the list that carries it. *)
Lemma media_dict_lookup (medias : list Media) (d : gmap string Media) (key : string) :
  fold_left (fun d media => <[media_key media := media]> d) medias d !! key =
  match resolve_media medias key with
  | Some media => Some media
  | None => d !! key
  end.
Proof.
  unfold resolve_media. revert d.
  induction medias as [|media rest IH]; intros d; simpl; [reflexivity|].
  rewrite IH, find_app_first.
  destruct (List.find _ (rev rest)); [reflexivity|]. simpl.
  destruct (String.eqb_spec (media_key media) key) as [->|Hne].
  - apply lookup_insert_eq.
  - now apply lookup_insert_ne.
Qed.

Lemma build_media_dict_lookup (response : Response) (key : string) :
  build_media_dict response !! key = resolve_media (included_media response) key.
Proof.
  unfold build_media_dict, included_media.
  destruct (includes response !! "media") as [medias|]; simpl.
  - rewrite media_dict_lookup, lookup_empty. now destruct (resolve_media medias key).
  - apply lookup_empty.
Qed.

Lemma photos_of_keys (media_dict : gmap string Media) (tweet : Tweet) :
  photos_of media_dict tweet = select_photos media_dict (attachment_keys tweet).
Proof.
  unfold photos_of, attachment_keys.
  destruct (attachments tweet) as [att|]; [|reflexivity].
  destruct (decide (att = ∅)) as [->|_]; [|reflexivity].
  now rewrite lookup_empty.
Qed.

Lemma select_photos_kept (response : Response) (keys : list string) :
  select_photos (build_media_dict response) keys =
  kept_photos (included_media response) keys.
Proof.
  induction keys as [|key rest IH]; simpl; [reflexivity|].
  rewrite build_media_dict_lookup, IH.
  destruct (resolve_media (included_media response) key) as [media|]; [|reflexivity].
  now destruct (String.eqb (type media) "photo").
Qed.

Lemma kept_photos_In (medias : list Media) (keys : list string) (media : Media) :
  In media (kept_photos medias keys) <->
  exists key, In key keys /\ resolve_media medias key = Some media /\ type media = "photo".
Proof.
  induction keys as [|key rest IH]; simpl.
  - split; [intros [] | intros (key & [] & _)].
  - destruct (resolve_media medias key) as [m|] eqn:Hres.
    + destruct (String.eqb_spec (type m) "photo") as [Hphoto|Hother]; simpl; rewrite IH.
      * split.
        -- intros [<- | (k & Hin & Hk)]; [exists key; auto|].
           exists k. split; [now right | exact Hk].
        -- intros (k & [<- | Hin] & Hk & Ht); [left; congruence|].
           right. exists k. auto.
      * split.
        -- intros (k & Hin & Hk). exists k. split; [now right | exact Hk].
        -- intros (k & [<- | Hin] & Hk & Ht); [congruence|]. exists k. auto.
    + rewrite IH. split.
      * intros (k & Hin & Hk). exists k. split; [now right | exact Hk].
      * intros (k & [<- | Hin] & Hk & Ht); [congruence|]. exists k. auto.
Qed.

End MediaJoin.

(** C5. For every page and every post in it, taken in the order the page
    lists them, the photos kept for the post are exactly the attachment keys
    that resolve, in the lookup built from that page's media list, to an
    attachment of type ["photo"], in key order; keys that do not resolve or
    resolve to another type are dropped without error; and a post for which
    no photo resolves gets no folder, leaves the disk as it was and does not
    increment the with-images count. *)
Theorem photos_are_resolved_photo_keys :
  forall (W : Type) (services : Services W) (output_path : Path) (username : string)
         (response : Response) (tweet : Tweet) (st : @State W),
    let media_dict := build_media_dict response in
    photos_of media_dict tweet
      = kept_photos (included_media response) (attachment_keys tweet) /\
    (forall media : Media,
        In media (photos_of media_dict tweet) <->
        exists key, In key (attachment_keys tweet) /\
                    resolve_media (included_media response) key = Some media /\
                    type media = "photo") /\
    (photos_of media_dict tweet = [] ->
     forall r st', process_tweet services output_path username media_dict tweet st = (r, st') ->
       r = Normal tt /\
       trace st' = trace st ++ [EvTweet tweet] /\
       fs st' = fs st /\
       tweets_with_images st' = tweets_with_images st /\
       tweets_processed st' = S (tweets_processed st)) /\
    (forall tweets r st',
        process_page services output_path username response tweets st = (r, st') ->
        exists evs rest,
          trace st' = trace st ++ evs /\
          tweets = tweet_events evs ++ rest /\
          (r = Normal tt -> rest = [])).
Proof.
  intros W services output_path username response tweet st media_dict.
  assert (Hkept : photos_of media_dict tweet
                  = kept_photos (included_media response) (attachment_keys tweet)).
  { subst media_dict. now rewrite photos_of_keys, select_photos_kept. }
  split; [exact Hkept|].
  split; [intros media; rewrite Hkept; apply kept_photos_In|].
  split.
  - intros Hnone r st' H. unfold process_tweet in H. rewrite Hnone in H.
    injection H as <- <-. repeat split; reflexivity.
  - intros tweets r st' H. unfold process_page in H.
    apply process_tweets_spec in H as (_ & _ & _ & evs & [Ht _] & _ & rest & Hrest & Hnil).
    exists evs, rest. auto.
Qed.

Lemma photos_are_resolved_photo_keys_witness :
  In (Samples.photo "k1" "https://pbs.twimg.com/media/ABC.jpg:large?x=1")
     (photos_of (build_media_dict Samples.hello_page) Samples.hello_post).
Proof.
  apply (proj1 (proj2
    (photos_are_resolved_photo_keys unit Samples.hello_services (Path_of "downloads") "alice"
       Samples.hello_page Samples.hello_post Samples.started))).
  exists "k1". vm_compute. auto.
Defined.

(* ===================================================================== *)
(** * Metadata of a post *)
(* ===================================================================== *)

Section Metadata.

Context {W : Type}.
Variable services : Services W.

Lemma present_urls_In (photos : list Media) (u : string) :
  In u (present_urls photos) <->
  exists photo, In photo photos /\ url photo = Some u /\ u <> EmptyString.
Proof.
  induction photos as [|photo rest IH]; simpl.
  - split; [intros [] | intros (photo & [] & _)].
  - unfold photo_url at 1.
    destruct (url photo) as [v|] eqn:Hv.
    + destruct (String.eqb_spec v EmptyString) as [->|Hne]; simpl; rewrite IH.
      * split.
        -- intros (p & Hin & Hp). exists p. split; [now right | exact Hp].
        -- intros (p & [<- | Hin] & Hp & Hu); [congruence|]. exists p. auto.
      * split.
        -- intros [<- | (p & Hin & Hp)]; [exists photo; auto|].
           exists p. split; [now right | exact Hp].
        -- intros (p & [<- | Hin] & Hp & Hu); [left; congruence|].
           right. exists p. auto.
    + rewrite IH. split.
      * intros (p & Hin & Hp). exists p. split; [now right | exact Hp].
      * intros (p & [<- | Hin] & Hp & Hu); [congruence|]. exists p. auto.
Qed.

Lemma present_urls_none (photos : list Media) :
  Forall (fun photo => photo_url photo = None) photos -> present_urls photos = [].
Proof.
  induction 1 as [|photo rest Hnone _ IH]; simpl; [reflexivity|]. now rewrite Hnone.
Qed.

Lemma tweet_txt_is_child (folder : Path) :
  truediv folder "tweet.txt" =
  {| anchored := anchored folder; parts := parts folder ++ ["tweet.txt"] |}.
Proof. now rewrite truediv_plain. Qed.

Lemma tweet_txt_not_folder (folder : Path) : folder <> truediv folder "tweet.txt".
Proof.
  rewrite tweet_txt_is_child. intros H. symmetry in H.
  apply path_same_parts in H. discriminate.
Qed.

(** Storing [tweet.txt] does not change what the folder's path denotes. *)
Lemma node_at_above_tweet_txt (disk : FS) (folder : Path) (node : Node) :
  node_at (<[truediv folder "tweet.txt" := node]> disk) folder = node_at disk folder.
Proof.
  apply node_at_insert_shorter. rewrite tweet_txt_is_child. simpl.
  rewrite length_app. simpl. lia.
Qed.

Lemma tweet_txt_parent (folder : Path) : parent (truediv folder "tweet.txt") = folder.
Proof.
  rewrite tweet_txt_is_child. unfold parent. simpl.
  rewrite removelast_last. now destruct folder.
Qed.

Lemma tweet_txt_not_root (folder : Path) (disk : FS) :
  node_at disk (truediv folder "tweet.txt") = disk !! truediv folder "tweet.txt".
Proof.
  rewrite tweet_txt_is_child.
  apply (node_at_named _ _ (parts folder) "tweet.txt"); [reflexivity | discriminate].
Qed.

(** On a disk where the output directory exists, the folder's path is not
    taken by a regular file and [tweet.txt] is not a directory, the folder
    can be created and [tweet.txt] opened. *)
Lemma post_folder_writable (output_path : Path) (tweet : Tweet) (disk : FS) :
  node_at disk output_path = Some Dir ->
  (forall content, disk !! folder_of output_path tweet <> Some (File content)) ->
  disk !! truediv (folder_of output_path tweet) "tweet.txt" <> Some Dir ->
  exists disk1 disk2,
    mkdir_exist_ok (folder_of output_path tweet) disk = Ok disk1 /\
    open_for_write (truediv (folder_of output_path tweet) "tweet.txt") disk1 = Ok disk2.
Proof.
  intros Hbase Hfree Htxt. unfold folder_of in *.
  set (folder := truediv output_path (strftime "%Y%m%d_%H%M%S" (created_at tweet))) in *.
  assert (Hmk : exists disk1, mkdir_exist_ok folder disk = Ok disk1).
  { unfold mkdir_exist_ok. subst folder. rewrite folder_not_root, folder_parent, Hbase.
    destruct (disk !! _) as [[|content]|] eqn:E; eauto.
    now destruct (Hfree content). }
  destruct Hmk as [disk1 Hmk]. exists disk1.
  pose proof (mkdir_exist_ok_disk _ _ _ Hmk) as [Hdir Hdisk1].
  assert (Hsame : disk1 !! truediv folder "tweet.txt" = disk !! truediv folder "tweet.txt").
  { destruct Hdisk1 as [-> | [_ ->]]; [reflexivity|].
    apply lookup_insert_ne. apply tweet_txt_not_folder. }
  unfold open_for_write.
  rewrite tweet_txt_not_root, tweet_txt_parent, Hdir, Hsame.
  destruct (disk !! truediv folder "tweet.txt") as [[|content]|]; eauto.
  now destruct Htxt.
Qed.

End Metadata.

(** C4. Whenever the metadata of a post is written, [tweet.txt] holds, in
    order: the identifier line, the creation-timestamp line, the author
    handle prefixed with [@], a [Text:] line followed by the body text, and,
    only when at least one URL was recorded, a blank line, the header
    [Image URLs:] and a list numbered from 1. The URLs listed are exactly
    those of the post's photos that have one, in photo order, and each of
    them was downloaded successfully before the file was written. *)
Theorem tweet_txt_layout :
  forall (W : Type) (services : Services W) (output_path : Path) (username : string)
         (media_dict : gmap string Media) (tweet : Tweet) (st st' : @State W),
    photos_of media_dict tweet <> [] ->
    process_tweet services output_path username media_dict tweet st = (Normal tt, st') ->
    let tweet_folder := folder_of output_path tweet in
    let image_urls := present_urls (photos_of media_dict tweet) in
    fs st' !! truediv tweet_folder "tweet.txt"
      = Some (File (metadata_text tweet username image_urls)) /\
    (exists downloads,
        trace st' = trace st ++ EvTweet tweet :: EvMkdir tweet_folder :: downloads ++
                      [EvSaveTweet tweet tweet_folder username image_urls] /\
        Forall2 (download_of tweet_folder true) image_urls downloads) /\
    (forall u : string,
        In u image_urls <->
        exists photo, In photo (photos_of media_dict tweet) /\ url photo = Some u /\ u <> EmptyString) /\
    (forall (folder_path : Path) (urls : option (list string)) (disk disk' : FS),
        save_tweet_content_v2 tweet folder_path username urls disk = Ok disk' ->
        disk' !! truediv folder_path "tweet.txt"
          = Some (File (metadata_text tweet username (default [] urls)))) /\
    metadata_text {| id := 42; created_at := Samples.morning; text := "hello";
                     attachments := None |} "alice" ["u1"; "u2"]
      = "Tweet ID: 42" +:+ nl +:+
        "Created at: 2025-01-15 09:05:03+00:00" +:+ nl +:+
        "Author: @alice" +:+ nl +:+
        "Text:" +:+ nl +:+ "hello" +:+ nl +:+
        nl +:+ "Image URLs:" +:+ nl +:+
        "  1. u1" +:+ nl +:+ "  2. u2" +:+ nl.
Proof.
  intros W services output_path username media_dict tweet st st' Hphotos Hrun
         tweet_folder image_urls.
  apply process_tweet_spec in Hrun as (_ & evs & [Htrace _] & Hcases).
  destruct Hcases as [(Hnone & _) | (_ & _ & Hcases)]; [contradiction|].
  destruct Hcases as [(e & _ & _ & Hr) | (fs1 & _ & Hcases)]; [discriminate|].
  destruct Hcases as [(? & ? & ? & ? & ? & _ & _ & _ & _ & Hr) | (downloads & Hall & -> & Hsave)];
    [discriminate|].
  fold tweet_folder image_urls in Hall, Hsave, Htrace.
  destruct (save_tweet_content_v2 tweet tweet_folder username (Some image_urls) _)
    as [fs3|e] eqn:Hsaved; [|discriminate].
  destruct Hsave as [_ Hfs]. apply save_tweet_content_v2_disk in Hsaved.
  split; [rewrite Hfs, Hsaved; apply lookup_insert_eq|].
  split; [exists downloads; auto|].
  split; [intros u; apply present_urls_In|].
  split; [|reflexivity].
  intros folder_path urls disk disk' Hok.
  apply save_tweet_content_v2_disk in Hok as ->. apply lookup_insert_eq.
Qed.

Lemma tweet_txt_layout_witness :
  let run := process_tweet Samples.hello_services (Path_of "downloads") "alice"
               (build_media_dict Samples.hello_page) Samples.hello_post Samples.started in
  fs (snd run) !! truediv (folder_of (Path_of "downloads") Samples.hello_post) "tweet.txt"
  = Some (File (metadata_text Samples.hello_post "alice"
                  (present_urls (photos_of (build_media_dict Samples.hello_page)
                                   Samples.hello_post)))).
Proof.
  intros run.
  refine (proj1
    (tweet_txt_layout unit Samples.hello_services (Path_of "downloads") "alice"
       (build_media_dict Samples.hello_page) Samples.hello_post Samples.started
       (snd run) _ _)).
  - vm_compute. discriminate.
  - transitivity (fst run, snd run); [apply surjective_pairing|].
    refine (f_equal (fun flow => (flow, snd run)) _). vm_compute. reflexivity.
Defined.

(** A post whose photos all lack a URL, in terms of the two file-system
    calls it makes. *)
Lemma photos_without_url_spec :
  forall (W : Type) (services : Services W) (output_path : Path) (username : string)
         (media_dict : gmap string Media) (tweet : Tweet) (st : @State W)
         (r : Flow unit) (st' : @State W),
    photos_of media_dict tweet <> [] ->
    Forall (fun photo => photo_url photo = None) (photos_of media_dict tweet) ->
    process_tweet services output_path username media_dict tweet st = (r, st') ->
    let tweet_folder := folder_of output_path tweet in
    tweets_with_images st' = S (tweets_with_images st) /\
    r <> Return /\
    (exists evs,
        trace st' = trace st ++ EvTweet tweet :: EvMkdir tweet_folder :: evs /\
        (evs = [] \/ evs = [EvSaveTweet tweet tweet_folder username []])) /\
    (forall fs1 fs2 : FS,
        mkdir_exist_ok tweet_folder (fs st) = Ok fs1 ->
        open_for_write (truediv tweet_folder "tweet.txt") fs1 = Ok fs2 ->
        r = Normal tt /\
        node_at (fs st') tweet_folder = Some Dir /\
        trace st' = trace st ++ [EvTweet tweet; EvMkdir tweet_folder;
                                 EvSaveTweet tweet tweet_folder username []] /\
        fs st' !! truediv tweet_folder "tweet.txt"
          = Some (File (metadata_header tweet username))).
Proof.
  intros W services output_path username media_dict tweet st r st' Hphotos Hnone Hrun
         tweet_folder.
  apply present_urls_none in Hnone.
  apply process_tweet_spec in Hrun as (_ & evs & [Htrace _] & Hcases).
  rewrite Hnone in Hcases. fold tweet_folder in Hcases, Htrace.
  destruct Hcases as [(Hnil & _) | (_ & Himages & Hcases)]; [contradiction|].
  split; [exact Himages|].
  destruct Hcases as [(e & Hmk & -> & ->) | (fs1 & Hmk & Hcases)].
  { split; [discriminate|]. split; [exists []; auto|].
    intros fs1 fs2 Hok. congruence. }
  destruct Hcases as
    [(done & failed & later & ? & ? & Hsplit & _) | (downloads & Hall & -> & Hsave)].
  { now destruct done. }
  inversion Hall; subst downloads. simpl app in *.
  assert (Hreplay : replay (fs st) [EvMkdir tweet_folder] = fs1).
  { unfold replay. simpl. now rewrite Hmk. }
  rewrite Hreplay in Hsave.
  split.
  { destruct (save_tweet_content_v2 _ _ _ _ _); [destruct Hsave as [-> _] | subst r];
      discriminate. }
  split; [eexists; split; [exact Htrace | now right]|].
  intros fs1' fs2 Hmk' Hopen. rewrite Hmk in Hmk'. injection Hmk' as <-.
  destruct (save_tweet_content_v2 tweet tweet_folder username (Some []) fs1)
    as [fs3|e] eqn:Hsaved.
  2:{ unfold save_tweet_content_v2 in Hsaved. rewrite Hopen in Hsaved. discriminate. }
  destruct Hsave as [-> Hfs]. apply save_tweet_content_v2_disk in Hsaved.
  simpl default in Hsaved. unfold metadata_text in Hsaved.
  rewrite append_empty_r in Hsaved. subst fs3.
  split; [reflexivity|]. rewrite Hfs.
  split.
  - rewrite node_at_above_tweet_txt.
    now apply mkdir_exist_ok_disk in Hmk as [Hdir _].
  - split; [exact Htrace | apply lookup_insert_eq].
Qed.

(** C9. For a post whose attachments resolve to at least one photo, none of
    which has a URL, the run still counts the post among those with images
    and still calls for its folder; it attempts no download and does not
    take the fail-fast [return]; and, on a disk where the output directory exists, the folder's
    path is not taken by a regular file and [tweet.txt] is not a directory,
    it creates the folder and ends normally with a [tweet.txt] that stops after
    the body text, without any [Image URLs:] section. *)
Theorem photos_without_url_still_write_metadata :
  forall (W : Type) (services : Services W) (output_path : Path) (username : string)
         (media_dict : gmap string Media) (tweet : Tweet) (st : @State W)
         (r : Flow unit) (st' : @State W),
    photos_of media_dict tweet <> [] ->
    Forall (fun photo => photo_url photo = None) (photos_of media_dict tweet) ->
    process_tweet services output_path username media_dict tweet st = (r, st') ->
    let tweet_folder := folder_of output_path tweet in
    tweets_with_images st' = S (tweets_with_images st) /\
    r <> Return /\
    (exists evs,
        trace st' = trace st ++ EvTweet tweet :: EvMkdir tweet_folder :: evs /\
        (evs = [] \/ evs = [EvSaveTweet tweet tweet_folder username []])) /\
    (node_at (fs st) output_path = Some Dir ->
     (forall content, fs st !! tweet_folder <> Some (File content)) ->
     fs st !! truediv tweet_folder "tweet.txt" <> Some Dir ->
     r = Normal tt /\
     node_at (fs st') tweet_folder = Some Dir /\
     trace st' = trace st ++ [EvTweet tweet; EvMkdir tweet_folder;
                              EvSaveTweet tweet tweet_folder username []] /\
     fs st' !! truediv tweet_folder "tweet.txt"
       = Some (File (metadata_header tweet username))).
Proof.
  intros W services output_path username media_dict tweet st r st' Hphotos Hnone Hrun
         tweet_folder.
  destruct (photos_without_url_spec W services output_path username media_dict tweet st r st'
              Hphotos Hnone Hrun) as (Himages & Hflow & Hevs & Hdisk).
  split; [exact Himages|]. split; [exact Hflow|]. split; [exact Hevs|].
  intros Hbase Hfree Htxt.
  destruct (post_folder_writable output_path tweet (fs st) Hbase Hfree Htxt)
    as (disk1 & disk2 & Hmk & Hopen).
  exact (Hdisk disk1 disk2 Hmk Hopen).
Qed.

Lemma photos_without_url_still_write_metadata_witness :
  fst (process_tweet Samples.silent_services (Path_of "downloads") "alice"
         (build_media_dict Samples.silent_page) Samples.silent_post Samples.started)
    = Normal tt.
Proof.
  set (run := process_tweet Samples.silent_services (Path_of "downloads") "alice"
                (build_media_dict Samples.silent_page) Samples.silent_post Samples.started).
  refine (proj1
    (proj2 (proj2 (proj2
       (photos_without_url_still_write_metadata unit Samples.silent_services
          (Path_of "downloads") "alice" (build_media_dict Samples.silent_page)
          Samples.silent_post Samples.started (fst run) (snd run) _ _ _)))
       _ _ _)).
  - vm_compute. discriminate.
  - vm_compute. repeat constructor.
  - apply surjective_pairing.
  - vm_compute. reflexivity.
  - intros content. vm_compute. discriminate.
  - vm_compute. discriminate.
Defined.

(* ===================================================================== *)
(** * The run: forms of the actions, counters and page requests *)
(* ===================================================================== *)

Section RunActions.

Context {W : Type}.
Variable services : Services W.

Implicit Types (st : @State W) (evs : list Event).

Lemma fetch_requests_app evs1 evs2 :
  fetch_requests (evs1 ++ evs2) = fetch_requests evs1 ++ fetch_requests evs2.
Proof. unfold fetch_requests. apply flat_map_app. Qed.

Lemma downloads_no_fetch (folder : Path) (ok : bool) (urls : list string) evs :
  Forall2 (download_of folder ok) urls evs -> fetch_requests evs = [].
Proof.
  induction 1 as [|u ev urls evs [response ->] _ IH]; [reflexivity | exact IH].
Qed.

Lemma downloads_are_actions (output_path : Path) (username : string) (tweet : Tweet)
    (ok : bool) (urls : list string) evs :
  Forall2 (download_of (folder_of output_path tweet) ok) urls evs ->
  Forall (run_action output_path username) evs.
Proof.
  induction 1 as [|u ev urls evs [response ->] _ IH]; constructor; [|exact IH].
  now exists tweet.
Qed.

Lemma block_adds_refl (output_path : Path) (username : string) st :
  block_adds output_path username st [] st.
Proof.
  unfold block_adds. simpl. rewrite app_nil_r.
  repeat split; try constructor; lia.
Qed.

Lemma block_adds_trans (output_path : Path) (username : string) st1 st2 st3 evs1 evs2 :
  block_adds output_path username st1 evs1 st2 ->
  block_adds output_path username st2 evs2 st3 ->
  block_adds output_path username st1 (evs1 ++ evs2) st3.
Proof.
  intros (T1 & A1 & P1 & I1 & J1) (T2 & A2 & P2 & I2 & J2).
  unfold block_adds. rewrite tweet_events_app, length_app.
  split; [now rewrite T2, T1, app_assoc|].
  split; [now apply Forall_app_2|]. lia.
Qed.

(** The actions of one post. *)
Lemma process_tweet_adds (output_path : Path) (username : string)
    (media_dict : gmap string Media) (tweet : Tweet) st r st' :
  process_tweet services output_path username media_dict tweet st = (r, st') ->
  exists evs,
    block_adds output_path username st evs st' /\
    tweet_events evs = [tweet] /\ fetch_requests evs = [].
Proof.
  intros H.
  pose proof (process_tweet_shape services _ _ _ _ _ _ _ H) as (_ & _ & evs' & [Ht' _] & _ & Hte).
  apply process_tweet_spec in H as (Hp & evs & [Ht _] & Hcases).
  assert (evs' = EvTweet tweet :: evs) as ->.
  { rewrite Ht in Ht'. now apply app_inv_head in Ht'. }
  exists (EvTweet tweet :: evs).
  assert (Hgoal : Forall (run_action output_path username) evs /\
                  fetch_requests evs = [] /\
                  tweets_with_images st <= tweets_with_images st' <= S (tweets_with_images st)).
  { destruct Hcases as [(_ & -> & _ & Hi) | (_ & Hi & Hcases)].
    { split; [constructor|]. split; [reflexivity | lia]. }
    destruct Hcases as [(e & _ & -> & _) | (fs1 & _ & Hcases)].
    { split; [|split; [reflexivity | lia]].
      constructor; [|constructor]. right. now exists tweet. }
    destruct Hcases as
      [(done & failed & later & downloads & ev & _ & -> & Hdone & Hev & _) |
       (downloads & Hall & -> & _)].
    - split; [|split; [|lia]].
      + constructor; [right; now exists tweet|].
        apply Forall_app_2; [eapply downloads_are_actions; exact Hdone|].
        constructor; [|constructor]. destruct Hev as [response ->]. now exists tweet.
      + simpl. rewrite fetch_requests_app, (downloads_no_fetch _ _ _ _ Hdone).
        destruct Hev as [response ->]. reflexivity.
    - split; [|split; [|lia]].
      + constructor; [right; now exists tweet|].
        apply Forall_app_2; [eapply downloads_are_actions; exact Hall|].
        constructor; [|constructor]. split; reflexivity.
      + simpl. rewrite fetch_requests_app, (downloads_no_fetch _ _ _ _ Hall). reflexivity. }
  destruct Hgoal as (Hact & Hfetch & Hi).
  split; [|split; [exact Hte | exact Hfetch]].
  unfold block_adds. rewrite Hte. simpl length.
  split; [exact Ht|]. split; [constructor; [exact I | exact Hact]|]. lia.
Qed.

(** The actions of the posts of a page. *)
Lemma process_tweets_adds (output_path : Path) (username : string)
    (media_dict : gmap string Media) (tweets : list Tweet) st r st' :
  process_tweets services output_path username media_dict tweets st = (r, st') ->
  exists evs,
    block_adds output_path username st evs st' /\ fetch_requests evs = [].
Proof.
  revert st. induction tweets as [|tweet rest IH]; intros st; simpl.
  - intros [= <- <-]. exists []. split; [apply block_adds_refl | reflexivity].
  - destruct (process_tweet services output_path username media_dict tweet st)
      as [r1 st1] eqn:H1.
    apply process_tweet_adds in H1 as (evs1 & Hadd1 & _ & Hf1).
    destruct r1 as [[]| |e].
    + intros H. apply IH in H as (evs & Hadd & Hf).
      exists (evs1 ++ evs). split; [eapply block_adds_trans; eassumption|].
      now rewrite fetch_requests_app, Hf1, Hf.
    + intros [= <- <-]. eauto.
    + intros [= <- <-]. eauto.
Qed.

(** The paginated loop: forms of the actions, counters, and the chain of
    page requests, of which there are no more than posts left under the
    cap. *)
Lemma walk_adds (fuel : nat) (user_id : Z) (output_path : Path) (username : string)
    (start_date pagination_token : option string) st r st' :
  walk services fuel user_id output_path username start_date pagination_token st
    = Some (r, st') ->
  exists evs,
    block_adds output_path username st evs st' /\
    fetch_chain services user_id start_date pagination_token (fetch_requests evs) /\
    length (fetch_requests evs) <= max_tweets - tweets_processed st.
Proof.
  revert pagination_token st.
  induction fuel as [|fuel IH]; intros pagination_token st; simpl; [discriminate|].
  destruct (tweets_processed st <? max_tweets) eqn:Hlt.
  2:{ intros [= <- <-]. exists []. split; [apply block_adds_refl|]. simpl. split; [exact I | lia]. }
  apply Nat.ltb_lt in Hlt.
  set (params := make_request_params user_id pagination_token start_date).
  assert (Hadd0 : forall w, block_adds output_path username st [EvFetchPage params]
                              (set_world w (record (EvFetchPage params) st))).
  { intros w. unfold block_adds. simpl. repeat split; try lia. repeat constructor. }
  destruct (get_users_tweets services params (world st)) as [response w] eqn:Hget.
  assert (Hone : forall r0, Some (r0, set_world w (record (EvFetchPage params) st)) = Some (r, st') ->
             exists evs,
               block_adds output_path username st evs st' /\
               fetch_chain services user_id start_date pagination_token (fetch_requests evs) /\
               length (fetch_requests evs) <= max_tweets - tweets_processed st).
  { intros r0 [= <- <-]. exists [EvFetchPage params]. split; [apply Hadd0|].
    simpl. split; [split; [reflexivity | now left] | lia]. }
  destruct response as [response|e]; [|apply Hone].
  destruct (data response) as [[|tweet tweets]|]; [apply Hone | | apply Hone].
  unfold process_page.
  destruct (process_tweets services output_path username (build_media_dict response)
              (tweet :: tweets) _) as [r2 st2] eqn:H2.
  pose proof (process_tweets_spec services _ _ _ _ _ _ _ H2) as (_ & _ & Hn & _).
  apply process_tweets_adds in H2 as (evs2 & Hadd2 & Hf2).
  pose proof (block_adds_trans _ _ _ _ _ _ _ (Hadd0 w) Hadd2) as Hadd.
  assert (Hstop : forall r0, Some (r0, st2) = Some (r, st') ->
             exists evs,
               block_adds output_path username st evs st' /\
               fetch_chain services user_id start_date pagination_token (fetch_requests evs) /\
               length (fetch_requests evs) <= max_tweets - tweets_processed st).
  { intros r0 [= <- <-]. exists ([EvFetchPage params] ++ evs2). split; [exact Hadd|].
    rewrite fetch_requests_app, Hf2. simpl.
    split; [split; [reflexivity | now left] | lia]. }
  destruct r2 as [[]| |e]; [|apply Hstop..].
  destruct (meta response !! "next_token") as [next_token|] eqn:Hnext; [|apply Hstop].
  destruct (tweets_processed st2 <? max_tweets) eqn:Hlt2; [|apply Hstop].
  apply Nat.ltb_lt in Hlt2. specialize (Hn eq_refl). simpl in Hn.
  intros H. apply IH in H as (evs & Hadd3 & Hchain & Hlen).
  exists (([EvFetchPage params] ++ evs2) ++ evs).
  split; [eapply block_adds_trans; eassumption|].
  rewrite !fetch_requests_app, Hf2. simpl.
  split; [|lia].
  split; [reflexivity|].
  destruct (fetch_requests evs) as [|request rest] eqn:Hreq; [now left|].
  right. exists (world st), response, w, next_token. auto.
Qed.

End RunActions.

Section RunSummary.

Context {W : Type}.
Variable services : Services W.

Implicit Types (st : @State W) (evs : list Event).

Lemma get_tweets_with_images_adds (bearer_token : option string) (username output_dir : string)
    (start_date : option string) (w : W) (disk : FS) (ending : Ending) st :
  get_tweets_with_images services bearer_token username output_dir start_date w disk
    = (ending, st) ->
  block_adds (Path_of output_dir) username (initial_state w disk) (trace st) st /\
  length (fetch_requests (trace st)) <= max_tweets /\
  match fst (get_user services username w) with
  | Ok (Some user_id) =>
      fetch_chain services user_id start_date None (fetch_requests (trace st))
  | Ok None | Raise _ => fetch_requests (trace st) = []
  end.
Proof.
  unfold get_tweets_with_images.
  assert (Hnil : forall s : @State W, trace s = [] ->
            tweets_processed s = 0 -> tweets_with_images s = 0 ->
            block_adds (Path_of output_dir) username (initial_state w disk) (trace s) s /\
            length (fetch_requests (trace s)) <= max_tweets /\
            match fst (get_user services username w) with
            | Ok (Some user_id) =>
                fetch_chain services user_id start_date None (fetch_requests (trace s))
            | Ok None | Raise _ => fetch_requests (trace s) = []
            end).
  { intros s Hs Hp Hi. rewrite Hs. unfold block_adds. simpl. rewrite Hs, Hp, Hi.
    split; [repeat split; try constructor; lia|]. split; [lia|].
    destruct (fst (get_user services username w)) as [[?|]|]; simpl; auto. }
  destruct (negb (validate_credentials bearer_token)).
  { intros [= <- <-]. now apply Hnil. }
  unfold on_disk. simpl fs.
  set (output_path := Path_of output_dir).
  assert (Hstart : forall s : @State W,
            trace s = [EvMkdir output_path] \/
            trace s = [EvMkdir output_path; EvGetUser username] ->
            tweets_processed s = 0 -> tweets_with_images s = 0 ->
            block_adds output_path username (initial_state w disk) (trace s) s).
  { intros s Hs Hp Hi. unfold block_adds. simpl. rewrite Hp, Hi.
    destruct Hs as [-> | ->]; simpl; repeat split; try lia;
      repeat constructor; now left. }
  destruct (mkdir_exist_ok output_path disk) as [disk1|e].
  2:{ intros [= <- <-]. split; [now apply Hstart; auto|]. simpl. split; [lia|].
      destruct (fst (get_user services username w)) as [[?|]|]; simpl; auto. }
  cbn [world record set_fs initial_state].
  destruct (get_user services username w) as [user w1]. cbn [fst].
  destruct user as [[user_id|]|e].
  2,3: intros [= <- <-]; (split; [now apply Hstart; auto|]); simpl; split; [lia | reflexivity].
  match goal with
  | |- context [walk services ?f ?u ?o ?n ?d ?t ?s] =>
      pose proof (Hstart s (or_intror eq_refl) eq_refl eq_refl) as Hadd1;
      pose proof (walk_adds services f u o n d t s) as Hwalk;
      destruct (walk services f u o n d t s) as [[r st2]|]
  end.
  2:{ intros [= <- <-]. split; [exact Hadd1|]. simpl. split; [lia | exact I]. }
  destruct (Hwalk r st2 eq_refl) as (evs & Hadd2 & Hchain & Hlen).
  pose proof (block_adds_trans _ _ _ _ _ _ _ Hadd1 Hadd2) as Hadd.
  assert (Htrace : trace st2 = [EvMkdir output_path; EvGetUser username] ++ evs)
    by (destruct Hadd2 as [-> _]; reflexivity).
  assert (Hgoal : block_adds output_path username (initial_state w disk) (trace st2) st2 /\
                  length (fetch_requests (trace st2)) <= max_tweets /\
                  fetch_chain services user_id start_date None (fetch_requests (trace st2))).
  { rewrite Htrace. split; [exact Hadd|].
    rewrite fetch_requests_app.
    change (fetch_requests [EvMkdir output_path; EvGetUser username]) with (@nil RequestParams).
    rewrite app_nil_l. split; [|exact Hchain].
    etransitivity; [exact Hlen | apply Nat.le_sub_l]. }
  destruct r as [[]| |e]; intros [= <- <-]; exact Hgoal.
Qed.

End RunSummary.

(** X1. Every call of [get_tweets_with_images] comes to an end: the
    paginated loop stops by itself, whatever the services answer, and a call
    makes at most [max_tweets] (200) page requests. *)
Theorem run_ends_after_bounded_requests :
  forall (W : Type) (services : Services W) (bearer_token : option string)
         (username output_dir : string) (start_date : option string) (w : W) (disk : FS),
    let run :=
      get_tweets_with_images services bearer_token username output_dir start_date w disk in
    fst run <> OutOfFuel /\
    length (fetch_requests (trace (snd run))) <= max_tweets.
Proof.
  intros W services bearer_token username output_dir start_date w disk run.
  split; [apply get_tweets_with_images_terminates|].
  destruct run as [ending st] eqn:Hrun. subst run.
  now apply get_tweets_with_images_adds in Hrun as (_ & Hlen & _).
Qed.

(** X2. Pagination: the first page request carries no pagination token, and
    every later request carries the [next_token] of the page that answered
    the request before it; every request asks for at most 100 posts of the
    resolved user, without retweets and replies, and carries the start date
    followed by [T00:00:00Z] as start time when a start date was given.
    When the user is not resolved, no page is requested. *)
Theorem page_requests_follow_next_token :
  forall (W : Type) (services : Services W) (bearer_token : option string)
         (username output_dir : string) (start_date : option string) (w : W) (disk : FS),
    let run :=
      get_tweets_with_images services bearer_token username output_dir start_date w disk in
    match fst (get_user services username w) with
    | Ok (Some user_id) =>
        fetch_chain services user_id start_date None (fetch_requests (trace (snd run))) /\
        Forall (fun request_params =>
                  req_id request_params = user_id /\
                  max_results request_params = 100 /\
                  exclude request_params = ["retweets"; "replies"] /\
                  start_time request_params =
                    match start_date with
                    | Some d => if String.eqb d EmptyString then None
                                else Some (d +:+ "T00:00:00Z")
                    | None => None
                    end)
               (fetch_requests (trace (snd run)))
    | Ok None | Raise _ => fetch_requests (trace (snd run)) = []
    end.
Proof.
  intros W services bearer_token username output_dir start_date w disk run.
  destruct run as [ending st] eqn:Hrun. subst run.
  apply get_tweets_with_images_adds in Hrun as (_ & _ & Hchain). cbn [snd].
  destruct (fst (get_user services username w)) as [[user_id|]|e]; try exact Hchain.
  split; [exact Hchain|].
  assert (Hall : forall token requests,
             fetch_chain services user_id start_date token requests ->
             Forall (fun request_params =>
                       request_params =
                       make_request_params user_id (pagination_token request_params) start_date)
                    requests).
  { intros token requests. revert token.
    induction requests as [|request rest IH]; intros token Hc; constructor.
    - destruct Hc as [-> _]. reflexivity.
    - destruct Hc as [_ [-> | (w0 & response & w' & next & _ & _ & Hrest)]];
        [constructor | eapply IH; exact Hrest]. }
  eapply Forall_impl; [exact (Hall _ _ Hchain)|].
  intros request ->. unfold make_request_params. cbn. auto.
Qed.

(** X3. The two counters of a run: the counter of processed posts is the
    number of posts whose processing started, and the counter of posts with
    images never exceeds it. *)
Theorem counters_count_posts :
  forall (W : Type) (services : Services W) (bearer_token : option string)
         (username output_dir : string) (start_date : option string) (w : W) (disk : FS),
    let run :=
      get_tweets_with_images services bearer_token username output_dir start_date w disk in
    tweets_processed (snd run) = length (tweet_events (trace (snd run))) /\
    tweets_with_images (snd run) <= tweets_processed (snd run).
Proof.
  intros W services bearer_token username output_dir start_date w disk run.
  destruct run as [ending st] eqn:Hrun. subst run.
  apply get_tweets_with_images_adds in Hrun as ((_ & _ & Hp & _ & Hi) & _). cbn [snd].
  simpl in Hp, Hi. lia.
Qed.

(* ===================================================================== *)
(** * What a run leaves on disk *)
(* ===================================================================== *)

Section DiskOfRun.

Implicit Types (disk : FS) (evs : list Event).

(** An action changes at most the path it touches. *)
Lemma effect_untouched disk (ev : Event) (q : Path) :
  touched ev <> Some q -> effect disk ev !! q = disk !! q.
Proof.
  destruct ev as [u|params|tweet|folder|image_url save_path response ok|tweet folder user urls];
    simpl; intros Hq; try reflexivity.
  - destruct (mkdir_exist_ok folder disk) as [disk'|e] eqn:Hmk; [|reflexivity].
    apply mkdir_exist_ok_disk in Hmk as [_ [-> | [_ ->]]]; [reflexivity|].
    apply lookup_insert_ne. congruence.
  - apply store_response_other. congruence.
  - destruct (save_tweet_content_v2 tweet folder user (Some urls) disk) as [disk'|e] eqn:Hsave;
      [|reflexivity].
    apply save_tweet_content_v2_disk in Hsave as ->.
    apply lookup_insert_ne. congruence.
Qed.

Lemma replay_changed disk evs (q : Path) :
  replay disk evs !! q <> disk !! q -> exists ev, In ev evs /\ touched ev = Some q.
Proof.
  revert disk. induction evs as [|ev rest IH]; intros disk; simpl; [congruence|].
  intros Hq. destruct (decide (touched ev = Some q)) as [Hev|Hev]; [eauto|].
  fold (replay (effect disk ev) rest) in Hq.
  rewrite <- (effect_untouched disk ev q Hev) in Hq.
  destruct (IH _ Hq) as (ev' & Hin & Ht). eauto.
Qed.

(** The paths touched by the actions of a run lie in the output directory. *)
Lemma action_inside (output_path : Path) (username : string) (ev : Event) (q : Path) :
  run_action output_path username ev -> touched ev = Some q -> inside output_path q.
Proof.
  destruct ev as [u|params|tweet|folder|image_url save_path response ok|tweet folder user urls];
    simpl; intros Hact [= <-].
  - destruct Hact as [-> | [tweet ->]].
    + split; [reflexivity|]. exists []. rewrite app_nil_r. simpl. auto.
    + unfold folder_of. rewrite folder_is_child. split; [reflexivity|].
      eexists. split; [reflexivity|]. simpl. lia.
  - destruct Hact as [tweet ->]. unfold folder_of.
    rewrite truediv_plain by (apply extract_filename_without; now right).
    rewrite folder_is_child. simpl. split; [reflexivity|].
    rewrite <- app_assoc. eexists. split; [reflexivity|].
    rewrite length_app. simpl. destruct (kept_segment _); simpl; lia.
  - destruct Hact as [-> _]. unfold folder_of.
    rewrite tweet_txt_is_child, folder_is_child. simpl. split; [reflexivity|].
    rewrite <- app_assoc. eexists. split; [reflexivity|]. simpl. lia.
Qed.

End DiskOfRun.

(** X4. A run never creates or modifies a path outside its output
    directory: every path whose content differs between the disk before and
    the disk after the call is the output directory itself, a folder
    directly in it, or an entry directly in such a folder. *)
Theorem run_writes_only_inside_output_directory :
  forall (W : Type) (services : Services W) (bearer_token : option string)
         (username output_dir : string) (start_date : option string) (w : W) (disk : FS)
         (q : Path),
    let run :=
      get_tweets_with_images services bearer_token username output_dir start_date w disk in
    fs (snd run) !! q <> disk !! q ->
    inside (Path_of output_dir) q.
Proof.
  intros W services bearer_token username output_dir start_date w disk q run.
  destruct run as [ending st] eqn:Hrun. subst run. cbn [snd].
  pose proof (get_tweets_with_images_spec services _ _ _ _ _ _ _ _ Hrun) as (Hfs & _).
  apply get_tweets_with_images_adds in Hrun as ((_ & Hact & _) & _).
  rewrite Hfs. intros Hq.
  apply replay_changed in Hq as (ev & Hin & Ht).
  rewrite List.Forall_forall in Hact.
  eapply action_inside; [apply Hact; exact Hin | exact Ht].
Qed.

Lemma run_writes_only_inside_output_directory_witness :
  inside (Path_of "downloads") (Path_of "downloads/20250115_090503/tweet.txt").
Proof.
  apply (run_writes_only_inside_output_directory unit Samples.hello_services (Some "token")
           "alice" "downloads" None tt ∅).
  vm_compute. discriminate.
Defined.

(** X5. What [download_image] does, for every answer of the image host.
    It returns [True] only when the whole body was received, and then the
    destination holds exactly the chunks received, in order. When the
    request itself fails the disk is left as it was. When the body breaks
    off after the destination was opened, [False] is returned and the
    destination is left with the chunks received so far. In every case no
    other path is changed, and the two counters are not. *)
Theorem download_image_outcome :
  forall (W : Type) (services : Services W) (image_url : string) (save_path : Path)
         (st : @State W),
    let response := fst (requests_get services (original_url image_url) (world st)) in
    let ok := fst (download_image services image_url save_path st) in
    let st' := snd (download_image services image_url save_path st) in
    (ok = true ->
     exists chunks, response = Stream chunks true /\
                    fs st' !! save_path = Some (File (String.concat EmptyString chunks))) /\
    (response = RequestFailed -> ok = false /\ fs st' = fs st) /\
    (forall chunks disk',
        response = Stream chunks false -> open_for_write save_path (fs st) = Ok disk' ->
        ok = false /\
        fs st' !! save_path = Some (File (String.concat EmptyString chunks))) /\
    (forall q, q <> save_path -> fs st' !! q = fs st !! q) /\
    tweets_processed st' = tweets_processed st /\
    tweets_with_images st' = tweets_with_images st.
Proof.
  intros W services image_url save_path st. unfold download_image.
  destruct (requests_get services (original_url image_url) (world st)) as [response w].
  cbn [fst].
  pose proof (store_response_disk response save_path (fs st)) as Hdisk.
  pose proof (store_response_other response save_path) as Hother.
  destruct (store_response response save_path (fs st)) as [ok disk'] eqn:Hstore.
  cbn [fst snd fs record set_fs set_world tweets_processed tweets_with_images] in *.
  split; [|split; [|split; [|split; [|split; reflexivity]]]].
  - intros ->. destruct response as [|chunks complete]; simpl in Hstore; [congruence|].
    destruct (open_for_write save_path (fs st)) as [d|e]; [|congruence].
    injection Hstore as -> _. exists chunks. split; [reflexivity|].
    rewrite Hdisk. apply lookup_insert_eq.
  - intros ->. simpl in Hstore. injection Hstore as <- <-. auto.
  - intros chunks d -> Hopen. simpl in Hstore. rewrite Hopen in Hstore, Hdisk.
    injection Hstore as <- _. split; [reflexivity|].
    rewrite Hdisk. apply lookup_insert_eq.
  - intros q Hq. specialize (Hother q (fs st) Hq). now rewrite Hstore in Hother.
Qed.

Lemma download_image_outcome_witness :
  exists chunks,
    fst (requests_get Samples.hello_services
           (original_url "https://pbs.twimg.com/media/ABC.jpg:large?x=1")
           (world Samples.started)) = Stream chunks true /\
    fs (snd (download_image Samples.hello_services
               "https://pbs.twimg.com/media/ABC.jpg:large?x=1"
               (Path_of "downloads/ABC.jpg") Samples.started))
      !! Path_of "downloads/ABC.jpg"
    = Some (File (String.concat EmptyString chunks)).
Proof.
  apply (proj1 (download_image_outcome unit Samples.hello_services
                  "https://pbs.twimg.com/media/ABC.jpg:large?x=1"
                  (Path_of "downloads/ABC.jpg") Samples.started)).
  vm_compute. reflexivity.
Defined.

(** X6. [save_tweet_content_v2] changes no path other than [tweet.txt] of
    the folder; it succeeds whenever the folder is a directory and
    [tweet.txt] is not one, and what was in [tweet.txt] before does not
    matter: the file is replaced, not appended to. *)
Theorem save_tweet_content_v2_replaces_file :
  forall (tweet : Tweet) (folder_path : Path) (username : string)
         (image_urls : option (list string)) (disk : FS),
    let txt_path := truediv folder_path "tweet.txt" in
    (forall disk', save_tweet_content_v2 tweet folder_path username image_urls disk = Ok disk' ->
       forall q, q <> txt_path -> disk' !! q = disk !! q) /\
    (node_at disk folder_path = Some Dir -> disk !! txt_path <> Some Dir ->
     forall previous : string,
       save_tweet_content_v2 tweet folder_path username image_urls
         (<[txt_path := File previous]> disk)
       = Ok (<[txt_path := File (metadata_text tweet username (default [] image_urls))]> disk) /\
       exists disk',
         save_tweet_content_v2 tweet folder_path username image_urls disk = Ok disk' /\
         disk' = <[txt_path := File (metadata_text tweet username (default [] image_urls))]> disk).
Proof.
  intros tweet folder_path username image_urls disk txt_path. split.
  - intros disk' Hsave q Hq. apply save_tweet_content_v2_disk in Hsave as ->.
    now apply lookup_insert_ne.
  - intros Hdir Htxt previous.
    assert (Hopen : forall d : FS,
               node_at d folder_path = Some Dir -> d !! txt_path <> Some Dir ->
               open_for_write txt_path d = Ok (<[txt_path := File EmptyString]> d)).
    { intros d Hd Ht. unfold open_for_write. subst txt_path.
      rewrite tweet_txt_not_root, tweet_txt_parent, Hd.
      destruct (d !! truediv folder_path "tweet.txt") as [[|c]|]; try reflexivity.
      now destruct Ht. }
    split.
    + unfold save_tweet_content_v2. fold txt_path.
      rewrite Hopen.
      * rewrite write_tweet_lines_insert. now rewrite !insert_insert_eq.
      * unfold txt_path. rewrite node_at_above_tweet_txt. exact Hdir.
      * rewrite lookup_insert_eq. discriminate.
    + eexists. split; [|reflexivity].
      unfold save_tweet_content_v2. fold txt_path.
      rewrite (Hopen disk Hdir Htxt). now rewrite write_tweet_lines_insert.
Qed.

Lemma save_tweet_content_v2_replaces_file_witness :
  save_tweet_content_v2 Samples.hello_post (Path_of "downloads") "alice" (Some ["u1"])
    (<[truediv (Path_of "downloads") "tweet.txt" := File "old text"]> (fs Samples.started))
  = Ok (<[truediv (Path_of "downloads") "tweet.txt" :=
            File (metadata_text Samples.hello_post "alice" (default [] (Some ["u1"])))]>
          (fs Samples.started)).
Proof.
  refine (proj1 (proj2 (save_tweet_content_v2_replaces_file Samples.hello_post
                          (Path_of "downloads") "alice" (Some ["u1"]) (fs Samples.started))
                   _ _ "old text")).
  - vm_compute. reflexivity.
  - vm_compute. discriminate.
Defined.

(* ===================================================================== *)
(** * The counter of processed posts and the size of the pages *)
(* ===================================================================== *)

(** X7. The counter of processed posts is bounded by the cap and the size
    of the pages together: when no page carries more than [bound] posts, a
    run never processes more than [max_tweets - 1 + bound] posts (299 for
    pages of at most 100 posts). *)
Theorem processed_posts_bound :
  forall (W : Type) (services : Services W) (bound : nat) (bearer_token : option string)
         (username output_dir : string) (start_date : option string) (w : W) (disk : FS),
    (forall request_params w response w' tweets,
        get_users_tweets services request_params w = (Ok response, w') ->
        data response = Some tweets -> length tweets <= bound) ->
    tweets_processed
      (snd (get_tweets_with_images services bearer_token username output_dir start_date w disk))
      <= max_tweets - 1 + bound.
Proof.
  intros W services bound bearer_token username output_dir start_date w disk Hpages.
  now apply get_tweets_with_images_processed_bound.
Qed.

Lemma processed_posts_bound_witness :
  tweets_processed
    (snd (get_tweets_with_images Samples.short_pages_services (Some "token") "alice"
            "downloads" None tt ∅))
    <= max_tweets - 1 + 99.
Proof.
  apply (processed_posts_bound unit Samples.short_pages_services 99).
  intros request_params w response w' tweets Hget Hdata.
  unfold Samples.short_pages_services in Hget. cbn [get_users_tweets] in Hget.
  injection Hget as <- _.
  destruct (pagination_token request_params) as [token|];
    [destruct (String.eqb token "page2")|];
    injection Hdata as <-; apply Nat.eq_le_incl; reflexivity.
Defined.

Section FullPages.

Context {W : Type}.
Variable services : Services W.

Hypothesis full_pages :
  forall request_params w response w' tweets,
    get_users_tweets services request_params w = (Ok response, w') ->
    data response = Some tweets -> tweets = [] \/ length tweets = 100.

(** With pages of exactly 100 posts the counter is 0, 100 or 200 whenever
    the cap is tested, so the cap is never exceeded. *)
Lemma walk_full_pages (fuel : nat) (user_id : Z) (output_path : Path) (username : string)
    (start_date pagination_token : option string) (st : @State W) r st' :
  tweets_processed st = 0 \/ tweets_processed st = 100 \/ tweets_processed st = 200 ->
  walk services fuel user_id output_path username start_date pagination_token st
    = Some (r, st') ->
  exists evs,
    trace st' = trace st ++ evs /\
    tweets_processed st' <= 200 /\
    100 * length (fetch_requests evs) + tweets_processed st <= 200.
Proof.
  revert pagination_token st.
  induction fuel as [|fuel IH]; intros pagination_token st Hst; simpl; [discriminate|].
  unfold max_tweets.
  destruct (tweets_processed st <? 200) eqn:Hlt.
  2:{ intros [= <- <-]. exists []. rewrite app_nil_r. simpl.
      apply Nat.ltb_ge in Hlt. repeat split; lia. }
  apply Nat.ltb_lt in Hlt.
  set (params := make_request_params user_id pagination_token start_date).
  destruct (get_users_tweets services params (world st)) as [response w] eqn:Hget.
  assert (Hone : forall r0, Some (r0, set_world w (record (EvFetchPage params) st)) = Some (r, st') ->
             exists evs,
               trace st' = trace st ++ evs /\
               tweets_processed st' <= 200 /\
               100 * length (fetch_requests evs) + tweets_processed st <= 200).
  { intros r0 [= <- <-]. exists [EvFetchPage params]. simpl. repeat split; lia. }
  destruct response as [response|e]; [|apply Hone].
  destruct (data response) as [[|tweet tweets]|] eqn:Hdata; [apply Hone | | apply Hone].
  destruct (full_pages _ _ _ _ _ Hget Hdata) as [Hnil | Hlen]; [discriminate|].
  unfold process_page.
  destruct (process_tweets services output_path username (build_media_dict response)
              (tweet :: tweets) _) as [r2 st2] eqn:H2.
  pose proof (process_tweets_spec services _ _ _ _ _ _ _ H2) as (Hp & _ & Hn & _).
  apply process_tweets_adds in H2 as (evs2 & (Ht2 & _) & Hf2).
  cbn [tweets_processed set_world record trace] in Hp, Hn, Ht2.
  assert (Hstop : forall r0, Some (r0, st2) = Some (r, st') ->
             exists evs,
               trace st' = trace st ++ evs /\
               tweets_processed st' <= 200 /\
               100 * length (fetch_requests evs) + tweets_processed st <= 200).
  { intros r0 [= <- <-]. exists ([EvFetchPage params] ++ evs2).
    rewrite fetch_requests_app, Hf2. simpl.
    split; [now rewrite Ht2, <- app_assoc|]. split; lia. }
  destruct r2 as [[]| |e]; [|apply Hstop..].
  destruct (meta response !! "next_token") as [next_token|]; [|apply Hstop].
  destruct (tweets_processed st2 <? 200) eqn:Hlt2; [|apply Hstop].
  apply Nat.ltb_lt in Hlt2. specialize (Hn eq_refl).
  intros H. apply IH in H as (evs & Ht & Hle & Hfetch); [|lia].
  exists (([EvFetchPage params] ++ evs2) ++ evs).
  rewrite !fetch_requests_app, Hf2. simpl.
  split; [now rewrite Ht, Ht2, <- !app_assoc|]. split; lia.
Qed.

End FullPages.

(** X8. With full pages the cap is exact: when every page that carries
    posts carries exactly 100 of them, a run processes at most 200 posts
    and requests at most two pages, whether or not a [next_token] is still
    offered. *)
Theorem full_pages_stop_at_cap :
  forall (W : Type) (services : Services W) (bearer_token : option string)
         (username output_dir : string) (start_date : option string) (w : W) (disk : FS),
    (forall request_params w response w' tweets,
        get_users_tweets services request_params w = (Ok response, w') ->
        data response = Some tweets -> tweets = [] \/ length tweets = 100) ->
    let run :=
      get_tweets_with_images services bearer_token username output_dir start_date w disk in
    tweets_processed (snd run) <= 200 /\
    length (fetch_requests (trace (snd run))) <= 2.
Proof.
  intros W services bearer_token username output_dir start_date w disk Hpages run.
  subst run. unfold get_tweets_with_images.
  destruct (negb (validate_credentials bearer_token)); [simpl; lia|].
  unfold on_disk. simpl fs.
  destruct (mkdir_exist_ok (Path_of output_dir) disk); [|simpl; lia].
  cbn [world record set_fs initial_state].
  destruct (get_user services username w) as [[[user_id|]|e] w1]; try (simpl; lia).
  match goal with
  | |- context [walk services ?f ?u ?o ?n ?d ?t ?s] =>
      pose proof (walk_full_pages services Hpages f u o n d t s) as Hwalk;
      destruct (walk services f u o n d t s) as [[r st2]|]
  end; [|simpl; lia].
  destruct (Hwalk r st2 (or_introl eq_refl) eq_refl) as (evs & Ht & Hle & Hfetch).
  cbn [trace set_world record set_fs] in Ht. cbn [tweets_processed set_world record set_fs] in Hfetch.
  assert (Hgoal : tweets_processed st2 <= 200 /\ length (fetch_requests (trace st2)) <= 2).
  { rewrite Ht, fetch_requests_app. simpl. lia. }
  destruct r as [[]| |e]; exact Hgoal.
Qed.

Lemma full_pages_stop_at_cap_witness :
  tweets_processed
    (snd (get_tweets_with_images Timelines.full_pages_services (Some "token") "alice"
            "downloads" None tt ∅)) <= 200 /\
  length (fetch_requests
            (trace (snd (get_tweets_with_images Timelines.full_pages_services (Some "token")
                           "alice" "downloads" None tt ∅)))) <= 2.
Proof.
  apply (full_pages_stop_at_cap unit Timelines.full_pages_services).
  intros request_params w response w' tweets Hget Hdata.
  injection Hget as <- _. injection Hdata as <-. right. reflexivity.
Defined.

(* ===================================================================== *)
(** * cli.py: the command line *)
(* ===================================================================== *)

Section StartDate.

Context {W : Type}.
Variable services : Services W.

Lemma walk_empty_start_date (fuel : nat) (user_id : Z) (output_path : Path)
    (username : string) (pagination_token : option string) (st : @State W) :
  walk services fuel user_id output_path username (Some EmptyString) pagination_token st =
  walk services fuel user_id output_path username None pagination_token st.
Proof.
  revert pagination_token st.
  induction fuel as [|fuel IH]; intros pagination_token st; simpl; [reflexivity|].
  change (make_request_params user_id pagination_token (Some EmptyString))
    with (make_request_params user_id pagination_token None).
  destruct (tweets_processed st <? max_tweets); [|reflexivity].
  destruct (get_users_tweets services _ (world st)) as [[response|e] w]; [|reflexivity].
  destruct (data response) as [[|tweet tweets]|]; try reflexivity.
  destruct (process_page services output_path username response (tweet :: tweets) _)
    as [[[]| |e] st2]; try reflexivity.
  destruct (meta response !! "next_token"); [|reflexivity].
  destruct (tweets_processed st2 <? max_tweets); [apply IH | reflexivity].
Qed.

Lemma get_tweets_with_images_empty_start_date (bearer_token : option string)
    (username output_dir : string) (w : W) (disk : FS) :
  get_tweets_with_images services bearer_token username output_dir (Some EmptyString) w disk =
  get_tweets_with_images services bearer_token username output_dir None w disk.
Proof.
  unfold get_tweets_with_images.
  destruct (negb (validate_credentials bearer_token)); [reflexivity|].
  destruct (on_disk _ _ _) as [[[]|e] st]; [|reflexivity].
  destruct (get_user services username _) as [[[user_id|]|e] w1]; [|reflexivity..].
  now rewrite walk_empty_start_date.
Qed.

End StartDate.

(** X9. The command line. Without a user name [main] exits with status 1
    and calls nothing. The output directory defaults to [downloads];
    arguments after the start date are ignored; an empty start date is the
    same as none, for [main] and for [get_tweets_with_images]; and an empty
    bearer token is the same as a missing one. *)
Theorem main_arguments :
  forall (W : Type) (services : Services W) (bearer_token : option string)
         (program username output_dir start_date : string) (more : list string)
         (w : W) (disk : FS),
    main services bearer_token [] w disk = SystemExit 1 /\
    main services bearer_token [program] w disk = SystemExit 1 /\
    main services bearer_token [program; username] w disk
      = main services bearer_token [program; username; "downloads"] w disk /\
    main services bearer_token (program :: username :: output_dir :: start_date :: more) w disk
      = main services bearer_token [program; username; output_dir; start_date] w disk /\
    main services bearer_token [program; username; output_dir; EmptyString] w disk
      = main services bearer_token [program; username; output_dir] w disk /\
    get_tweets_with_images services bearer_token username output_dir (Some EmptyString) w disk
      = get_tweets_with_images services bearer_token username output_dir None w disk /\
    main services (Some EmptyString) [program; username] w disk
      = main services None [program; username] w disk.
Proof.
  intros W services bearer_token program username output_dir start_date more w disk.
  do 4 (split; [reflexivity|]).
  split; [|split; [apply get_tweets_with_images_empty_start_date | reflexivity]].
  unfold main. cbn [length Nat.ltb Nat.leb nth].
  now rewrite get_tweets_with_images_empty_start_date.
Qed.

(* ===================================================================== *)
(** * downloader.py: size variants and extensions *)
(* ===================================================================== *)

Section UrlVariants.

Import PyStr.

(** Two texts with a common end: one of the two ends is an end of the
    other. *)
Lemma append_eq_ends (p s' u s : string) :
  p +:+ s' = u +:+ s -> endswith s s' = true \/ endswith s' s = true.
Proof.
  revert u. induction p as [|c p IH]; intros u H.
  - rewrite append_nil in H. right. apply endswith_iff. now exists u.
  - destruct u as [|d u].
    + rewrite append_nil in H. left. apply endswith_iff. now exists (String c p).
    + rewrite !append_cons in H. injection H as _ H. now apply IH in H.
Qed.

(** No size suffix is the end of another one, so a URL that ends with a
    size suffix ends with no other. *)
Lemma size_suffixes_apart (u s s' : string) :
  In s size_suffixes -> In s' size_suffixes ->
  endswith (u +:+ s) s' = true -> s' = s.
Proof.
  intros Hs Hs' Hends.
  apply endswith_iff in Hends as [p Hp]. symmetry in Hp.
  apply append_eq_ends in Hp.
  unfold size_suffixes in Hs, Hs'. simpl in Hs, Hs'.
  destruct Hs as [<- | [<- | [<- | [<- | []]]]];
    destruct Hs' as [<- | [<- | [<- | [<- | []]]]];
    try reflexivity; destruct Hp as [Hp | Hp]; vm_compute in Hp; discriminate.
Qed.

Lemma find_size_suffix (u s : string) :
  In s size_suffixes -> List.find (endswith (u +:+ s)) size_suffixes = Some s.
Proof.
  intros Hs.
  destruct (List.find (endswith (u +:+ s)) size_suffixes) as [s'|] eqn:Hfind.
  - apply find_some in Hfind as [Hin Hends].
    f_equal. now apply (size_suffixes_apart u).
  - apply (find_none _ _ Hfind) in Hs. now rewrite endswith_app in Hs.
Qed.

Lemma size_suffixes_no_query (s : string) :
  In s size_suffixes -> contains "?" s = false.
Proof.
  unfold size_suffixes. simpl.
  intros [<- | [<- | [<- | [<- | []]]]]; reflexivity.
Qed.

Lemma original_url_variant (u s : string) :
  contains "?" u = false -> In s size_suffixes -> original_url (u +:+ s) = u.
Proof.
  intros Hu Hs. unfold original_url.
  rewrite first_split, before_first_id
    by (now rewrite contains_app, Hu, (size_suffixes_no_query s Hs)).
  now rewrite strip_size_suffix_find, (find_size_suffix u s Hs), drop_tail_app.
Qed.

Lemma extract_filename_variant (u s : string) :
  contains "?" u = false -> In s size_suffixes ->
  contains "." (after_last "/" u) = true ->
  extract_filename_from_url (u +:+ s) = after_last "/" u.
Proof.
  intros Hu Hs Hdot. unfold extract_filename_from_url.
  rewrite first_split, final_split, before_first_id
    by (now rewrite contains_app, Hu, (size_suffixes_no_query s Hs)).
  rewrite after_last_app by (now apply size_suffixes_plain).
  now rewrite clean_size_suffix_find, (find_size_suffix _ s Hs), drop_tail_app, Hdot.
Qed.

(** The query string plays no part in either rule. *)
Lemma original_url_query (u query : string) :
  contains "?" u = false -> original_url (u +:+ String "?" query) = original_url u.
Proof.
  intros Hu. unfold original_url.
  now rewrite !first_split, before_first_app, before_first_id.
Qed.

Lemma extract_filename_query (u query : string) :
  contains "?" u = false ->
  extract_filename_from_url (u +:+ String "?" query) = extract_filename_from_url u.
Proof.
  intros Hu. unfold extract_filename_from_url.
  now rewrite !first_split, before_first_app, before_first_id.
Qed.

Lemma after_last_empty (c : ascii) (s : string) :
  after_last c s = EmptyString <->
  s = EmptyString \/ endswith s (String c EmptyString) = true.
Proof.
  split.
  - intros H. destruct (after_last_suffix c s) as (pre & Hs & Hpre).
    rewrite H, append_empty_r in Hs. subst pre. exact Hpre.
  - intros [-> | H]; [reflexivity|].
    apply endswith_iff in H as [p ->]. now rewrite after_last_sep.
Qed.

End UrlVariants.

(** X10. Size variants and queries of one image are cleaned to the same
    request and the same file name: for a URL [u] without [?], any size
    suffix [s] and any query, [download_image] requests [u] itself for
    [u + s] and for [u + s + "?" + query], also when [u] already ends with a
    size suffix; and when the last segment of [u] contains a dot,
    [extract_filename_from_url] gives that segment for both. *)
Theorem size_variants_clean_to_same_image :
  forall u suffix query : string,
    PyStr.contains "?" u = false ->
    In suffix size_suffixes ->
    original_url (u +:+ suffix) = u /\
    original_url ((u +:+ suffix) +:+ String "?" query) = u /\
    (PyStr.contains "." (PyStr.final (PyStr.split "/" u)) = true ->
     extract_filename_from_url (u +:+ suffix) = PyStr.final (PyStr.split "/" u) /\
     extract_filename_from_url ((u +:+ suffix) +:+ String "?" query)
       = PyStr.final (PyStr.split "/" u)).
Proof.
  intros u suffix query Hu Hs.
  assert (Hus : PyStr.contains "?" (u +:+ suffix) = false)
    by (now rewrite contains_app, Hu, (size_suffixes_no_query suffix Hs)).
  split; [now apply original_url_variant|].
  split; [rewrite original_url_query by exact Hus; now apply original_url_variant|].
  rewrite final_split. intros Hdot.
  split; [now apply extract_filename_variant|].
  rewrite extract_filename_query by exact Hus. now apply extract_filename_variant.
Qed.

Lemma size_variants_clean_to_same_image_witness :
  original_url ("https://pbs.twimg.com/media/ABC.jpg" +:+ ":thumb")
    = "https://pbs.twimg.com/media/ABC.jpg" /\
  extract_filename_from_url
    (("https://pbs.twimg.com/media/ABC.jpg" +:+ ":thumb") +:+ String "?" "name=orig")
    = "ABC.jpg".
Proof.
  pose proof (size_variants_clean_to_same_image "https://pbs.twimg.com/media/ABC.jpg"
                ":thumb" "name=orig" eq_refl) as H.
  destruct H as (H1 & _ & H3).
  - unfold size_suffixes. simpl. auto.
  - split; [exact H1|]. exact (proj2 (H3 eq_refl)).
Defined.

(** X11. [extract_filename_from_url] never removes the extension: the file
    name is the last path segment of the URL without its query, less at
    most one size suffix; it contains a dot exactly when that segment does;
    and it is empty exactly when the segment is, that is when the URL
    without its query is empty or ends with [/]. *)
Theorem extract_filename_from_url_keeps_extension :
  forall url : string,
    let url_path := PyStr.first (PyStr.split "?" url) in
    let segment := PyStr.final (PyStr.split "/" url_path) in
    let image_filename := extract_filename_from_url url in
    (exists removed : string,
        (removed = EmptyString \/ In removed size_suffixes) /\
        segment = image_filename +:+ removed) /\
    PyStr.contains "." image_filename = PyStr.contains "." segment /\
    (image_filename = EmptyString <-> segment = EmptyString) /\
    (image_filename = EmptyString <->
     url_path = EmptyString \/ PyStr.endswith url_path "/" = true).
Proof.
  intros url url_path segment image_filename.
  assert (Hcases : image_filename = segment \/
                   exists suffix, In suffix size_suffixes /\
                                  PyStr.contains "." image_filename = true /\
                                  segment = image_filename +:+ suffix).
  { subst image_filename. unfold extract_filename_from_url. fold url_path. fold segment.
    rewrite clean_size_suffix_find.
    destruct (find (PyStr.endswith segment) size_suffixes) as [suffix|] eqn:Hfind;
      [|now left].
    apply find_some in Hfind as [Hin Hends].
    destruct (PyStr.contains "." (PyStr.drop_tail (String.length suffix) segment)) eqn:Hdot;
      [|now left].
    right. exists suffix. split; [exact Hin|]. split; [exact Hdot|].
    now apply endswith_inv. }
  assert (Hempty : image_filename = EmptyString <-> segment = EmptyString).
  { destruct Hcases as [-> | (suffix & _ & Hdot & Hseg)]; [reflexivity|].
    split.
    - intros H. rewrite H in Hdot. discriminate.
    - intros H. rewrite H in Hseg. destruct image_filename; [reflexivity | discriminate]. }
  split; [|split; [|split; [exact Hempty|]]].
  - destruct Hcases as [-> | (suffix & Hin & _ & Hseg)].
    + exists EmptyString. split; [now left | now rewrite append_empty_r].
    + exists suffix. split; [now right | exact Hseg].
  - destruct Hcases as [-> | (suffix & Hin & Hdot & Hseg)]; [reflexivity|].
    now rewrite Hseg, contains_app, Hdot.
  - rewrite Hempty. subst segment. rewrite final_split. apply after_last_empty.
Qed.

(* ===================================================================== *)
(** * Folders of different posts *)
(* ===================================================================== *)

Section FolderNames.

Import PyStr.

Lemma append_inj_length (a b a' b' : string) :
  String.length a = String.length a' -> a +:+ b = a' +:+ b' -> a = a' /\ b = b'.
Proof.
  revert a'. induction a as [|x a IH]; intros [|x' a'] Hlen H; try discriminate.
  - now rewrite !append_nil in H.
  - rewrite !append_cons in H. injection H as -> H. injection Hlen as Hlen.
    destruct (IH a' Hlen H) as [-> ->]. auto.
Qed.

(** Reading a zero-filled field back gives the number: checked on every
    number below the bound. *)
Lemma zfill_inj (width bound n m : nat) :
  forallb (fun k => match NilEmpty.uint_of_string (zfill width k) with
                    | Some d => Nat.eqb (Nat.of_uint d) k
                    | None => false
                    end) (seq 0 bound) = true ->
  n < bound -> m < bound -> zfill width n = zfill width m -> n = m.
Proof.
  intros Hall Hn Hm Heq. rewrite forallb_forall in Hall.
  pose proof (Hall n (proj2 (in_seq _ _ _) (conj (Nat.le_0_l n) Hn))) as Rn.
  pose proof (Hall m (proj2 (in_seq _ _ _) (conj (Nat.le_0_l m) Hm))) as Rm.
  cbv beta in Rn, Rm. rewrite Heq in Rn.
  destruct (NilEmpty.uint_of_string (zfill width m)) as [d|]; [|discriminate].
  apply Nat.eqb_eq in Rn, Rm. congruence.
Qed.

Lemma two_digits_inj (n m : nat) : n < 100 -> m < 100 -> zfill 2 n = zfill 2 m -> n = m.
Proof. apply (zfill_inj 2 100). vm_compute. reflexivity. Qed.

Lemma four_digits_inj (n m : nat) :
  n < 100 * 100 -> m < 100 * 100 -> zfill 4 n = zfill 4 m -> n = m.
Proof. apply (zfill_inj 4 (100 * 100)). vm_compute. reflexivity. Qed.

Lemma folder_name_inj (t1 t2 : datetime) :
  datetime_valid t1 -> datetime_valid t2 ->
  strftime "%Y%m%d_%H%M%S" t1 = strftime "%Y%m%d_%H%M%S" t2 -> t1 = t2.
Proof.
  intros (Hy1 & Hm1 & Hd1 & HH1 & HM1 & HS1) (Hy2 & Hm2 & Hd2 & HH2 & HM2 & HS2).
  rewrite !strftime_folder_name. intros H.
  apply append_inj_length in H as [Hy H];
    [|now rewrite !four_digits by lia].
  apply append_inj_length in H as [Hm H];
    [|now rewrite !two_digits by lia].
  apply append_inj_length in H as [Hd H];
    [|now rewrite !two_digits by lia].
  apply append_inj_length in H as [_ H]; [|reflexivity].
  apply append_inj_length in H as [HH H];
    [|now rewrite !two_digits by lia].
  apply append_inj_length in H as [HM HS];
    [|now rewrite !two_digits by lia].
  apply four_digits_inj in Hy; [|lia..].
  apply two_digits_inj in Hm, Hd, HH, HM, HS; try lia.
  destruct t1, t2. simpl in *. congruence.
Qed.

End FolderNames.

(** X12. Two posts share a folder exactly when they were created in the
    same second: for valid timestamps the folder names, and the folders
    [create_tweet_folder] returns under one output directory, are equal
    only for equal timestamps. *)
Theorem posts_share_folder_iff_same_second :
  forall (output_path : Path) (t1 t2 : datetime),
    datetime_valid t1 -> datetime_valid t2 ->
    (strftime "%Y%m%d_%H%M%S" t1 = strftime "%Y%m%d_%H%M%S" t2 <-> t1 = t2) /\
    (forall (disk1 disk2 disk1' disk2' : FS) (folder1 folder2 : Path),
        create_tweet_folder output_path t1 disk1 = Ok (folder1, disk1') ->
        create_tweet_folder output_path t2 disk2 = Ok (folder2, disk2') ->
        (folder1 = folder2 <-> t1 = t2)).
Proof.
  intros output_path t1 t2 H1 H2.
  assert (Hname : strftime "%Y%m%d_%H%M%S" t1 = strftime "%Y%m%d_%H%M%S" t2 <-> t1 = t2).
  { split; [now apply folder_name_inj | now intros ->]. }
  split; [exact Hname|].
  intros disk1 disk2 disk1' disk2' folder1 folder2.
  unfold create_tweet_folder. cbv zeta. rewrite !folder_is_child.
  destruct (mkdir_exist_ok _ disk1); [|discriminate].
  destruct (mkdir_exist_ok _ disk2); [|discriminate].
  intros H1' H2'. injection H1' as <- _. injection H2' as <- _.
  split; [|now intros ->].
  intros H. injection H as H. apply app_inv_head in H. injection H as H.
  now apply Hname.
Qed.

Lemma posts_share_folder_iff_same_second_witness :
  strftime "%Y%m%d_%H%M%S" Samples.morning
    = strftime "%Y%m%d_%H%M%S" (mkDatetime 2025 1 15 9 5 4)
  <-> Samples.morning = mkDatetime 2025 1 15 9 5 4.
Proof.
  apply (posts_share_folder_iff_same_second (Path_of "downloads") Samples.morning
           (mkDatetime 2025 1 15 9 5 4)).
  - unfold datetime_valid. simpl. lia.
  - unfold datetime_valid. simpl. lia.
Defined.

(* ===================================================================== *)
(** * What a run never does to the disk *)
(* ===================================================================== *)

Section Kept.

Implicit Types (disk : FS) (p : Path).

Lemma open_for_write_not_dir p disk disk' :
  open_for_write p disk = Ok disk' -> disk !! p <> Some Dir.
Proof.
  unfold open_for_write.
  destruct (node_at disk p) as [[|c]|] eqn:Hp; [discriminate | |].
  - intros _. apply node_at_file in Hp. congruence.
  - destruct (node_at disk (parent p)) as [[|c]|] eqn:Hparent; try discriminate.
    intros _. destruct (node_at_new disk p Hp Hparent) as [Hnone _]. congruence.
Qed.

Lemma insert_file_keeps p q disk (c : string) (node : Node) :
  disk !! p <> Some Dir -> disk !! q = Some node ->
  exists node', <[p := File c]> disk !! q = Some node' /\ is_dir node' = is_dir node.
Proof.
  intros Hp Hq. destruct (decide (q = p)) as [->|Hne].
  - rewrite lookup_insert_eq. exists (File c). split; [reflexivity|].
    destruct node; [congruence | reflexivity].
  - rewrite lookup_insert_ne by congruence. eauto.
Qed.

(** No action removes an entry or turns a directory into a file or a file
    into a directory. *)
Lemma effect_keeps disk (ev : Event) p (node : Node) :
  disk !! p = Some node ->
  exists node', effect disk ev !! p = Some node' /\ is_dir node' = is_dir node.
Proof.
  intros Hp.
  destruct ev as [u|params|tweet|folder|image_url save_path response ok|tweet folder user urls];
    simpl; eauto.
  - destruct (mkdir_exist_ok folder disk) as [disk'|e] eqn:Hmk; [|eauto].
    pose proof (mkdir_exist_ok_disk _ _ _ Hmk) as [_ [-> | [Hnone ->]]]; [eauto|].
    destruct (decide (p = folder)) as [->|Hne].
    + unfold mkdir_exist_ok in Hmk. rewrite Hnone in Hmk.
      destruct (node_at disk (parent folder)) as [[|c]|] eqn:Hparent; try discriminate.
      destruct (node_at_new disk folder Hnone Hparent) as [Hfree _]. congruence.
    + rewrite lookup_insert_ne by congruence. eauto.
  - rewrite store_response_disk. destruct response as [|chunks complete]; [eauto|].
    destruct (open_for_write save_path disk) as [disk'|e] eqn:Hopen; [|eauto].
    apply open_for_write_not_dir in Hopen. now apply insert_file_keeps.
  - destruct (save_tweet_content_v2 tweet folder user (Some urls) disk) as [disk'|e] eqn:Hsave;
      [|eauto].
    pose proof (save_tweet_content_v2_disk _ _ _ _ _ _ Hsave) as ->.
    unfold save_tweet_content_v2 in Hsave.
    destruct (open_for_write (truediv folder "tweet.txt") disk) as [disk1|e] eqn:Hopen;
      [|discriminate].
    apply open_for_write_not_dir in Hopen. now apply insert_file_keeps.
Qed.

Lemma replay_keeps disk evs p (node : Node) :
  disk !! p = Some node ->
  exists node', replay disk evs !! p = Some node' /\ is_dir node' = is_dir node.
Proof.
  revert disk node. induction evs as [|ev rest IH]; intros disk node Hp; simpl; [eauto|].
  destruct (effect_keeps disk ev p node Hp) as (node1 & H1 & Hk1).
  destruct (IH _ _ H1) as (node2 & H2 & Hk2).
  exists node2. split; [exact H2 | congruence].
Qed.

Lemma replay_keeps_directory disk evs p :
  node_at disk p = Some Dir -> node_at (replay disk evs) p = Some Dir.
Proof.
  apply node_at_directory_kept. intros q Hq.
  destruct (replay_keeps disk evs q Dir Hq) as ([|c] & -> & Hk);
    [reflexivity | discriminate].
Qed.

End Kept.

(** X13. A run never deletes anything and never changes the kind of an
    entry: a path that exists before the call exists after it, a directory
    is still a directory and a file is still a file (whose content may
    have been replaced). *)
Theorem run_never_removes_entries :
  forall (W : Type) (services : Services W) (bearer_token : option string)
         (username output_dir : string) (start_date : option string) (w : W) (disk : FS)
         (p : Path) (node : Node),
    let run :=
      get_tweets_with_images services bearer_token username output_dir start_date w disk in
    disk !! p = Some node ->
    exists node', fs (snd run) !! p = Some node' /\ is_dir node' = is_dir node.
Proof.
  intros W services bearer_token username output_dir start_date w disk p node run.
  destruct run as [ending st] eqn:Hrun. subst run. cbn [snd].
  pose proof (get_tweets_with_images_spec services _ _ _ _ _ _ _ _ Hrun) as (Hfs & _).
  rewrite Hfs. apply replay_keeps.
Qed.

Lemma run_never_removes_entries_witness :
  exists node',
    fs (snd (get_tweets_with_images Samples.hello_services (Some "token") "alice" "downloads"
               None tt {[ Path_of "notes.txt" := File "keep" ]}))
      !! Path_of "notes.txt" = Some node' /\
    is_dir node' = is_dir (File "keep").
Proof.
  apply (run_never_removes_entries unit Samples.hello_services (Some "token") "alice"
           "downloads" None tt {[ Path_of "notes.txt" := File "keep" ]}
           (Path_of "notes.txt") (File "keep")).
  vm_compute. reflexivity.
Defined.

(** X14. How a call ends before any page is requested. Without a bearer
    token nothing is done at all. Otherwise the output directory is created
    first, outside the [try] block: if that raises, the exception is not
    caught, and no request has been made. A user that is not found ends the
    call after exactly the creation of the output directory and the user
    lookup. In every other case the output directory is a directory when
    the call ends. *)
Theorem endings_before_first_page :
  forall (W : Type) (services : Services W) (bearer_token : option string)
         (username output_dir : string) (start_date : option string) (w : W) (disk : FS),
    let run :=
      get_tweets_with_images services bearer_token username output_dir start_date w disk in
    let output_path := Path_of output_dir in
    (fst run = MissingCredentials <-> validate_credentials bearer_token = false) /\
    (fst run = MissingCredentials -> snd run = initial_state w disk) /\
    (forall e, fst run = Uncaught e <->
               validate_credentials bearer_token = true /\
               mkdir_exist_ok output_path disk = Raise e) /\
    (forall e, fst run = Uncaught e ->
               world (snd run) = w /\ fs (snd run) = disk /\
               trace (snd run) = [EvMkdir output_path]) /\
    (fst run = UserNotFound ->
       fst (get_user services username w) = Ok None /\
       trace (snd run) = [EvMkdir output_path; EvGetUser username] /\
       mkdir_exist_ok output_path disk = Ok (fs (snd run))) /\
    (fst run <> MissingCredentials -> (forall e, fst run <> Uncaught e) ->
       node_at (fs (snd run)) output_path = Some Dir).
Proof.
  intros W services bearer_token username output_dir start_date w disk run output_path.
  subst run. unfold get_tweets_with_images. fold output_path.
  destruct (validate_credentials bearer_token) eqn:Hv; cbn [negb].
  2:{ cbn [fst snd].
      split; [split; reflexivity|]. split; [reflexivity|].
      split; [intros e; split; [discriminate | intros [? _]; discriminate]|].
      split; [discriminate|]. split; [discriminate|].
      intros H. now destruct H. }
  unfold on_disk. cbn [fs initial_state].
  destruct (mkdir_exist_ok output_path disk) as [disk1|e0] eqn:Hmk.
  2:{ cbn [fst snd world fs trace record app initial_state].
      split; [split; discriminate|]. split; [discriminate|].
      split; [intros e; split; [intros [= ->]; auto | intros [_ [= ->]]; reflexivity]|].
      split; [intros e _; repeat split|]. split; [discriminate|].
      intros _ H. now destruct (H e0). }
  pose proof (mkdir_exist_ok_disk _ _ _ Hmk) as [Hdir _].
  cbv zeta.
  change (world (record (EvGetUser username)
                   (record (EvMkdir output_path) (set_fs disk1 (initial_state w disk)))))
    with w.
  destruct (get_user services username w) as [user w1] eqn:Hu.
  assert (Hearly : forall ending,
             ending <> MissingCredentials -> (forall e, ending <> Uncaught e) ->
             (ending = UserNotFound -> user = Ok None) ->
             let run := (ending,
                         set_world w1 (record (EvGetUser username)
                                         (record (EvMkdir output_path)
                                            (set_fs disk1 (initial_state w disk))))) in
             (fst run = MissingCredentials <-> true = false) /\
             (fst run = MissingCredentials -> snd run = initial_state w disk) /\
             (forall e, fst run = Uncaught e <-> true = true /\ Ok disk1 = Raise e) /\
             (forall e, fst run = Uncaught e ->
                        world (snd run) = w /\ fs (snd run) = disk /\
                        trace (snd run) = [EvMkdir output_path]) /\
             (fst run = UserNotFound ->
                fst (user, w1) = Ok None /\
                trace (snd run) = [EvMkdir output_path; EvGetUser username] /\
                Ok disk1 = Ok (fs (snd run))) /\
             (fst run <> MissingCredentials -> (forall e, fst run <> Uncaught e) ->
                node_at (fs (snd run)) output_path = Some Dir)).
  { intros ending Hne1 Hne2 Hnf run. subst run. cbn [fst snd].
    split; [split; [intros; contradiction | discriminate]|].
    split; [intros; contradiction|].
    split; [intros e; split; [intros H; now destruct (Hne2 e) | intros [_ ?]; discriminate]|].
    split; [intros e H; now destruct (Hne2 e)|].
    split; [intros H; split; [now apply Hnf | split; reflexivity]|].
    intros _ _. exact Hdir. }
  destruct user as [[user_id|]|e1].
  - (* the loop runs *)
    match goal with
    | |- context [walk services ?f ?u ?o ?n ?d ?t ?s] =>
        destruct (walk services f u o n d t s) as [[r st2]|] eqn:Hwalk
    end.
    2:{ apply (Hearly OutOfFuel); discriminate. }
    apply walk_spec in Hwalk as (_ & _ & evs & [Ht Hfs] & _).
    cbn [fs set_world record set_fs initial_state trace app] in Ht, Hfs.
    assert (Hdir2 : node_at (fs st2) output_path = Some Dir)
      by (rewrite Hfs; now apply replay_keeps_directory).
    assert (Hlate : forall ending,
               ending <> MissingCredentials -> (forall e, ending <> Uncaught e) ->
               ending <> UserNotFound ->
               let run := (ending, st2) in
               (fst run = MissingCredentials <-> true = false) /\
               (fst run = MissingCredentials -> snd run = initial_state w disk) /\
               (forall e, fst run = Uncaught e <-> true = true /\ Ok disk1 = Raise e) /\
               (forall e, fst run = Uncaught e ->
                          world (snd run) = w /\ fs (snd run) = disk /\
                          trace (snd run) = [EvMkdir output_path]) /\
               (fst run = UserNotFound ->
                  fst (Ok (Some user_id), w1) = Ok None /\
                  trace (snd run) = [EvMkdir output_path; EvGetUser username] /\
                  Ok disk1 = Ok (fs (snd run))) /\
               (fst run <> MissingCredentials -> (forall e, fst run <> Uncaught e) ->
                  node_at (fs (snd run)) output_path = Some Dir)).
    { intros ending Hne1 Hne2 Hne3 run. subst run. cbn [fst snd].
      split; [split; [intros; contradiction | discriminate]|].
      split; [intros; contradiction|].
      split; [intros e; split; [intros H; now destruct (Hne2 e) | intros [_ ?]; discriminate]|].
      split; [intros e H; now destruct (Hne2 e)|].
      split; [intros; contradiction|].
      intros _ _. exact Hdir2. }
    destruct r as [[]| |e2].
    + apply (Hlate Done); discriminate.
    + apply (Hlate DownloadFailed); discriminate.
    + apply (Hlate (handler e2)); destruct e2; discriminate.
  - apply (Hearly UserNotFound); [discriminate | discriminate | reflexivity].
  - apply (Hearly (handler e1)); destruct e1; discriminate.
Qed.

Lemma endings_before_first_page_witness :
  fst (get_tweets_with_images Samples.hello_services (Some "token") "alice"
         "missing/downloads" None tt ∅) = Uncaught FileNotFoundError.
Proof.
  apply (proj1 (proj2 (proj2
    (endings_before_first_page unit Samples.hello_services (Some "token") "alice"
       "missing/downloads" None tt ∅)))).
  split; [reflexivity|]. vm_compute. reflexivity.
Defined.

(* ===================================================================== *)
(** * __init__.py against the modules *)
(* ===================================================================== *)

Section LegacyAgrees.

Context {W : Type}.
Variable services : Services W.

Lemma legacy_download_image (image_url : string) (save_path : Path) (st : @State W) :
  Legacy.download_image services image_url save_path st
    = download_image services image_url save_path st.
Proof. reflexivity. Qed.

Lemma legacy_download_photos (tweet_folder : Path) (photos : list Media)
    (image_urls : list string) (st : @State W) :
  Legacy.download_photos services tweet_folder photos image_urls st
    = download_photos services tweet_folder photos image_urls st.
Proof.
  revert image_urls st. induction photos as [|photo rest IH]; intros image_urls st; simpl;
    [reflexivity|].
  destruct (photo_url photo) as [image_url|]; [|apply IH].
  fold (extract_filename_from_url image_url).
  rewrite legacy_download_image.
  destruct (download_image services image_url _ st) as [[] st1]; [apply IH | reflexivity].
Qed.

Lemma legacy_process_tweet (output_path : Path) (username : string)
    (media_dict : gmap string Media) (tweet : Tweet) (st : @State W) :
  Legacy.process_tweet services output_path username media_dict tweet st
    = process_tweet services output_path username media_dict tweet st.
Proof.
  unfold Legacy.process_tweet, process_tweet.
  destruct (photos_of media_dict tweet) as [|photo photos]; [reflexivity|].
  cbv zeta. unfold on_disk at 1 3, create_tweet_folder, folder_of. cbv zeta.
  destruct (mkdir_exist_ok _ _) as [disk1|e]; [|reflexivity].
  rewrite legacy_download_photos.
  destruct (download_photos services _ _ _ _) as [[image_urls| |e] st1]; reflexivity.
Qed.

Lemma legacy_process_tweets (output_path : Path) (username : string)
    (media_dict : gmap string Media) (tweets : list Tweet) (st : @State W) :
  Legacy.process_tweets services output_path username media_dict tweets st
    = process_tweets services output_path username media_dict tweets st.
Proof.
  revert st. induction tweets as [|tweet rest IH]; intros st; simpl; [reflexivity|].
  rewrite legacy_process_tweet.
  destruct (process_tweet services output_path username media_dict tweet st)
    as [[[]| |e] st1]; [apply IH | reflexivity | reflexivity].
Qed.

Lemma legacy_walk (fuel : nat) (user_id : Z) (output_path : Path) (username : string)
    (start_date pagination_token : option string) (st : @State W) :
  Legacy.walk services fuel user_id output_path username start_date pagination_token st
    = walk services fuel user_id output_path username start_date pagination_token st.
Proof.
  revert pagination_token st.
  induction fuel as [|fuel IH]; intros pagination_token st; simpl; [reflexivity|].
  destruct (tweets_processed st <? max_tweets); [|reflexivity].
  destruct (get_users_tweets services _ (world st)) as [[response|e] w]; [|reflexivity].
  destruct (data response) as [[|tweet tweets]|]; try reflexivity.
  unfold process_page. rewrite legacy_process_tweets.
  destruct (process_tweets services output_path username (build_media_dict response)
              (tweet :: tweets) _) as [[[]| |e] st2]; try reflexivity.
  destruct (meta response !! "next_token"); [|reflexivity].
  destruct (tweets_processed st2 <? max_tweets); [apply IH | reflexivity].
Qed.

Lemma legacy_get_tweets_with_images (bearer_token : option string)
    (username output_dir : string) (start_date : option string) (w : W) (disk : FS) :
  Legacy.get_tweets_with_images services bearer_token username output_dir start_date w disk
    = get_tweets_with_images services bearer_token username output_dir start_date w disk.
Proof.
  unfold Legacy.get_tweets_with_images, get_tweets_with_images, validate_credentials.
  cbv zeta.
  destruct bearer_token as [token|]; [|reflexivity].
  rewrite negb_involutive.
  destruct (String.eqb token EmptyString); [reflexivity|].
  destruct (on_disk _ _ _) as [[[]|e] st]; [|reflexivity].
  destruct (get_user services username _) as [[[user_id|]|e] w1]; [|reflexivity..].
  now rewrite legacy_walk.
Qed.

End LegacyAgrees.

(** X15. The single-module version of the program kept in the package's
    [__init__.py] behaves exactly as the modules do: its
    [get_tweets_with_images], with the folder creation and the file-name
    cleaning written inline, ends the same way in the same state (same
    disk, same counters, same actions in the same order) on every input;
    and so do its [main], its [download_image] and its
    [save_tweet_content_v2]. *)
Theorem legacy_module_agrees :
  forall (W : Type) (services : Services W) (bearer_token : option string)
         (username output_dir : string) (start_date : option string) (w : W) (disk : FS),
    Legacy.get_tweets_with_images services bearer_token username output_dir start_date w disk
      = get_tweets_with_images services bearer_token username output_dir start_date w disk /\
    (forall argv : list string,
        Legacy.main services bearer_token argv w disk
          = main services bearer_token argv w disk) /\
    (forall (image_url : string) (save_path : Path) (st : @State W),
        Legacy.download_image services image_url save_path st
          = download_image services image_url save_path st) /\
    (forall (tweet : Tweet) (folder_path : Path) (image_urls : option (list string)),
        Legacy.save_tweet_content_v2 tweet folder_path username image_urls disk
          = save_tweet_content_v2 tweet folder_path username image_urls disk).
Proof.
  intros W services bearer_token username output_dir start_date w disk.
  split; [apply legacy_get_tweets_with_images|].
  split; [|split; reflexivity].
  intros argv. unfold Legacy.main, main.
  destruct (length argv <? 2); [reflexivity|].
  cbv zeta. now rewrite legacy_get_tweets_with_images.
Qed.

(** X16. The API v1.1 writer of [__init__.py]: [save_tweet_content] fails
    only where opening [tweet.txt] fails, and otherwise leaves in
    [tweet.txt] the same four header entries as [save_tweet_content_v2]
    (with the post's own screen name as author), followed by a blank line
    and a [Likes:] line when the post has a like counter, and by a
    [Retweets:] line when it has a retweet counter; nothing else on the
    disk changes. *)
Theorem legacy_save_tweet_content_layout :
  forall (tweet : Legacy.Status) (folder_path : Path) (disk : FS),
    let txt_path := truediv folder_path "tweet.txt" in
    let header :=
      metadata_header
        {| id := Legacy.status_id tweet; created_at := Legacy.status_created_at tweet;
           text := Legacy.status_text tweet; attachments := None |}
        (Legacy.screen_name tweet) in
    let likes := match Legacy.favorite_count tweet with
                 | Some n => nl +:+ "Likes: " +:+ str_int n +:+ nl
                 | None => EmptyString
                 end in
    let retweets := match Legacy.retweet_count tweet with
                    | Some n => "Retweets: " +:+ str_int n +:+ nl
                    | None => EmptyString
                    end in
    match open_for_write txt_path disk with
    | Ok _ =>
        Legacy.save_tweet_content tweet folder_path disk
          = Ok (<[txt_path := File (header +:+ likes +:+ retweets)]> disk)
    | Raise e => Legacy.save_tweet_content tweet folder_path disk = Raise e
    end.
Proof.
  intros tweet folder_path disk txt_path header likes retweets.
  unfold Legacy.save_tweet_content. fold txt_path.
  destruct (open_for_write txt_path disk) as [disk1|e] eqn:Hopen; [|reflexivity].
  apply open_for_write_ok in Hopen as ->. cbv zeta.
  rewrite !write_insert. f_equal.
  subst header likes retweets. unfold metadata_header. cbn [id created_at text].
  destruct (Legacy.favorite_count tweet) as [n|], (Legacy.retweet_count tweet) as [m|];
    rewrite ?write_insert, ?append_empty_r, ?append_assoc; reflexivity.
Qed.

(* ===================================================================== *)
(** * Photos of one post with the same file name *)
(* ===================================================================== *)

Section SameName.

Implicit Types (disk : FS) (p : Path).

Lemma open_for_write_creates p disk :
  node_at disk (parent p) = Some Dir -> node_at disk p <> Some Dir ->
  open_for_write p disk = Ok (<[p := File EmptyString]> disk).
Proof.
  intros Hparent Hp. unfold open_for_write. rewrite Hparent.
  destruct (node_at disk p) as [[|c]|]; [now destruct Hp | reflexivity | reflexivity].
Qed.

Lemma parent_differs p : parts p <> [] -> parent p <> p.
Proof.
  intros Hp H. apply (f_equal (fun q => length (parts q))) in H.
  unfold parent in H. simpl in H.
  destruct (parts p) as [|x l] using rev_ind; [now destruct Hp|].
  rewrite removelast_last, length_app in H. simpl in H. lia.
Qed.

(** Once a file is stored at [p], [p] can be opened for writing again. *)
Lemma open_for_write_again p disk (c : string) :
  node_at disk (parent p) = Some Dir -> node_at disk p <> Some Dir ->
  open_for_write p (<[p := File c]> disk) = Ok (<[p := File EmptyString]> disk).
Proof.
  intros Hparent Hp.
  destruct (path_cases p) as [H | (above & name & H)].
  { destruct Hp. now apply node_at_root. }
  destruct (String.eqb_spec name "..") as [->|Hname].
  { destruct Hp. now rewrite (node_at_dotdot disk p above H), Hparent. }
  rewrite open_for_write_creates.
  - now rewrite insert_insert_eq.
  - rewrite node_at_insert_shorter; [exact Hparent|].
    unfold parent. simpl. rewrite H, removelast_last, length_app. simpl. lia.
  - rewrite (node_at_named _ p above name H Hname), lookup_insert_eq. discriminate.
Qed.

Lemma store_response_complete p disk (chunks : list string) :
  node_at disk (parent p) = Some Dir -> node_at disk p <> Some Dir ->
  store_response (Stream chunks true) p disk
    = (true, <[p := File (String.concat EmptyString chunks)]> disk).
Proof.
  intros Hparent Hp.
  pose proof (store_response_disk (Stream chunks true) p disk) as Hdisk.
  simpl in *. rewrite (open_for_write_creates p disk Hparent Hp) in *.
  simpl in Hdisk. now rewrite Hdisk.
Qed.

Lemma store_response_over p disk (c : string) (chunks : list string) :
  node_at disk (parent p) = Some Dir -> node_at disk p <> Some Dir ->
  store_response (Stream chunks true) p (<[p := File c]> disk)
    = (true, <[p := File (String.concat EmptyString chunks)]> disk).
Proof.
  intros Hparent Hp.
  pose proof (store_response_disk (Stream chunks true) p (<[p := File c]> disk)) as Hdisk.
  simpl in *. rewrite (open_for_write_again p disk c Hparent Hp) in *.
  simpl in Hdisk. now rewrite Hdisk, insert_insert_eq.
Qed.

End SameName.

(** X17. Photos of one post whose URLs are cleaned to the same file name
    share one destination: when both downloads succeed, both URLs are
    returned for [tweet.txt], but the folder holds a single image file,
    with the body of the second photo; the body of the first is lost. *)
Theorem same_name_photos_overwrite :
  forall (W : Type) (services : Services W) (tweet_folder : Path) (photo1 photo2 : Media)
         (url1 url2 : string) (chunks1 chunks2 : list string) (w1 w2 : W) (st : @State W),
    let image_path := truediv tweet_folder (extract_filename_from_url url1) in
    let result := download_photos services tweet_folder [photo1; photo2] [] st in
    photo_url photo1 = Some url1 ->
    photo_url photo2 = Some url2 ->
    extract_filename_from_url url2 = extract_filename_from_url url1 ->
    requests_get services (original_url url1) (world st) = (Stream chunks1 true, w1) ->
    requests_get services (original_url url2) w1 = (Stream chunks2 true, w2) ->
    node_at (fs st) (parent image_path) = Some Dir ->
    node_at (fs st) image_path <> Some Dir ->
    fst result = Normal [url1; url2] /\
    fs (snd result) = <[image_path := File (String.concat EmptyString chunks2)]> (fs st) /\
    trace (snd result) =
      trace st ++ [EvDownload url1 image_path (Stream chunks1 true) true;
                   EvDownload url2 image_path (Stream chunks2 true) true].
Proof.
  intros W services tweet_folder photo1 photo2 url1 url2 chunks1 chunks2 w1 w2 st
         image_path result Hurl1 Hurl2 Hname Hget1 Hget2 Hparent Hpath.
  subst result. cbn [download_photos]. rewrite Hurl1, Hurl2. cbv zeta.
  rewrite Hname. fold image_path.
  unfold download_image. rewrite Hget1.
  rewrite (store_response_complete image_path (fs st) chunks1 Hparent Hpath).
  cbn [world fs record set_fs set_world]. rewrite Hget2.
  rewrite (store_response_over image_path (fs st) _ chunks2 Hparent Hpath).
  cbn [fst snd fs trace record set_fs set_world app].
  split; [reflexivity|]. split; [reflexivity|]. now rewrite <- app_assoc.
Qed.

Lemma same_name_photos_overwrite_witness :
  fst (download_photos Samples.hello_services (Path_of "downloads")
         [Samples.photo "k1" "https://pbs.twimg.com/media/ABC.jpg:large";
          Samples.photo "k2" "https://pbs.twimg.com/media/ABC.jpg?name=small"]
         [] Samples.started)
  = Normal ["https://pbs.twimg.com/media/ABC.jpg:large";
            "https://pbs.twimg.com/media/ABC.jpg?name=small"].
Proof.
  refine (proj1 (same_name_photos_overwrite unit Samples.hello_services (Path_of "downloads")
                   (Samples.photo "k1" "https://pbs.twimg.com/media/ABC.jpg:large")
                   (Samples.photo "k2" "https://pbs.twimg.com/media/ABC.jpg?name=small")
                   "https://pbs.twimg.com/media/ABC.jpg:large"
                   "https://pbs.twimg.com/media/ABC.jpg?name=small"
                   ["JPEG"] ["JPEG"] tt tt Samples.started _ _ _ _ _ _ _)).
  - reflexivity.
  - reflexivity.
  - reflexivity.
  - reflexivity.
  - reflexivity.
  - vm_compute. reflexivity.
  - vm_compute. discriminate.
Defined.
